(** * free-claude-code: messaging gateway core

    A shallow embedding of the Python sources

      - [cli/parser.py]         ([CLIParser.parse_event])
      - [messaging/queue.py]    ([MessageQueueManager])
      - [messaging/limiter.py]  ([GlobalRateLimiter])
      - [messaging/handler.py]  ([ClaudeMessageHandler])

    and of the tag-segment extractor exercised by [tests/test_parsers.py],
    together with the properties stated about them.  Python values that
    come out of [json.loads] are modelled by the type [value]; raising
    code returns an [outcome]; the asyncio programs are modelled by the
    atomic blocks that run between two suspension points, and the
    scheduler by the order in which the blocks are run. *)

From Stdlib Require Import ZArith QArith List String Ascii Bool Lia Arith.
From Stdlib Require Import DecimalString.
From Stdlib Require Import Floats.SpecFloat.
From stdpp Require Import base list strings.

Import ListNotations.
Local Open Scope string_scope.
Set Warnings "-register-all".

(** ** Python values *)

Module Py.

(** A JSON-shaped Python object.  A [dict] keeps its insertion order and
    is looked up by key; [d.get(k)] finds the entry of [k]. *)
Inductive value : Type :=
| VNone
| VBool (b : bool)
| VInt (z : Z)
| VFloat (f : spec_float)
| VStr (s : string)
| VList (l : list value)
| VDict (d : list (string * value)).

Definition dict : Type := list (string * value).

(** Exceptions the modelled code can raise. *)
Inductive exn : Type :=
| AttributeError
| TypeError.

Inductive outcome (A : Type) : Type :=
| Return (a : A)
| Raise (e : exn).
Arguments Return {A} a.
Arguments Raise {A} e.

Definition bind {A B} (m : outcome A) (k : A -> outcome B) : outcome B :=
  match m with
  | Return a => k a
  | Raise e => Raise e
  end.

Notation "'let!' x ':=' m 'in' k" := (bind m (fun x => k))
  (at level 10, x name, m at level 100, k at level 200).

Fixpoint lookup_key (k : string) (d : dict) : option value :=
  match d with
  | [] => None
  | (k', v) :: d' => if String.eqb k k' then Some v else lookup_key k d'
  end.

(** [d.get(k)] and [d.get(k, dflt)]. *)
Definition get (d : dict) (k : string) : value :=
  match lookup_key k d with Some v => v | None => VNone end.

Definition get_default (d : dict) (k : string) (dflt : value) : value :=
  match lookup_key k d with Some v => v | None => dflt end.

(** [v.get(k, dflt)] on an arbitrary object: only a dict has [get]. *)
Definition attr_get (v : value) (k : string) (dflt : value) : outcome value :=
  match v with
  | VDict d => Return (get_default d k dflt)
  | _ => Raise AttributeError
  end.

Definition is_zero_float (f : spec_float) : bool :=
  match f with S754_zero _ => true | _ => false end.

(** Truth value of an object, as [if v:] and [not v] see it. *)
Definition truthy (v : value) : bool :=
  match v with
  | VNone => false
  | VBool b => b
  | VInt z => negb (Z.eqb z 0)
  | VFloat f => negb (is_zero_float f)
  | VStr s => negb (String.eqb s "")
  | VList l => match l with [] => false | _ => true end
  | VDict d => match d with [] => false | _ => true end
  end.

Definition isinstance_dict (v : value) : bool :=
  match v with VDict _ => true | _ => false end.

(** [v == "lit"]: only a string equals a string. *)
Definition eq_str (v : value) (lit : string) : bool :=
  match v with VStr s => String.eqb s lit | _ => false end.

(** [v == 0]: numbers compare by value, and [bool] is a subclass of
    [int], so [False == 0] and [0.0 == 0] hold. *)
Definition eq_zero (v : value) : bool :=
  match v with
  | VInt z => Z.eqb z 0
  | VBool b => negb b
  | VFloat f => is_zero_float f
  | _ => false
  end.

(** [sep.join(items)]: raises [TypeError] on an item that is not a [str]. *)
Fixpoint join (sep : string) (items : list value) : outcome string :=
  match items with
  | [] => Return ""
  | VStr s :: rest =>
      match rest with
      | [] => Return s
      | _ => let! r := join sep rest in Return (s ++ sep ++ r)
      end
  | _ :: _ => Raise TypeError
  end.

End Py.

(** ** [cli/parser.py] *)

Module CLIParser.
Import Py.

Section ParseEvent.

(** The builtin [str], applied to the payload of an error event. *)
Variable py_str : value -> string.

(** The [for c in content] loop of [parse_event]: the three accumulators
    [parts], [thinking_parts] and [tool_calls], each in list order. *)
Definition scan_item (acc : list value * list value * list value) (c : value)
  : list value * list value * list value :=
  let '(parts, thinking_parts, tool_calls) := acc in
  match c with
  | VDict cd =>
      let ctype := get cd "type" in
      if eq_str ctype "text" then
        ((parts ++ [get_default cd "text" (VStr "")])%list, thinking_parts, tool_calls)
      else if eq_str ctype "thinking" then
        (parts, (thinking_parts ++ [get_default cd "thinking" (VStr "")])%list, tool_calls)
      else if eq_str ctype "tool_use" then
        (parts, thinking_parts, (tool_calls ++ [c])%list)
      else acc
  | _ => acc
  end.

Definition scan_content (content : list value)
  : list value * list value * list value :=
  fold_left scan_item content ([], [], []).

(** [t.get("name") == "Task"] for an element of [tool_calls]. *)
Definition names_task (t : value) : bool :=
  match t with
  | VDict td => eq_str (get td "name") "Task"
  | _ => false
  end.

(** [t.get("input", {}).get("description", "Subagent")]. *)
Definition description (t : value) : outcome value :=
  match t with
  | VDict td => attr_get (get_default td "input" (VDict [])) "description" (VStr "Subagent")
  | _ => Raise AttributeError
  end.

(** The list comprehension building [subagents]. *)
Fixpoint subagents_of (tool_calls : list value) : outcome (list value) :=
  match tool_calls with
  | [] => Return []
  | t :: rest =>
      if names_task t then
        let! d := description t in
        let! ds := subagents_of rest in
        Return (d :: ds)
      else subagents_of rest
  end.

(** The value of [msg_obj] after the first [if]/[elif]. *)
Definition resolve_message (event : dict) : value :=
  let etype := get event "type" in
  if eq_str etype "assistant" then get event "message"
  else if eq_str etype "result" then
    let res := get event "result" in
    let msg_obj := match res with VDict rd => get rd "message" | _ => VNone end in
    if negb (truthy msg_obj) then get event "message" else msg_obj
  else VNone.

(** Rule 1 on a list-valued [content]: [Some] chunk when the function
    returns here, [None] when control falls through to the later rules. *)
Definition parse_content (content : list value) : outcome (option value) :=
  let '(parts, thinking_parts, tool_calls) := scan_content content in
  match tool_calls with
  | _ :: _ =>
      let! subagents := subagents_of tool_calls in
      match subagents with
      | _ :: _ =>
          Return (Some (VDict [("type", VStr "subagent_start"); ("tasks", VList subagents)]))
      | [] =>
          Return (Some (VDict [("type", VStr "tool_start"); ("tools", VList tool_calls)]))
      end
  | [] =>
      let! r1 :=
        match thinking_parts with
        | _ :: _ =>
            let! s := join (String "010" "") thinking_parts in
            Return [("thinking", VStr s)]
        | [] => Return []
        end in
      let! r2 :=
        match parts with
        | _ :: _ => let! s := join "" parts in Return (r1 ++ [("text", VStr s)])%list
        | [] => Return r1
        end in
      match r2 with
      | _ :: _ => Return (Some (VDict (r2 ++ [("type", VStr "content")])%list))
      | [] => Return None
      end
  end.

(** Rules 2 to 4: deltas, block starts, errors and exit. *)
Definition parse_rest (event : dict) : outcome (option value) :=
  let etype := get event "type" in
  let! r2 :=
    if eq_str etype "content_block_delta" then
      match get_default event "delta" (VDict []) with
      | VDict delta =>
          if eq_str (get delta "type") "text_delta" then
            Return (inl (Some (VDict [("type", VStr "content");
                                      ("text", get_default delta "text" (VStr ""))])))
          else if eq_str (get delta "type") "thinking_delta" then
            Return (inl (Some (VDict [("type", VStr "thinking");
                                      ("text", get_default delta "thinking" (VStr ""))])))
          else Return (inr tt)
      | _ => Return (inl None)
      end
    else Return (inr tt) in
  match r2 with
  | inl r => Return r
  | inr _ =>
  let! r3 :=
    if eq_str etype "content_block_start" then
      match get_default event "content_block" (VDict []) with
      | VDict block =>
          if eq_str (get block "type") "tool_use" then
            if eq_str (get block "name") "Task" then
              let! desc := attr_get (get_default block "input" (VDict []))
                                    "description" (VStr "Subagent") in
              Return (inl (Some (VDict [("type", VStr "subagent_start");
                                        ("tasks", VList [desc])])))
            else
              Return (inl (Some (VDict [("type", VStr "tool_start");
                                        ("tools", VList [VDict block])])))
          else Return (inr tt)
      | _ => Return (inr tt)
      end
    else Return (inr tt) in
  match r3 with
  | inl r => Return r
  | inr _ =>
    if eq_str etype "error" then
      let err := get event "error" in
      let msg := match err with
                 | VDict ed => get ed "message"
                 | _ => VStr (py_str err)
                 end in
      Return (Some (VDict [("type", VStr "error"); ("message", msg)]))
    else if eq_str etype "exit" then
      Return (Some (VDict [("type", VStr "complete");
                           ("status", VStr (if eq_zero (get event "code")
                                            then "success" else "failed"))]))
    else Return None
  end
  end.

(** [CLIParser.parse_event]. *)
Definition parse_event (event : value) : outcome (option value) :=
  match event with
  | VDict ev =>
      let msg_obj := resolve_message ev in
      let! r1 :=
        match msg_obj with
        | VDict m =>
            if truthy msg_obj then
              match get_default m "content" (VList []) with
              | VList content => parse_content content
              | _ => Return None
              end
            else Return None
        | _ => Return None
        end in
      match r1 with
      | Some chunk => Return (Some chunk)
      | None => parse_rest ev
      end
  | _ => Return None
  end.

End ParseEvent.

(** *** Reading a content list *)

Definition has_type (ty : string) (c : value) : bool :=
  match c with
  | VDict cd => eq_str (get cd "type") ty
  | _ => false
  end.

Definition field_or_empty (k : string) (c : value) : value :=
  match c with
  | VDict cd => get_default cd k (VStr "")
  | _ => VNone
  end.

(** The text items, the thinking items and the tool-use items of a
    content list, each in the order of the list. *)
Definition text_values (content : list value) : list value :=
  map (field_or_empty "text") (List.filter (has_type "text") content).

Definition thinking_values (content : list value) : list value :=
  map (field_or_empty "thinking") (List.filter (has_type "thinking") content).

Definition tool_uses (content : list value) : list value :=
  List.filter (has_type "tool_use") content.

(** The description a sub-agent item carries, [Subagent] when it has none. *)
Definition description_of (t : value) : value :=
  match t with
  | VDict td =>
      match get_default td "input" (VDict []) with
      | VDict inp => get_default inp "description" (VStr "Subagent")
      | _ => VNone
      end
  | _ => VNone
  end.

(** The [input] of a tool-use item is a dict, or is absent. *)
Definition input_is_dict (t : value) : Prop :=
  exists td inp, t = VDict td /\ get_default td "input" (VDict []) = VDict inp.

(** An assistant turn, or a result wrapping a message, with message [m]. *)
Inductive full_message (ev : dict) (m : dict) : Prop :=
| fm_assistant :
    get ev "type" = VStr "assistant" ->
    get ev "message" = VDict m -> m <> [] ->
    full_message ev m
| fm_result_wrapped (rd : dict) :
    get ev "type" = VStr "result" ->
    get ev "result" = VDict rd ->
    get rd "message" = VDict m -> m <> [] ->
    full_message ev m
| fm_result_plain :
    get ev "type" = VStr "result" ->
    (forall rd, get ev "result" = VDict rd -> truthy (get rd "message") = false) ->
    get ev "message" = VDict m -> m <> [] ->
    full_message ev m.

(** The chunk of rule 1 that carries thinking and text. *)
Definition content_chunk (ths txs : list string) : value :=
  VDict ((match ths with
          | [] => []
          | _ => [("thinking", VStr (String.concat (String "010" "") ths))]
          end)
         ++ (match txs with
             | [] => []
             | _ => [("text", VStr (String.concat "" txs))]
             end)
         ++ [("type", VStr "content")])%list.

(** *** Sample events *)

Definition content_two_tasks : list value :=
  [VDict [("type", VStr "text"); ("text", VStr "Delegating.")];
   VDict [("type", VStr "tool_use"); ("name", VStr "Task");
          ("input", VDict [("description", VStr "explore the repo")])];
   VDict [("type", VStr "tool_use"); ("name", VStr "Read");
          ("input", VDict [("path", VStr "a.py")])];
   VDict [("type", VStr "tool_use"); ("name", VStr "Task")]].

Definition ev_two_tasks : dict :=
  [("type", VStr "assistant");
   ("message", VDict [("content", VList content_two_tasks)])].

Definition content_tools : list value :=
  [VDict [("type", VStr "tool_use"); ("name", VStr "Read");
          ("input", VDict [("path", VStr "a.py")])];
   VStr "stray";
   VDict [("type", VStr "tool_use"); ("name", VStr "Grep")]].

Definition ev_tools : dict :=
  [("type", VStr "result");
   ("result", VDict [("message", VDict [("content", VList content_tools)])])].

Definition content_prose : list value :=
  [VDict [("type", VStr "thinking"); ("thinking", VStr "plan")];
   VDict [("type", VStr "text"); ("text", VStr "Hello, ")];
   VDict [("type", VStr "thinking"); ("thinking", VStr "check")];
   VDict [("type", VStr "text"); ("text", VStr "world")]].

Definition ev_prose : dict :=
  [("type", VStr "result"); ("result", VStr "done");
   ("message", VDict [("content", VList content_prose)])].

Definition ev_exit_ok : dict := [("type", VStr "exit"); ("code", VInt 0)].

End CLIParser.

(** ** [messaging/queue.py] *)

Module Queue.

(** Modelled from the spec: [messaging/models.py] is not part of the
    sources; an incoming message is the record
    [{text, chat_id, user_id, message_id, platform, reply_to_message_id?}]. *)
Record IncomingMessage : Type := {
  text : string;
  chat_id : string;
  user_id : string;
  message_id : string;
  platform : string;
  reply_to_message_id : option string
}.

Record QueuedMessage : Type := {
  incoming : IncomingMessage;
  status_message_id : string;
  context : Py.value
}.

(** A Python [dict] with string keys: insertion ordered, one entry per
    key.  [dict_set] overwrites in place or appends a new key. *)
Fixpoint dict_lookup {V : Type} (k : string) (d : list (string * V)) : option V :=
  match d with
  | [] => None
  | (k', v) :: d' => if String.eqb k k' then Some v else dict_lookup k d'
  end.

Fixpoint dict_set {V : Type} (k : string) (v : V) (d : list (string * V))
  : list (string * V) :=
  match d with
  | [] => [(k, v)]
  | (k', v') :: d' =>
      if String.eqb k k' then (k, v) :: d' else (k', v') :: dict_set k v d'
  end.

Definition keys {V : Type} (d : list (string * V)) : list string := map fst d.

(** The life of an [asyncio.Task] wrapping [_process_message]:
    created and not yet run, suspended inside the processor, finished. *)
Inductive phase : Type := Pending | Running | Done.

Record Task : Type := {
  t_session : string;
  t_message : QueuedMessage;
  t_phase : phase;
  (** [cancel()] was called and the task has not finished since. *)
  t_cancel : bool
}.

Definition done (t : Task) : bool :=
  match t_phase t with Done => true | _ => false end.

Record SessionQueue : Type := {
  session_id : string;
  queue : list QueuedMessage;
  is_processing : bool;
  current_task : option nat;
  current_message : option QueuedMessage
}.

Definition new_session_queue (sid : string) : SessionQueue :=
  {| session_id := sid; queue := []; is_processing := false;
     current_task := None; current_message := None |}.

Definition set_queue (q : list QueuedMessage) (sq : SessionQueue) :=
  {| session_id := session_id sq; queue := q;
     is_processing := is_processing sq; current_task := current_task sq;
     current_message := current_message sq |}.

Definition set_is_processing (b : bool) (sq : SessionQueue) :=
  {| session_id := session_id sq; queue := queue sq;
     is_processing := b; current_task := current_task sq;
     current_message := current_message sq |}.

Definition set_current_task (t : option nat) (sq : SessionQueue) :=
  {| session_id := session_id sq; queue := queue sq;
     is_processing := is_processing sq; current_task := t;
     current_message := current_message sq |}.

Definition set_current_message (m : option QueuedMessage) (sq : SessionQueue) :=
  {| session_id := session_id sq; queue := queue sq;
     is_processing := is_processing sq; current_task := current_task sq;
     current_message := m |}.

(** The manager's [_queues] and the tasks of the event loop; a task is
    named by its position in [tasks], which only grows. *)
Record State : Type := {
  _queues : list (string * SessionQueue);
  tasks : list Task
}.

Definition init : State := {| _queues := []; tasks := [] |}.

Definition with_queues (d : list (string * SessionQueue)) (st : State) : State :=
  {| _queues := d; tasks := tasks st |}.

Definition with_tasks (ts : list Task) (st : State) : State :=
  {| _queues := _queues st; tasks := ts |}.

(** Writing a field of the [SessionQueue] object stored under [sid]. *)
Definition store (sid : string) (sq : SessionQueue) (st : State) : State :=
  with_queues (dict_set sid sq (_queues st)) st.

(** [asyncio.create_task]: the new task and its name. *)
Definition create_task (t : Task) (st : State) : State * nat :=
  (with_tasks (tasks st ++ [t]) st, length (tasks st)).

Definition _get_or_create_queue (sid : string) (st : State)
  : State * SessionQueue :=
  match dict_lookup sid (_queues st) with
  | Some sq => (st, sq)
  | None => (store sid (new_session_queue sid) st, new_session_queue sid)
  end.

Definition is_session_busy (sid : string) (st : State) : bool :=
  match dict_lookup sid (_queues st) with
  | None => false
  | Some sq => is_processing sq
  end.

Definition get_queue_size (sid : string) (st : State) : nat :=
  match dict_lookup sid (_queues st) with
  | None => 0
  | Some sq => length (queue sq)
  end.

(** [enqueue].  No critical section of the manager suspends (the queue
    is unbounded, so [put] returns at once), hence the lock is always
    free when it is asked for and the whole body runs as one block.
    The processor is the same for every call and is represented by the
    tasks it runs in; [create_task] only creates the task, the event
    loop runs it later. *)
Definition enqueue (sid : string) (message : QueuedMessage) (st : State)
  : State * bool :=
  let '(st1, sq) := _get_or_create_queue sid st in
  if is_processing sq then
    (store sid (set_queue (queue sq ++ [message]) sq) st1, true)
  else
    let sq1 := set_is_processing true sq in
    let st2 := store sid sq1 st1 in
    let '(st3, tid) :=
      create_task {| t_session := sid; t_message := message;
                     t_phase := Pending; t_cancel := false |} st2 in
    (store sid (set_current_task (Some tid) sq1) st3, false).

(** [_process_next], run by a finishing task. *)
Definition _process_next (sid : string) (st : State) : State :=
  match dict_lookup sid (_queues st) with
  | None => st
  | Some sq =>
      match queue sq with
      | [] => store sid (set_is_processing false sq) st
      | next_msg :: rest =>
          let sq1 := set_queue rest sq in
          let st1 := store sid sq1 st in
          let '(st2, tid) :=
            create_task {| t_session := sid; t_message := next_msg;
                           t_phase := Pending; t_cancel := false |} st1 in
          store sid (set_current_task (Some tid) sq1) st2
      end
  end.

Definition set_phase (ph : phase) (t : Task) : Task :=
  {| t_session := t_session t; t_message := t_message t;
     t_phase := ph; t_cancel := t_cancel t |}.

Definition set_cancel (b : bool) (t : Task) : Task :=
  {| t_session := t_session t; t_message := t_message t;
     t_phase := t_phase t; t_cancel := b |}.

(** [_process_message] up to its first suspension: the task records its
    message and enters the processor. *)
Definition _process_message_start (tid : nat) (t : Task) (st : State) : State :=
  let st1 :=
    match dict_lookup (t_session t) (_queues st) with
    | Some sq => store (t_session t) (set_current_message (Some (t_message t)) sq) st
    | None => st
    end in
  with_tasks (<[tid := set_phase Running t]> (tasks st1)) st1.

(** [_process_message] from the end of the processor: the processor has
    returned, raised, or been cancelled; the [finally] block clears the
    message and runs [_process_next]. *)
Definition _process_message_finish (tid : nat) (t : Task) (st : State) : State :=
  let st1 :=
    match dict_lookup (t_session t) (_queues st) with
    | Some sq => store (t_session t) (set_current_message None sq) st
    | None => st
    end in
  let st2 := _process_next (t_session t) st1 in
  with_tasks (<[tid := set_cancel false (set_phase Done t)]> (tasks st2)) st2.

(** The event loop resumes task [tid].  A task cancelled before its
    first step never runs its body. *)
Definition run_task (tid : nat) (st : State) : State :=
  match tasks st !! tid with
  | None => st
  | Some t =>
      match t_phase t with
      | Pending =>
          if t_cancel t
          then with_tasks (<[tid := set_cancel false (set_phase Done t)]> (tasks st)) st
          else _process_message_start tid t st
      | Running => _process_message_finish tid t st
      | Done => st
      end
  end.

(** [Task.cancel()]. *)
Definition cancel_task (tid : nat) (st : State) : State :=
  match tasks st !! tid with
  | Some t => with_tasks (<[tid := set_cancel true t]> (tasks st)) st
  | None => st
  end.

Definition task_done (tid : nat) (st : State) : bool :=
  match tasks st !! tid with
  | Some t => done t
  | None => true
  end.

Definition cancel_session (sid : string) (st : State)
  : State * list QueuedMessage :=
  match dict_lookup sid (_queues st) with
  | None => (st, [])
  | Some sq =>
      let '(st1, cancelled1) :=
        match current_task sq with
        | Some tid =>
            if negb (task_done tid st)
            then (cancel_task tid st,
                  match current_message sq with
                  | Some m => [m]
                  | None => []
                  end)
            else (st, [])
        | None => (st, [])
        end in
      let cancelled_messages := (cancelled1 ++ queue sq)%list in
      (store sid (set_is_processing false (set_queue [] sq)) st1,
       cancelled_messages)
  end.

(** The [for sid in session_ids] loop of [cancel_all]. *)
Fixpoint cancel_each (session_ids : list string) (st : State)
  : State * list QueuedMessage :=
  match session_ids with
  | [] => (st, [])
  | sid :: rest =>
      let '(st1, c1) := cancel_session sid st in
      let '(st2, c2) := cancel_each rest st1 in
      (st2, (c1 ++ c2)%list)
  end.

Definition cancel_all (st : State) : State * list QueuedMessage :=
  cancel_each (keys (_queues st)) st.

(** *** Interleavings *)

Inductive action : Type :=
| Enqueue (sid : string) (m : QueuedMessage)
| RunTask (tid : nat)
| CancelSession (sid : string)
| CancelAll.

Definition step (st : State) (a : action) : State :=
  match a with
  | Enqueue sid m => fst (enqueue sid m st)
  | RunTask tid => run_task tid st
  | CancelSession sid => fst (cancel_session sid st)
  | CancelAll => fst (cancel_all st)
  end.

Definition run (acts : list action) (st : State) : State :=
  fold_left step acts st.

Definition is_cancel (a : action) : bool :=
  match a with
  | CancelSession _ | CancelAll => true
  | _ => false
  end.

(** A task owns its conversation from its creation until it is done. *)
Definition owns (sid : string) (t : Task) : bool :=
  String.eqb (t_session t) sid && negb (done t).

(** The messages whose processing has been started for [sid], in order. *)
Definition started (sid : string) (st : State) : list QueuedMessage :=
  map t_message (List.filter (fun t => String.eqb (t_session t) sid) (tasks st)).

Definition queued (sid : string) (st : State) : list QueuedMessage :=
  match dict_lookup sid (_queues st) with
  | None => []
  | Some sq => queue sq
  end.

(** The messages handed to [enqueue] for [sid] along a trace, in order. *)
Definition enqueued (sid : string) (acts : list action) : list QueuedMessage :=
  flat_map (fun a => match a with
                     | Enqueue sid' m => if String.eqb sid' sid then [m] else []
                     | _ => []
                     end) acts.

(** What [cancel_session] puts in front of the queued messages: the
    [current_message] field of the conversation, read when its
    [current_task] is not done. *)
Definition reported_message (sid : string) (st : State) : list QueuedMessage :=
  match dict_lookup sid (_queues st) with
  | None => []
  | Some sq =>
      match current_task sq with
      | Some tid =>
          if negb (task_done tid st)
          then match current_message sq with Some m => [m] | None => [] end
          else []
      | None => []
      end
  end.

(** The message the current task of the conversation is working on:
    the task's own message, while the task is inside the processor.
    It is read off the task, not off the [current_message] field. *)
Definition in_flight_message (sid : string) (st : State) : list QueuedMessage :=
  match dict_lookup sid (_queues st) with
  | None => []
  | Some sq =>
      match current_task sq with
      | Some tid =>
          match tasks st !! tid with
          | Some t =>
              match t_phase t with
              | Running => [t_message t]
              | _ => []
              end
          | None => []
          end
      | None => []
      end
  end.

(** The [SessionQueue] that [_get_or_create_queue] hands out. *)
Definition session_or_new (sid : string) (st : State) : SessionQueue :=
  match dict_lookup sid (_queues st) with
  | Some sq => sq
  | None => new_session_queue sid
  end.

Definition fresh_task (sid : string) (m : QueuedMessage) : Task :=
  {| t_session := sid; t_message := m; t_phase := Pending; t_cancel := false |}.

(** The single-flight shape of a state: every unfinished task is the
    current task of its busy conversation, every busy conversation has
    such a task, an idle conversation has nothing queued, and no
    cancellation is pending. *)
Record single_flight (st : State) : Prop := {
  sf_owner : forall tid t,
    tasks st !! tid = Some t -> done t = false ->
    exists sq, dict_lookup (t_session t) (_queues st) = Some sq
               /\ is_processing sq = true /\ current_task sq = Some tid;
  sf_busy : forall sid sq,
    dict_lookup sid (_queues st) = Some sq -> is_processing sq = true ->
    exists tid t, current_task sq = Some tid /\ tasks st !! tid = Some t
                  /\ t_session t = sid /\ done t = false;
  sf_idle : forall sid sq,
    dict_lookup sid (_queues st) = Some sq -> is_processing sq = false ->
    queue sq = [];
  sf_cancel : forall tid t, tasks st !! tid = Some t -> t_cancel t = false
}.

(** *** Sample messages *)

Definition sample_message (n : string) : QueuedMessage :=
  {| incoming := {| text := "msg " ++ n; chat_id := "123"; user_id := "456";
                    message_id := n; platform := "telegram";
                    reply_to_message_id := None |};
     status_message_id := "status_" ++ n;
     context := Py.VNone |}.

(** A cancellation followed by new messages for the same conversation. *)
Definition overlap_trace : list action :=
  [Enqueue "s" (sample_message "1"); RunTask 0; CancelSession "s";
   Enqueue "s" (sample_message "2"); RunTask 1; RunTask 0].

(** One message being processed and one waiting. *)
Definition busy_state : State :=
  run [Enqueue "s" (sample_message "1"); RunTask 0;
       Enqueue "s" (sample_message "2")] init.

(** Two conversations, each with a message in flight and one waiting. *)
Definition two_sessions : State :=
  run [Enqueue "a" (sample_message "1"); RunTask 0;
       Enqueue "b" (sample_message "2"); Enqueue "a" (sample_message "3");
       RunTask 1; Enqueue "b" (sample_message "4")] init.

End Queue.

(** ** [messaging/limiter.py] *)

Module Limiter.

(** An exception raised by a messaging task: its text [str(e)] and its
    [seconds] attribute when it has one. *)
Record Error : Type := {
  message : string;
  seconds_attr : option Z
}.

Inductive call_result : Type :=
| Returns (v : Py.value)
| Raises (e : Error).

(** One call of a task: what it does and how long it runs. *)
Record attempt : Type := {
  result : call_result;
  elapsed : nat
}.

Definition lower_ascii (a : ascii) : ascii :=
  let n := nat_of_ascii a in
  if ((65 <=? n)%nat && (n <=? 90)%nat)%bool then ascii_of_nat (n + 32) else a.

(** [str.lower] on the ASCII letters; other characters are kept. *)
Fixpoint lower (s : string) : string :=
  match s with
  | EmptyString => EmptyString
  | String a s' => String (lower_ascii a) (lower s')
  end.

(** [needle in hay]. *)
Fixpoint contains (needle hay : string) : bool :=
  String.prefix needle hay
  || match hay with
     | EmptyString => false
     | String _ hay' => contains needle hay'
     end.

(** The test of the [except] branch of [_worker]. *)
Definition is_flood_wait (e : Error) : bool :=
  let error_msg := lower (message e) in
  contains "flood" error_msg || contains "wait" error_msg.

Definition flood_seconds (e : Error) : Z :=
  match seconds_attr e with
  | Some seconds => seconds
  | None => 30%Z
  end.

(** A queue item [(func, future)].  [func] is a callable with state of
    its own: [func n] is what its call number [n] does, [calls] counts
    the calls made so far.  [future] names the future. *)
Record Entry : Type := {
  func : nat -> attempt;
  calls : nat;
  future : nat
}.

Definition called (e : Entry) : Entry :=
  {| func := func e; calls := S (calls e); future := future e |}.

Inductive settled : Type :=
| Result (v : Py.value)
| Exception (e : Error).

(** [if not future.done(): future.set_...]. *)
Definition settle (fid : nat) (s : settled) (futs : list (option settled))
  : list (option settled) :=
  match futs !! fid with
  | Some None => <[fid := Some s]> futs
  | _ => futs
  end.

Section Worker.

(** The [AsyncLimiter] of the aiolimiter library: entering it at a given
    time takes a delay and leaves the limiter in a new state. *)
Variable Bucket : Type.
Variable acquire : Bucket -> Z -> Bucket * nat.

(** The limiter, the loop's clock, and the futures handed out.
    [dispatched] records when each call was started and for which
    future; the code does not read it. *)
Record GlobalRateLimiter : Type := {
  now : Z;
  _paused_until : Z;
  queue : list Entry;
  futures : list (option settled);
  limiter : Bucket;
  dispatched : list (Z * nat)
}.

(** The clock when the worker has slept out a pause. *)
Definition after_pause (st : GlobalRateLimiter) : Z :=
  if (_paused_until st >? now st)%Z
  then (now st + (_paused_until st - now st))%Z
  else now st.

(** The clock when the limiter admits the call. *)
Definition call_time (st : GlobalRateLimiter) : Z :=
  (after_pause st + Z.of_nat (snd (acquire (limiter st) (after_pause st))))%Z.

(** One turn of the [while True] loop of [_worker]; with an empty queue
    the worker waits in [queue.get()]. *)
Definition worker_step (st : GlobalRateLimiter) : GlobalRateLimiter :=
  match queue st with
  | [] => st
  | e :: rest =>
      let bucket' := fst (acquire (limiter st) (after_pause st)) in
      let a := func e (calls e) in
      let t := (call_time st + Z.of_nat (elapsed a))%Z in
      let log := (dispatched st ++ [(call_time st, future e)])%list in
      match result a with
      | Returns v =>
          {| now := t; _paused_until := _paused_until st; queue := rest;
             futures := settle (future e) (Result v) (futures st);
             limiter := bucket'; dispatched := log |}
      | Raises err =>
          if is_flood_wait err then
            let seconds := flood_seconds err in
            {| now := (t + Z.max 0 seconds)%Z;
               _paused_until := (t + seconds)%Z;
               queue := (rest ++ [called e])%list;
               futures := futures st;
               limiter := bucket'; dispatched := log |}
          else
            {| now := t; _paused_until := _paused_until st; queue := rest;
               futures := settle (future e) (Exception err) (futures st);
               limiter := bucket'; dispatched := log |}
      end
  end.

Fixpoint worker (n : nat) (st : GlobalRateLimiter) : GlobalRateLimiter :=
  match n with
  | O => st
  | S n' => worker n' (worker_step st)
  end.

(** [enqueue] up to its [await future]: the new state and the future
    whose value the caller receives. *)
Definition enqueue (f : nat -> attempt) (st : GlobalRateLimiter) : GlobalRateLimiter * nat :=
  let fid := length (futures st) in
  ({| now := now st; _paused_until := _paused_until st;
      queue := (queue st ++ [{| func := f; calls := 0; future := fid |}])%list;
      futures := (futures st ++ [None])%list;
      limiter := limiter st; dispatched := dispatched st |}, fid).

(** The time at which the head task's call ends. *)
Definition return_time (st : GlobalRateLimiter) (e : Entry) : Z :=
  (call_time st + Z.of_nat (elapsed (func e (calls e))))%Z.

(** The other queue items complete other futures. *)
Definition alone (p : nat) (e : Entry) (q : list Entry) : Prop :=
  forall i h, q !! i = Some h -> i <> p -> future h <> future e.

(** The task fails with a flood-control error [k] times and then
    returns [v]. *)
Definition floods_then_returns (e : Entry) (k : nat) (v : Py.value) : Prop :=
  (forall i, i < k ->
     exists err, result (func e (calls e + i)) = Raises err
                 /\ is_flood_wait err = true)
  /\ result (func e (calls e + k)) = Returns v.

End Worker.

Arguments now {Bucket} _.
Arguments _paused_until {Bucket} _.
Arguments queue {Bucket} _.
Arguments futures {Bucket} _.
Arguments limiter {Bucket} _.
Arguments dispatched {Bucket} _.
Arguments enqueue {Bucket} _ _.

(** No call of the task ever fails with a flood-control error. *)
Definition never_floods (e : Entry) : Prop :=
  forall n err, result (func e n) = Raises err -> is_flood_wait err = false.

(** *** A sample limiter and sample tasks *)

(** One permit per two ticks; the state is the time the next permit is
    free. *)
Definition one_per_two (free_at : Z) (t : Z) : Z * nat :=
  (Z.max free_at t + 2, Z.to_nat (free_at - t))%Z.

Definition flood_error : Error :=
  {| message := "FloodWait for 5s"; seconds_attr := Some 5%Z |}.

Definition plain_error : Error :=
  {| message := "message not modified"; seconds_attr := None |}.

(** The task of [test_flood_wait]: it fails once, then succeeds. *)
Definition task_that_fails_once (n : nat) : attempt :=
  match n with
  | O => {| result := Raises flood_error; elapsed := 0 |}
  | _ => {| result := Returns (Py.VStr "success"); elapsed := 0 |}
  end.

Definition task_that_fails (n : nat) : attempt :=
  {| result := Raises plain_error; elapsed := 1 |}.

Definition idle : GlobalRateLimiter Z :=
  {| now := 0; _paused_until := 0; queue := []; futures := [];
     limiter := 0%Z; dispatched := [] |}.

End Limiter.

(** ** [messaging/handler.py] *)

Module Handler.
Local Open Scope list_scope.

(** A rendered text is a Python [str] taken as its sequence of code
    points: [len] and slices count code points.  Identifiers and the
    text of an incoming message are only compared and prefixed, and are
    kept as their UTF-8 bytes. *)
Definition pystr : Type := list N.

(** An ASCII literal. *)
Definition u (s : string) : pystr := map N_of_ascii (list_ascii_of_string s).

(** [str(n)]. *)
Definition dec (n : nat) : pystr := u (NilEmpty.string_of_uint (Nat.to_uint n)).

Definition nl : pystr := [10%N].
Definition fence : pystr := [96%N; 96%N; 96%N].
Definition ellipsis : pystr := [46%N; 46%N; 46%N].

Fixpoint starts_with (sub s : pystr) : bool :=
  match sub, s with
  | [], _ => true
  | _ :: _, [] => false
  | a :: sub', b :: s' => N.eqb a b && starts_with sub' s'
  end.

(** [s.count(sub)] for a non-empty [sub]: the occurrences found scanning
    from the left, each one starting after the end of the one before.
    [skip] characters are still covered by the last occurrence. *)
Fixpoint count_skip (sub : pystr) (skip : nat) (s : pystr) : nat :=
  match s with
  | [] => 0
  | _ :: s' =>
      match skip with
      | S k => count_skip sub k s'
      | O =>
          if starts_with sub s
          then S (count_skip sub (length sub - 1)%nat s')
          else count_skip sub 0 s'
      end
  end.

Definition count (sub s : pystr) : nat := count_skip sub 0 s.

(** [sep.join(lines)]. *)
Fixpoint join_lines (sep : pystr) (lines : list pystr) : pystr :=
  match lines with
  | [] => []
  | [l] => l
  | l :: rest => l ++ sep ++ join_lines sep rest
  end.

(** [s[-n:]] for a positive [n]. *)
Definition last_n (n : nat) (s : pystr) : pystr := skipn (length s - n)%nat s.

(** The lines one part of the display buffer adds. *)
Definition render_part (part : string * pystr) : list pystr :=
  let '(part_type, content) := part in
  if String.eqb part_type "thinking" then
    let display := firstn 1200 content
                   ++ (if (1200 <? length content)%nat then ellipsis else []) in
    [[128173%N] ++ u " **Thinking:**" ++ nl ++ fence ++ nl ++ display
       ++ nl ++ fence]
  else if String.eqb part_type "tool" then
    [[128295%N] ++ u " **Tools:** `" ++ content ++ u "`"]
  else if String.eqb part_type "content" then
    [content]
  else if String.eqb part_type "error" then
    [[9888%N; 65039%N] ++ u " " ++ content]
  else [].

Definition status_lines (status : option pystr) : list pystr :=
  match status with
  | Some (c :: st) => [c :: st; []]
  | _ => []
  end.

(** The message before it is cut to size. *)
Definition joined (parts : list (string * pystr)) (status : option pystr)
  : pystr :=
  join_lines nl (status_lines status ++ flat_map render_part parts).

Definition _build_message (parts : list (string * pystr))
    (status : option pystr) : pystr :=
  let result := joined parts status in
  if (3800 <? length result)%nat then
    let result := ellipsis ++ last_n 3795 result in
    if negb (Nat.eqb (count fence result mod 2)%nat 0)
    then result ++ nl ++ fence
    else result
  else result.

(** *** Calls on the messaging platform *)

Inductive platform_call : Type :=
| SendMessage (chat_id : string) (text : pystr) (reply_to : option string)
| EditMessage (chat_id : string) (message_id : string) (text : pystr)
    (parse_mode : option string).

(** The handler's own status prefixes, as UTF-8 bytes. *)
Definition own_prefixes : list string :=
  ["⏳"; "💭"; "🔧"; "✅"; "❌"; "🚀"; "🤖"; "📋"; "📊"; "🔄"]%string.

(** What [cli_manager.get_stats()] reports. *)
Record Stats : Type := {
  active_sessions : nat;
  max_sessions : nat
}.

(** An identifier that counts as present: not [None] and not empty. *)
Definition present (sid : option string) : option string :=
  match sid with
  | Some s => if String.eqb s "" then None else Some s
  | None => None
  end.

Definition _get_initial_status (session_id : option string) (stats : Stats)
    (mq : Queue.State) : pystr :=
  match present session_id with
  | Some sid =>
      if Queue.is_session_busy sid mq then
        let queue_size := (Queue.get_queue_size sid mq + 1)%nat in
        [128203%N] ++ u " **Queued** (position " ++ dec queue_size
          ++ u ") - waiting..."
      else [128260%N] ++ u " **Continuing conversation...**"
  | None =>
      if (max_sessions stats <=? active_sessions stats)%nat then
        [9203%N] ++ u " **Waiting for slot...** (" ++ dec (active_sessions stats)
          ++ u "/" ++ dec (max_sessions stats) ++ u ")"
      else [9203%N] ++ u " **Launching new Claude CLI instance...**"
  end.

Definition _handle_stop_command (incoming : Queue.IncomingMessage)
    (mq : Queue.State) : Queue.State * platform_call :=
  let '(mq', cancelled) := Queue.cancel_all mq in
  (mq', SendMessage (Queue.chat_id incoming)
          ([9209%N] ++ u " **Stopped.** Cancelled " ++ dec (length cancelled)
             ++ u " pending messages.")
          None).

Definition _handle_stats_command (incoming : Queue.IncomingMessage)
    (stats : Stats) : platform_call :=
  SendMessage (Queue.chat_id incoming)
    ([128202%N] ++ u " **Stats**" ++ nl ++ [8226%N] ++ u " Active: "
       ++ dec (active_sessions stats) ++ nl ++ [8226%N] ++ u " Max: "
       ++ dec (max_sessions stats))
    None.

(** The session a reply continues: [found] is what the session store
    knows for the message replied to. *)
Definition session_id_to_resume (incoming : Queue.IncomingMessage)
    (found : option string) : option string :=
  match Queue.reply_to_message_id incoming with
  | Some _ => present found
  | None => None
  end.

(** [handle_message] up to the answer of its platform call: the queue
    manager after it and the call made, if any. *)
Definition handle_message (incoming : Queue.IncomingMessage)
    (found : option string) (stats : Stats) (mq : Queue.State)
  : Queue.State * option platform_call :=
  if String.eqb (Queue.text incoming) "/stop" then
    let '(mq', c) := _handle_stop_command incoming mq in (mq', Some c)
  else if String.eqb (Queue.text incoming) "/stats" then
    (mq, Some (_handle_stats_command incoming stats))
  else if existsb (fun p => String.prefix p (Queue.text incoming)) own_prefixes
  then (mq, None)
  else
    let status_text :=
      _get_initial_status (session_id_to_resume incoming found) stats mq in
    (mq, Some (SendMessage (Queue.chat_id incoming) status_text
                 (Some (Queue.message_id incoming)))).

(** [handle_message] from the answer [status_msg_id] of the status
    message on: the message is handed to the queue manager. *)
Definition handle_message_enqueue (incoming : Queue.IncomingMessage)
    (found : option string) (status_msg_id : string) (mq : Queue.State)
  : Queue.State * bool :=
  let queued := {| Queue.incoming := incoming;
                   Queue.status_message_id := status_msg_id;
                   Queue.context := Py.VNone |} in
  let queue_session_id :=
    match session_id_to_resume incoming found with
    | Some sid => sid
    | None => ("pending_" ++ Queue.message_id incoming)%string
    end in
  Queue.enqueue queue_session_id queued mq.

(** The state [update_ui] closes over. *)
Record Turn : Type := {
  chat : string;
  status_msg : string;
  message_parts : list (string * pystr);
  last_ui_update : Q
}.

(** [update_ui] at clock reading [now]: the turn after it and the edit
    made, if any.  [_flood_wait_until] is the handler's field. *)
Definition update_ui (_flood_wait_until : Q) (now : Q) (turn : Turn)
    (status : option pystr) (force : bool) : Turn * option platform_call :=
  if negb (Qle_bool _flood_wait_until now) then (turn, None)
  else if negb force && negb (Qle_bool 1 (now - last_ui_update turn)%Q)
  then (turn, None)
  else
    match _build_message (message_parts turn) status with
    | [] => (turn, None)
    | display =>
        ({| chat := chat turn; status_msg := status_msg turn;
            message_parts := message_parts turn; last_ui_update := now |},
         Some (EditMessage (chat turn) (status_msg turn) display
                 (Some "markdown"%string)))
    end.

(** The places where the handler talks to the platform. *)
Inductive send_site : Type :=
| OnMessage (incoming : Queue.IncomingMessage) (found : option string)
    (stats : Stats) (mq : Queue.State)
| OnFlush (_flood_wait_until now : Q) (turn : Turn) (status : option pystr)
    (force : bool).

Definition outbound (site : send_site) : list platform_call :=
  match site with
  | OnMessage incoming found stats mq =>
      match snd (handle_message incoming found stats mq) with
      | Some c => [c]
      | None => []
      end
  | OnFlush fw now turn status force =>
      match snd (update_ui fw now turn status force) with
      | Some c => [c]
      | None => []
      end
  end.

(** The world a send can reach: the calls that have gone out on the
    wire, in order, and the process-wide limiter. *)
Record World (Bucket : Type) : Type := {
  sent : list platform_call;
  rate_limiter : Limiter.GlobalRateLimiter Bucket
}.
Arguments sent {Bucket} _.
Arguments rate_limiter {Bucket} _.

(** [self.platform]: an implementation of the abstract class of
    [base.py], given by what a call of [send_message] or [edit_message]
    does to the world.  [base.py] declares the methods and says nothing
    on how an implementation sends. *)
Definition MessagingPlatform (Bucket : Type) : Type :=
  platform_call -> World Bucket -> World Bucket.

(** The handler at a send site: it awaits the call on [self.platform].
    Its fields are [platform], [cli_manager], [session_store],
    [message_queue] and [_flood_wait_until]; it holds no limiter. *)
Definition send {Bucket : Type} (platform : MessagingPlatform Bucket)
    (site : send_site) (w : World Bucket) : World Bucket :=
  fold_left (fun w c => platform c w) (outbound site) w.

(** An implementation that puts each call on the wire when it is made. *)
Definition direct {Bucket : Type} : MessagingPlatform Bucket :=
  fun c w => {| sent := sent w ++ [c]; rate_limiter := rate_limiter w |}.

(** *** Sample traffic *)

Definition hello : Queue.IncomingMessage :=
  {| Queue.text := "Hello"; Queue.chat_id := "123"; Queue.user_id := "456";
     Queue.message_id := "789"; Queue.platform := "telegram";
     Queue.reply_to_message_id := None |}.

Definition stats_command : Queue.IncomingMessage :=
  {| Queue.text := "/stats"; Queue.chat_id := "9"; Queue.user_id := "456";
     Queue.message_id := "790"; Queue.platform := "telegram";
     Queue.reply_to_message_id := None |}.

Definition sample_turn : Turn :=
  {| chat := "123"; status_msg := "s1";
     message_parts := [("content"%string, u "Hi")]; last_ui_update := 0 |}.

Definition sample_sites : list send_site :=
  [OnMessage hello None {| active_sessions := 0; max_sessions := 5 |} Queue.init;
   OnFlush 0 3 sample_turn (Some (u "done")) true;
   OnMessage stats_command None {| active_sessions := 1; max_sessions := 5 |}
     Queue.init].

(** Nothing sent yet, nothing submitted to the limiter. *)
Definition quiet : World Z :=
  {| sent := []; rate_limiter := Limiter.idle |}.

(** A thinking block of 2000 characters and 3000 characters of prose. *)
Definition long_parts : list (string * pystr) :=
  [("thinking"%string, repeat 97%N 2000); ("content"%string, repeat 98%N 3000)].

End Handler.

(** ** The tag-segment extractor *)

Module ThinkParser.
Local Open Scope list_scope.

(** Modelled from the spec: [providers/utils/think_parser.py] is not
    part of the sources; only its tests are.  The extractor scans for
    the delimiter pair of the tests, [<think>] and [</think>],
    partitions the text it is fed into typed segments (ordinary text
    and delimited thinking content), emits them as soon as they are
    determined, and when a feed ends inside a possible delimiter keeps
    the undecided suffix in its buffer and resolves it on the next
    feed.  All state lives in the parser instance. *)
Inductive ContentType : Type := TEXT | THINKING.

Record ContentChunk : Type := {
  type : ContentType;
  content : list ascii
}.

Definition OPEN_TAG : list ascii := list_ascii_of_string "<think>".
Definition CLOSE_TAG : list ascii := list_ascii_of_string "</think>".

Record Parser : Type := {
  in_think : bool;
  buffer : list ascii
}.

Definition new_parser : Parser := {| in_think := false; buffer := [] |}.

(** The delimiter awaited and the type of what is read meanwhile. *)
Definition awaited (inside : bool) : list ascii :=
  if inside then CLOSE_TAG else OPEN_TAG.

Definition reading (inside : bool) : ContentType :=
  if inside then THINKING else TEXT.

Fixpoint is_prefix (a b : list ascii) : bool :=
  match a, b with
  | [], _ => true
  | _ :: _, [] => false
  | x :: a', y :: b' => Ascii.eqb x y && is_prefix a' b'
  end.

Definition type_eqb (a b : ContentType) : bool :=
  match a, b with
  | TEXT, TEXT | THINKING, THINKING => true
  | _, _ => false
  end.

(** What the scan of one character decides: a character of a segment,
    or the end of a segment at a completed delimiter. *)
Inductive event : Type :=
| Emit (ty : ContentType) (c : ascii)
| Boundary.

(** One character.  The buffer holds a proper prefix of the awaited
    delimiter.  When the character completes the delimiter the mode
    flips; when it extends the prefix it is held back; otherwise the
    held characters are content after all, and the character starts a
    new prefix or is content itself.  ([<] occurs in the delimiters at
    their first place only, so no shorter suffix can be a prefix.) *)
Definition scan_char (p : Parser) (c : ascii) : Parser * list event :=
  let tag := awaited (in_think p) in
  let ty := reading (in_think p) in
  let candidate := buffer p ++ [c] in
  if bool_decide (candidate = tag) then
    ({| in_think := negb (in_think p); buffer := [] |}, [Boundary])
  else if is_prefix candidate tag then
    ({| in_think := in_think p; buffer := candidate |}, [])
  else
    let held := map (Emit ty) (buffer p) in
    if is_prefix [c] tag
    then ({| in_think := in_think p; buffer := [c] |}, held)
    else ({| in_think := in_think p; buffer := [] |}, held ++ [Emit ty c]).

Fixpoint scan (p : Parser) (text : list ascii) : Parser * list event :=
  match text with
  | [] => (p, [])
  | c :: text' =>
      let '(p1, e1) := scan_char p c in
      let '(p2, e2) := scan p1 text' in
      (p2, e1 ++ e2)
  end.

Definition close (cur : option ContentChunk) : list ContentChunk :=
  match cur with
  | Some ch => [ch]
  | None => []
  end.

(** The segments of one feed: characters of one type up to the next
    delimiter form one segment. *)
Fixpoint chunks_of (evs : list event) (cur : option ContentChunk)
  : list ContentChunk :=
  match evs with
  | [] => close cur
  | Boundary :: evs' => close cur ++ chunks_of evs' None
  | Emit ty c :: evs' =>
      match cur with
      | Some ch =>
          if type_eqb (type ch) ty
          then chunks_of evs' (Some {| type := ty; content := content ch ++ [c] |})
          else ch :: chunks_of evs' (Some {| type := ty; content := [c] |})
      | None => chunks_of evs' (Some {| type := ty; content := [c] |})
      end
  end.

(** [feed]: the parser after the text and the segments emitted. *)
Definition feed (p : Parser) (text : list ascii) : Parser * list ContentChunk :=
  let '(p', evs) := scan p text in
  (p', chunks_of evs None).

(** Consecutive feeds, with everything they emit. *)
Fixpoint feed_all (p : Parser) (pieces : list (list ascii))
  : Parser * list ContentChunk :=
  match pieces with
  | [] => (p, [])
  | piece :: rest =>
      let '(p1, out1) := feed p piece in
      let '(p2, out2) := feed_all p1 rest in
      (p2, out1 ++ out2)
  end.

(** The emitted characters, each with the type of its segment. *)
Definition typed (out : list ContentChunk) : list (ContentType * ascii) :=
  flat_map (fun ch => map (pair (type ch)) (content ch)) out.

(** The concatenation of the emitted segment contents. *)
Definition contents (out : list ContentChunk) : list ascii :=
  flat_map content out.

(** The maximal runs of equally typed characters: the segments with
    the boundaries between text and thinking only. *)
Fixpoint runs (l : list (ContentType * ascii)) : list ContentChunk :=
  match l with
  | [] => []
  | (ty, c) :: rest =>
      match runs rest with
      | ch :: chs =>
          if type_eqb ty (type ch)
          then {| type := ty; content := c :: content ch |} :: chs
          else {| type := ty; content := [c] |} :: ch :: chs
      | [] => [{| type := ty; content := [c] |}]
      end
  end.

Definition by_type (out : list ContentChunk) : list ContentChunk :=
  runs (typed out).

(** The buffer holds an undecided text: a proper prefix of the awaited
    delimiter. *)
Definition undecided (p : Parser) : Prop :=
  is_prefix (buffer p) (awaited (in_think p)) = true
  /\ buffer p <> awaited (in_think p).

(** The characters a scan has decided, each with its type. *)
Definition emitted (evs : list event) : list (ContentType * ascii) :=
  flat_map (fun ev => match ev with
                      | Emit ty c => [(ty, c)]
                      | Boundary => []
                      end) evs.

Definition s (x : string) : list ascii := list_ascii_of_string x.

(** The spec's partition of a text into typed segments at the delimiter
    pair, read off the whole text with no buffer: where the
    awaited delimiter stands, it is dropped and the mode changes
    ([skip] counts the characters of the delimiter still to drop); a
    rest of the text that is a proper prefix of the awaited delimiter
    is undecided; any other character belongs to the segment being
    read.  The result is the decided characters with their types, the
    mode at the end and the undecided rest. *)
Fixpoint partition (skip : nat) (inside : bool) (text : list ascii)
  : list (ContentType * ascii) * Parser :=
  match text with
  | [] => ([], {| in_think := inside; buffer := [] |})
  | c :: text' =>
      match skip with
      | S k => partition k inside text'
      | O =>
          if is_prefix (awaited inside) text
          then partition (length (awaited inside) - 1) (negb inside) text'
          else if is_prefix text (awaited inside)
          then ([], {| in_think := inside; buffer := text |})
          else (((reading inside, c) :: fst (partition 0 inside text'),
                 snd (partition 0 inside text')))
      end
  end.

(** More decided characters in front of a partition. *)
Definition prepend (out : list (ContentType * ascii))
    (r : list (ContentType * ascii) * Parser) : list (ContentType * ascii) * Parser :=
  (out ++ fst r, snd r).

(** A text without the first character of the delimiters. *)
Definition plain (text : list ascii) : bool :=
  forallb (fun a => negb (Ascii.eqb a "<"%char)) text.

End ThinkParser.

(** ** What the handler reads of a parsed chunk *)

Module Chunk.
Import Py.

Definition has_key (k : string) (d : dict) : bool :=
  match lookup_key k d with
  | Some _ => true
  | None => false
  end.

(** A chunk as [_process_task] indexes it: a dict whose [type] is one of
    six, with the entry read for that type. *)
Definition well_formed (chunk : value) : Prop :=
  exists d, chunk = VDict d /\
    ((get d "type" = VStr "subagent_start"
      /\ exists tasks, lookup_key "tasks" d = Some (VList tasks) /\ tasks <> [])
     \/ (get d "type" = VStr "tool_start"
         /\ exists tools, lookup_key "tools" d = Some (VList tools)
                          /\ tools <> []
                          /\ Forall (fun t => isinstance_dict t = true) tools)
     \/ (get d "type" = VStr "content"
         /\ (has_key "thinking" d || has_key "text" d) = true)
     \/ (get d "type" = VStr "thinking" /\ has_key "text" d = true)
     \/ (get d "type" = VStr "error" /\ has_key "message" d = true)
     \/ (get d "type" = VStr "complete"
         /\ (get d "status" = VStr "success"
             \/ get d "status" = VStr "failed"))).

(** *** More sample events *)

Definition ev_text_delta : dict :=
  [("type", VStr "content_block_delta");
   ("delta", VDict [("type", VStr "text_delta"); ("text", VStr "Hi")])].

Definition ev_block_task : dict :=
  [("type", VStr "content_block_start");
   ("content_block",
    VDict [("type", VStr "tool_use"); ("name", VStr "Task");
           ("input", VDict [("description", VStr "explore the repo")])])].

Definition ev_error : dict :=
  [("type", VStr "error");
   ("error", VDict [("message", VStr "backend crashed")])].

Definition ev_ping : dict := [("type", VStr "ping")].

End Chunk.

(** ** The message a conversation is working on *)

Module Tracking.
Import Queue.

(** [current_message] follows the current task: it is the task's
    message while the task is inside the processor, and [None] before
    the task has started and after it has finished. *)
Definition tracked (st : State) : Prop :=
  forall sid sq, dict_lookup sid (_queues st) = Some sq ->
    match current_task sq with
    | Some tid =>
        exists t, tasks st !! tid = Some t /\ t_session t = sid
                  /\ current_message sq
                     = match t_phase t with
                       | Running => Some (t_message t)
                       | _ => None
                       end
    | None => current_message sq = None
    end.

(** Every task that is neither done nor cancelled is the current task
    of its conversation. *)
Definition owned (st : State) : Prop :=
  forall tid t, tasks st !! tid = Some t -> done t = false -> t_cancel t = false ->
    exists sq, dict_lookup (t_session t) (_queues st) = Some sq
               /\ current_task sq = Some tid.

(** One message being processed, nothing waiting. *)
Definition running_state : State :=
  run [Enqueue "s" (sample_message "1"); RunTask 0] init.

End Tracking.

(** ** Tasks by how they meet flood control *)

Module Flooding.
Import Limiter.

(** Every call still to come fails with a flood-control error. *)
Definition always_floods (e : Entry) : Prop :=
  forall i, exists err, result (func e (calls e + i)) = Raises err
                        /\ is_flood_wait err = true.

(** No call still to come fails with a flood-control error. *)
Definition floods_no_more (e : Entry) : Prop :=
  forall i err, result (func e (calls e + i)) = Raises err ->
                is_flood_wait err = false.

(** The call the task is about to make fails with a flood-control
    error. *)
Definition floods_now (e : Entry) : bool :=
  match result (func e (calls e)) with
  | Raises err => is_flood_wait err
  | Returns _ => false
  end.

(** The times of a log are in ascending order. *)
Definition ascending (log : list (Z * nat)) : Prop :=
  forall i j a b, i <= j -> log !! i = Some a -> log !! j = Some b ->
                  (fst a <= fst b)%Z.

Definition task_that_always_floods (n : nat) : attempt :=
  {| result := Raises flood_error; elapsed := 0 |}.

Definition task_that_succeeds (n : nat) : attempt :=
  {| result := Returns (Py.VStr "ok"); elapsed := 1 |}.

(** A task that fails once and a task that succeeds behind it. *)
Definition two_tasks : GlobalRateLimiter Z :=
  fst (enqueue task_that_succeeds (fst (enqueue task_that_fails_once idle))).

End Flooding.

(** ** [messaging/handler.py]: one event of a turn *)

Module Turn.
Import Py.

(** What the loop body of [_process_task] can raise. *)
Inductive error : Type :=
| KeyError
| TypeErr
| AttributeErr.

Inductive res (A : Type) : Type :=
| Ok (a : A)
| Err (e : error).
Arguments Ok {A} a.
Arguments Err {A} e.

Definition and_then {A B} (m : res A) (k : A -> res B) : res B :=
  match m with
  | Ok a => k a
  | Err e => Err e
  end.

Notation "'try!' x ':=' m 'in' k" := (and_then m (fun x => k))
  (at level 10, x name, m at level 100, k at level 200).

Definition of_outcome {A} (o : outcome A) : res A :=
  match o with
  | Return a => Ok a
  | Raise AttributeError => Err AttributeErr
  | Raise TypeError => Err TypeErr
  end.

(** [d[k]]. *)
Definition item (d : dict) (k : string) : res value :=
  match lookup_key k d with
  | Some v => Ok v
  | None => Err KeyError
  end.

(** [[t.get("name") for t in tools]]: a list is walked item by item; a
    string or a dict would be walked by characters or keys, which have
    no [get]; anything else cannot be walked. *)
Fixpoint names_in (tools : list value) : res (list value) :=
  match tools with
  | [] => Ok []
  | VDict td :: rest =>
      try! ns := names_in rest in Ok (get td "name" :: ns)
  | _ :: _ => Err AttributeErr
  end.

Definition names_of (tools : value) : res (list value) :=
  match tools with
  | VList l => names_in l
  | VStr s => if String.eqb s "" then Ok [] else Err AttributeErr
  | VDict d => match d with [] => Ok [] | _ => Err AttributeErr end
  | _ => Err TypeErr
  end.

(** The display buffer of a turn: [(kind, content)] pairs. *)
Definition parts : Type := list (string * value).

(** A call of [update_ui]: the status line and the [force] flag. *)
Definition ui_update : Type := (string * bool)%type.

Section Fold.

(** The operator [+] on two objects. *)
Variable add : value -> value -> res value.

(** The [if]/[elif] chain on a parsed chunk: the display buffer after
    it and the UI update asked for, if any.  [parsed["type"]] is read
    by each test of the chain; it raises on the first or never. *)
Definition fold_parsed (parsed : dict) (message_parts : parts)
  : res (parts * option ui_update) :=
  try! ty := item parsed "type" in
  if eq_str ty "thinking" then
    try! text := item parsed "text" in
    Ok ((message_parts ++ [("thinking", text)])%list,
        Some ("🧠 **Claude is thinking...**", false))
  else if eq_str ty "content" then
    if truthy (get parsed "text") then
      try! text := item parsed "text" in
      match last message_parts with
      | Some (kind, content) =>
          if String.eqb kind "content" then
            try! merged := add content text in
            Ok ((removelast message_parts ++ [("content", merged)])%list,
                Some ("🧠 **Claude is working...**", false))
          else
            Ok ((message_parts ++ [("content", text)])%list,
                Some ("🧠 **Claude is working...**", false))
      | None =>
          Ok ((message_parts ++ [("content", text)])%list,
              Some ("🧠 **Claude is working...**", false))
      end
    else Ok (message_parts, None)
  else if eq_str ty "tool_start" then
    try! tools := item parsed "tools" in
    try! names := names_of tools in
    try! joined := of_outcome (join ", " names) in
    Ok ((message_parts ++ [("tool", VStr joined)])%list,
        Some ("⏳ **Executing tools...**", false))
  else if eq_str ty "complete" then
    Ok (match message_parts with
        | [] => [("content", VStr "Done.")]
        | _ => message_parts
        end,
        Some ("✅ **Complete**", true))
  else if eq_str ty "error" then
    Ok ((message_parts
         ++ [("error", get_default parsed "message" (VStr "Unknown error"))])%list,
        Some ("❌ **Error**", true))
  else Ok (message_parts, None).

(** The builtin [str], as [parse_event] uses it. *)
Variable py_str : value -> string.

(** The body of the [async for] loop for one event, as far as the
    display buffer and the UI go: events that are no dicts and
    [session_info] events are passed over, the others are parsed and
    folded in. *)
Definition process_event (event_data : value) (message_parts : parts)
  : res (parts * option ui_update) :=
  match event_data with
  | VDict ev =>
      if eq_str (get ev "type") "session_info" then Ok (message_parts, None)
      else
        try! parsed := of_outcome (CLIParser.parse_event py_str event_data) in
        match parsed with
        | Some (VDict p) =>
            match p with
            | [] => Ok (message_parts, None)
            | _ => fold_parsed p message_parts
            end
        | Some v => if truthy v then Err TypeErr else Ok (message_parts, None)
        | None => Ok (message_parts, None)
        end
  | _ => Ok (message_parts, None)
  end.

(** The display buffer after a run of parsed chunks. *)
Fixpoint fold_chunks (chunks : list dict) (message_parts : parts) : res parts :=
  match chunks with
  | [] => Ok message_parts
  | parsed :: rest =>
      try! r := fold_parsed parsed message_parts in
      fold_chunks rest (fst r)
  end.

End Fold.

(** [+] on strings, and a [TypeError] elsewhere: an instance of the
    operator that agrees with Python on strings. *)
Definition add_strings (a b : value) : res value :=
  match a, b with
  | VStr x, VStr y => Ok (VStr (x ++ y))
  | _, _ => Err TypeErr
  end.

(** A content chunk with the text [t]. *)
Definition text_chunk (t : string) : dict :=
  [("type", VStr "content"); ("text", VStr t)].

Definition ends_in_content (message_parts : parts) : bool :=
  match last message_parts with
  | Some (kind, _) => String.eqb kind "content"
  | None => false
  end.

(** [t.get("name")] for a tool-use item. *)
Definition tool_name (t : value) : value :=
  match t with
  | VDict td => get td "name"
  | _ => VNone
  end.

Definition is_string (v : value) : bool :=
  match v with VStr _ => true | _ => false end.

Definition ev_nameless_tool : dict :=
  [("type", VStr "assistant");
   ("message", VDict [("content", VList [VDict [("type", VStr "tool_use")]])])].

End Turn.

(* ================================================================= *)
(** * Properties *)

(** ** The event classifier *)

Module CLIParserFacts.
Import Py CLIParser.

Lemma scan_item_fold (content : list value) (p th tc : list value) :
  fold_left scan_item content (p, th, tc)
  = ((p ++ text_values content)%list,
     (th ++ thinking_values content)%list,
     (tc ++ tool_uses content)%list).
Proof.
  revert p th tc.
  induction content as [|c content IH]; intros p th tc; simpl.
  - unfold text_values, thinking_values, tool_uses; simpl.
    by rewrite !app_nil_r.
  - unfold text_values, thinking_values, tool_uses in *. simpl.
    destruct c as [| | | | |l|cd]; simpl; try apply IH.
    destruct (eq_str (get cd "type") "text") eqn:Et; simpl.
    { assert (eq_str (get cd "type") "thinking" = false
              /\ eq_str (get cd "type") "tool_use" = false) as [-> ->].
      { destruct (get cd "type"); simpl in *; try done.
        apply String.eqb_eq in Et as ->. done. }
      rewrite IH. simpl. by rewrite <- app_assoc. }
    destruct (eq_str (get cd "type") "thinking") eqn:Eth; simpl.
    { assert (eq_str (get cd "type") "tool_use" = false) as ->.
      { destruct (get cd "type"); simpl in *; try done.
        apply String.eqb_eq in Eth as ->. done. }
      rewrite IH. simpl. by rewrite <- app_assoc. }
    destruct (eq_str (get cd "type") "tool_use") eqn:Etu; simpl.
    { rewrite IH. simpl. by rewrite <- app_assoc. }
    apply IH.
Qed.

Lemma scan_content_spec (content : list value) :
  scan_content content
  = (text_values content, thinking_values content, tool_uses content).
Proof. unfold scan_content. by rewrite scan_item_fold. Qed.

Lemma subagents_of_spec (tools : list value) :
  Forall input_is_dict (List.filter names_task tools) ->
  subagents_of tools = Return (map description_of (List.filter names_task tools)).
Proof.
  induction tools as [|t tools IH]; simpl; [done|].
  destruct (names_task t) eqn:Ht; simpl.
  - intros Hall. inversion Hall as [|? ? (td & inp & -> & Hinp) Hrest]; subst.
    rewrite (IH Hrest). simpl. rewrite Hinp. simpl. done.
  - intros Hall. by apply IH.
Qed.

Lemma join_strings (sep : string) (l : list string) :
  join sep (map VStr l) = Return (String.concat sep l).
Proof.
  induction l as [|s l IH]; simpl; [done|].
  destruct l as [|s' l]; simpl in *; [done|].
  by rewrite IH.
Qed.

Lemma full_message_resolve (ev m : dict) :
  full_message ev m -> resolve_message ev = VDict m.
Proof.
  intros [Ht Hm Hne | rd Ht Hr Hm Hne | Ht Hr Hm Hne];
    unfold resolve_message; rewrite Ht; simpl.
  - done.
  - rewrite Hr, Hm. simpl. by destruct m.
  - destruct (get ev "result") as [| | | | | |rd] eqn:Er; simpl; try done.
    by rewrite (Hr rd eq_refl).
Qed.

Lemma full_message_type (ev m : dict) :
  full_message ev m ->
  get ev "type" = VStr "assistant" \/ get ev "type" = VStr "result".
Proof. intros [Ht _ _ | rd Ht _ _ _ | Ht _ _ _]; auto. Qed.

Lemma parse_rest_full_message (py_str : value -> string) (ev : dict) :
  get ev "type" = VStr "assistant" \/ get ev "type" = VStr "result" ->
  parse_rest py_str ev = Return None.
Proof. intros [Ht | Ht]; unfold parse_rest; by rewrite Ht. Qed.

Lemma parse_event_content (py_str : value -> string) (ev m : dict)
    (content : list value) :
  full_message ev m ->
  get_default m "content" (VList []) = VList content ->
  parse_event py_str (VDict ev)
  = (let! r1 := parse_content content in
     match r1 with
     | Some chunk => Return (Some chunk)
     | None => Return None
     end).
Proof.
  intros Hfm Hc. unfold parse_event.
  rewrite (full_message_resolve _ _ Hfm), Hc.
  assert (truthy (VDict m) = true) as ->.
  { destruct Hfm as [_ _ Hne | rd _ _ _ Hne | _ _ _ Hne]; by destruct m. }
  destruct (parse_content content) as [[chunk|]|e]; simpl; try done.
  apply parse_rest_full_message. by eapply full_message_type.
Qed.

(** C6, as the code has it.  A full message-like event is decomposed
    by its content items.  When a tool-use item names the [Task] tool
    (the input of each such item being a dict, or absent) the chunk is
    [subagent_start] with the descriptions of the [Task] items; when
    there are tool-use items and none names [Task] it is [tool_start]
    with all of them; when there is no tool-use item (the payloads of
    the thinking and text items being strings) it is one [content]
    chunk carrying the thinking joined by newlines when there is a
    thinking item and the text concatenated when there is a text item,
    whether these strings are empty or not, and no chunk at all when
    there is neither a thinking item nor a text item. *)
Theorem parse_event_full_message (py_str : value -> string) (ev m : dict)
    (content : list value) :
  full_message ev m ->
  get_default m "content" (VList []) = VList content ->
  let tools := tool_uses content in
  let tasks := List.filter names_task tools in
  (tasks <> [] -> Forall input_is_dict tasks ->
   parse_event py_str (VDict ev)
   = Return (Some (VDict [("type", VStr "subagent_start");
                          ("tasks", VList (map description_of tasks))])))
  /\ (tools <> [] -> tasks = [] ->
      parse_event py_str (VDict ev)
      = Return (Some (VDict [("type", VStr "tool_start");
                             ("tools", VList tools)])))
  /\ (tools = [] ->
      forall ths txs : list string,
        thinking_values content = map VStr ths ->
        text_values content = map VStr txs ->
        parse_event py_str (VDict ev)
        = Return (match ths, txs with
                  | [], [] => None
                  | _, _ => Some (content_chunk ths txs)
                  end)).
Proof.
  intros Hfm Hc tools tasks.
  rewrite (parse_event_content py_str ev m content Hfm Hc).
  unfold parse_content. rewrite scan_content_spec. fold tools.
  split; [|split].
  - intros Hne Hall.
    destruct tools as [|t tools'] eqn:Etools.
    { by destruct Hne. }
    rewrite (subagents_of_spec (t :: tools') Hall). fold tasks. simpl.
    destruct tasks as [|d ds]; [by destruct Hne|]. done.
  - intros Hne Hnone.
    destruct tools as [|t tools'] eqn:Etools; [by destruct Hne|].
    rewrite subagents_of_spec; fold tasks; rewrite Hnone; [done|constructor].
  - intros Hnil ths txs Hth Htx. rewrite Hnil, Hth, Htx.
    destruct ths as [|th ths].
    + simpl. destruct txs as [|tx txs]; [done|].
      change (VStr tx :: map VStr txs) with (map VStr (tx :: txs)).
      rewrite join_strings. done.
    + change (VStr th :: map VStr ths) with (map VStr (th :: ths)).
      rewrite join_strings. simpl bind.
      destruct txs as [|tx txs]; [done|].
      change (VStr tx :: map VStr txs) with (map VStr (tx :: txs)).
      rewrite join_strings. done.
Qed.

(** C7.  An exit event yields a [complete] chunk.  Its status is
    [success] exactly when the event has a [code] that equals zero, and
    [failed] otherwise, in particular when [code] is absent. *)
Theorem parse_event_exit (py_str : value -> string) (ev : dict) :
  get ev "type" = VStr "exit" ->
  exists status : string,
    parse_event py_str (VDict ev)
    = Return (Some (VDict [("type", VStr "complete"); ("status", VStr status)]))
    /\ (status = "success" \/ status = "failed")
    /\ (status = "success" <->
        exists code, lookup_key "code" ev = Some code /\ eq_zero code = true)
    /\ (forall z : Z, lookup_key "code" ev = Some (VInt z) ->
        (status = "success" <-> z = 0%Z))
    /\ (lookup_key "code" ev = None -> status = "failed").
Proof.
  intros Ht.
  exists (if eq_zero (get ev "code") then "success" else "failed").
  split.
  { unfold parse_event, resolve_message, parse_rest. rewrite Ht. done. }
  unfold get. split; [|split; [|split]].
  - destruct (eq_zero _); auto.
  - destruct (lookup_key "code" ev) as [code|] eqn:Hc.
    + destruct (eq_zero code) eqn:Hz.
      * split; [intros _; by exists code|done].
      * split; [done|]. intros (c & [= <-] & Hc'). congruence.
    + simpl. split; [done|]. by intros (c & ? & _).
  - intros z ->. simpl. destruct (Z.eqb_spec z 0); split; try done.
  - by intros ->.
Qed.

Lemma parse_event_full_message_witness :
  parse_event (fun _ => "") (VDict ev_two_tasks)
  = Return (Some (VDict [("type", VStr "subagent_start");
                         ("tasks", VList [VStr "explore the repo";
                                          VStr "Subagent"])]))
  /\ parse_event (fun _ => "") (VDict ev_tools)
     = Return (Some (VDict [("type", VStr "tool_start");
                            ("tools", VList (tool_uses content_tools))]))
  /\ parse_event (fun _ => "") (VDict ev_prose)
     = Return (Some (VDict [("thinking", VStr (String.concat (String "010" "")
                                                 ["plan"; "check"]));
                            ("text", VStr "Hello, world");
                            ("type", VStr "content")])).
Proof.
  split; [|split].
  - refine (proj1 (parse_event_full_message (fun _ => "") ev_two_tasks
                     [("content", VList content_two_tasks)] content_two_tasks
                     _ eq_refl) _ _).
    + apply fm_assistant; [reflexivity|reflexivity|discriminate].
    + discriminate.
    + repeat constructor.
      * exists [("type", VStr "tool_use"); ("name", VStr "Task");
                ("input", VDict [("description", VStr "explore the repo")])],
               [("description", VStr "explore the repo")].
        split; reflexivity.
      * exists [("type", VStr "tool_use"); ("name", VStr "Task")], [].
        split; reflexivity.
  - refine (proj1 (proj2 (parse_event_full_message (fun _ => "") ev_tools
                     [("content", VList content_tools)] content_tools
                     _ eq_refl)) _ _).
    + apply (fm_result_wrapped _ _
               [("message", VDict [("content", VList content_tools)])]);
        [reflexivity|reflexivity|reflexivity|discriminate].
    + discriminate.
    + reflexivity.
  - refine (proj2 (proj2 (parse_event_full_message (fun _ => "") ev_prose
                     [("content", VList content_prose)] content_prose
                     _ eq_refl)) eq_refl ["plan"; "check"] ["Hello, "; "world"]
                     eq_refl eq_refl).
    apply fm_result_plain;
      [reflexivity|discriminate|reflexivity|discriminate].
Defined.

(** C6, as stated: a message whose one item is a text item with an
    empty text yields a [content] chunk, though neither thinking nor
    text is non-empty. *)
Lemma parse_event_empty_text_chunk :
  parse_event (fun _ => "")
    (VDict [("type", VStr "assistant");
            ("message",
             VDict [("content",
                     VList [VDict [("type", VStr "text");
                                   ("text", VStr "")]])])])
  = Return (Some (VDict [("text", VStr ""); ("type", VStr "content")])).
Proof. reflexivity. Qed.

Lemma parse_event_exit_witness :
  exists status : string,
    parse_event (fun _ => "") (VDict ev_exit_ok)
    = Return (Some (VDict [("type", VStr "complete"); ("status", VStr status)]))
    /\ (status = "success" \/ status = "failed")
    /\ (status = "success" <->
        exists code, lookup_key "code" ev_exit_ok = Some code
                     /\ eq_zero code = true)
    /\ (forall z : Z, lookup_key "code" ev_exit_ok = Some (VInt z) ->
        (status = "success" <-> z = 0%Z))
    /\ (lookup_key "code" ev_exit_ok = None -> status = "failed").
Proof. apply (parse_event_exit (fun _ => "") ev_exit_ok). reflexivity. Defined.

(** C10.  Events on which [parse_event] raises: a [Task] tool-use item
    or block whose [input] is not a dict has no [get], and a text or
    thinking item whose payload is not a string cannot be joined. *)
Theorem parse_event_raises :
  parse_event (fun _ => "")
    (VDict [("type", VStr "assistant");
            ("message",
             VDict [("content",
                     VList [VDict [("type", VStr "tool_use");
                                   ("name", VStr "Task");
                                   ("input", VNone)]])])])
  = Raise AttributeError
  /\ parse_event (fun _ => "")
       (VDict [("type", VStr "content_block_start");
               ("content_block",
                VDict [("type", VStr "tool_use");
                       ("name", VStr "Task");
                       ("input", VStr "run the tests")])])
     = Raise AttributeError
  /\ parse_event (fun _ => "")
       (VDict [("type", VStr "assistant");
               ("message",
                VDict [("content",
                        VList [VDict [("type", VStr "text");
                                      ("text", VNone)]])])])
     = Raise TypeError.
Proof. repeat split; reflexivity. Qed.

(** Events that match no rule yield no chunk. *)
Lemma parse_event_not_dict (py_str : value -> string) (event : value) :
  isinstance_dict event = false -> parse_event py_str event = Return None.
Proof. by destruct event. Qed.

Lemma parse_event_unrecognized (py_str : value -> string) (ev : dict) :
  (forall ty, In ty ["assistant"; "result"; "content_block_delta";
                     "content_block_start"; "error"; "exit"] ->
              eq_str (get ev "type") ty = false) ->
  parse_event py_str (VDict ev) = Return None.
Proof.
  intros H. unfold parse_event, resolve_message, parse_rest.
  rewrite !H by (simpl; tauto). done.
Qed.

(** The raising inputs are the only ones: when every [Task] item and
    block carries a dict (or no) [input] and every text and thinking
    payload is a string, [parse_event] returns. *)
Lemma parse_event_returns (py_str : value -> string) (ev : dict) :
  (forall m content,
      resolve_message ev = VDict m ->
      get_default m "content" (VList []) = VList content ->
      Forall input_is_dict (List.filter names_task (tool_uses content))
      /\ (exists ths, thinking_values content = map VStr ths)
      /\ (exists txs, text_values content = map VStr txs)) ->
  (forall block,
      get_default ev "content_block" (VDict []) = VDict block ->
      isinstance_dict (get_default block "input" (VDict [])) = true) ->
  exists r, parse_event py_str (VDict ev) = Return r.
Proof.
  intros Hmsg Hblock.
  assert (exists r, parse_rest py_str ev = Return r) as [r0 Hrest].
  { unfold parse_rest.
    destruct (get ev "type") as [| | | |ty| |]; simpl; eauto.
    destruct (String.eqb_spec ty "content_block_delta") as [->|_]; simpl.
    { destruct (get_default ev "delta" (VDict [])) as [| | | | | |delta];
        simpl; eauto.
      destruct (eq_str (get delta "type") "text_delta"); simpl; eauto.
      destruct (eq_str (get delta "type") "thinking_delta"); simpl; eauto. }
    destruct (String.eqb_spec ty "content_block_start") as [->|_]; simpl.
    { destruct (get_default ev "content_block" (VDict []))
        as [| | | | | |block] eqn:Eb; simpl; eauto.
      specialize (Hblock block eq_refl).
      destruct (eq_str (get block "type") "tool_use"); simpl; eauto.
      destruct (eq_str (get block "name") "Task"); simpl; eauto.
      destruct (get_default block "input" (VDict [])); try done. simpl. eauto. }
    destruct (String.eqb ty "error"); eauto.
    destruct (String.eqb ty "exit"); eauto. }
  unfold parse_event.
  destruct (resolve_message ev) as [| | | | | |m] eqn:Em; simpl; eauto.
  destruct m as [|kv m']; simpl; eauto.
  destruct (get_default (kv :: m') "content" (VList [])) as [| | | | |content|] eqn:Ec;
    simpl; eauto.
  destruct (Hmsg _ _ eq_refl Ec) as (Hall & [ths Hth] & [txs Htx]).
  unfold parse_content. rewrite scan_content_spec.
  destruct (tool_uses content) as [|t tools] eqn:Et.
  - rewrite Hth, Htx, !join_strings.
    destruct ths as [|th ths], txs as [|tx txs]; simpl; eauto.
  - rewrite (subagents_of_spec _ Hall). simpl bind.
    destruct (map description_of _); simpl; eauto.
Qed.

End CLIParserFacts.

(** ** The session queue manager *)

Module QueueFacts.
Import Queue Tracking.
Local Open Scope list_scope.

Section Dict.
Context {V : Type}.
Implicit Types (d : list (string * V)) (k : string) (v : V).

Lemma dict_lookup_set_eq d k v : dict_lookup k (dict_set k v d) = Some v.
Proof.
  induction d as [|[k' v'] d IH]; simpl.
  - by rewrite String.eqb_refl.
  - destruct (String.eqb_spec k k') as [->|Hne]; simpl.
    + by rewrite String.eqb_refl.
    + destruct (String.eqb_spec k k'); [done|apply IH].
Qed.

Lemma dict_lookup_set_ne d k k' v :
  k <> k' -> dict_lookup k' (dict_set k v d) = dict_lookup k' d.
Proof.
  intros Hne. induction d as [|[k0 v0] d IH]; simpl.
  - destruct (String.eqb_spec k' k); [congruence|done].
  - destruct (String.eqb_spec k k0) as [->|Hk]; simpl.
    + destruct (String.eqb_spec k' k0); [congruence|done].
    + destruct (String.eqb_spec k' k0); [done|apply IH].
Qed.

Lemma dict_lookup_set d k k' v :
  dict_lookup k' (dict_set k v d)
  = if String.eqb k k' then Some v else dict_lookup k' d.
Proof.
  destruct (String.eqb_spec k k') as [->|Hne].
  - apply dict_lookup_set_eq.
  - by apply dict_lookup_set_ne.
Qed.

Lemma keys_set_present d k v v0 :
  dict_lookup k d = Some v0 -> keys (dict_set k v d) = keys d.
Proof.
  unfold keys. induction d as [|[k' v'] d IH]; simpl; [done|].
  destruct (String.eqb_spec k k') as [->|Hne]; simpl; [done|].
  intros H. by rewrite IH.
Qed.

Lemma keys_set_absent d k v :
  dict_lookup k d = None -> keys (dict_set k v d) = (keys d ++ [k])%list.
Proof.
  unfold keys. induction d as [|[k' v'] d IH]; simpl; [done|].
  destruct (String.eqb_spec k k') as [->|Hne]; simpl; [done|].
  intros H. by rewrite IH.
Qed.

Lemma dict_lookup_keys d k :
  dict_lookup k d = None <-> ~ In k (keys d).
Proof.
  unfold keys. induction d as [|[k' v'] d IH]; simpl; [tauto|].
  destruct (String.eqb_spec k k') as [->|Hne].
  - split; [done|]. intros H. destruct H. by left.
  - rewrite IH. split; [|tauto]. intros H [E|Hin]; [congruence|tauto].
Qed.

End Dict.

Lemma init_single_flight : single_flight init.
Proof. split; simpl; intros; done. Qed.

(** *** What [enqueue] does to the state *)

Lemma enqueue_result (sid : string) (m : QueuedMessage) (st : State) :
  snd (enqueue sid m st) = is_session_busy sid st.
Proof.
  unfold enqueue, _get_or_create_queue, is_session_busy.
  destruct (dict_lookup sid (_queues st)) as [sq|]; simpl.
  - by destruct (is_processing sq).
  - done.
Qed.

Lemma enqueue_tasks (sid : string) (m : QueuedMessage) (st : State) :
  tasks (fst (enqueue sid m st))
  = if is_session_busy sid st then tasks st
    else (tasks st ++ [fresh_task sid m])%list.
Proof.
  unfold enqueue, _get_or_create_queue, is_session_busy.
  destruct (dict_lookup sid (_queues st)) as [sq|]; simpl.
  - by destruct (is_processing sq).
  - done.
Qed.

Lemma enqueue_lookup (sid : string) (m : QueuedMessage) (st : State)
    (sid' : string) :
  dict_lookup sid' (_queues (fst (enqueue sid m st)))
  = if String.eqb sid sid'
    then Some (if is_processing (session_or_new sid st)
               then set_queue (queue (session_or_new sid st) ++ [m])
                      (session_or_new sid st)
               else set_current_task (Some (length (tasks st)))
                      (set_is_processing true (session_or_new sid st)))
    else dict_lookup sid' (_queues st).
Proof.
  unfold enqueue, _get_or_create_queue, session_or_new.
  destruct (dict_lookup sid (_queues st)) as [sq|] eqn:Hsq; simpl.
  - destruct (is_processing sq); simpl; rewrite !dict_lookup_set;
      by destruct (String.eqb sid sid').
  - rewrite !dict_lookup_set. by destruct (String.eqb sid sid').
Qed.

Lemma is_session_busy_session_or_new (sid : string) (st : State) :
  is_processing (session_or_new sid st) = is_session_busy sid st.
Proof.
  unfold session_or_new, is_session_busy.
  by destruct (dict_lookup sid (_queues st)).
Qed.

Lemma enqueue_single_flight (sid : string) (m : QueuedMessage) (st : State) :
  single_flight st -> single_flight (fst (enqueue sid m st)).
Proof.
  intros [Hown Hbusy Hidle Hcan].
  pose proof (is_session_busy_session_or_new sid st) as Hb.
  split.
  - intros tid t. rewrite enqueue_tasks, enqueue_lookup.
    destruct (is_session_busy sid st) eqn:Eb.
    + intros Ht Hd. destruct (Hown _ _ Ht Hd) as (sq & Hsq & Hp & Hc).
      destruct (String.eqb_spec sid (t_session t)) as [->|Hne]; [|eauto].
      unfold session_or_new. rewrite Hsq, Hp. eauto.
    + intros [[Hlt Ht]|[-> <-]]%lookup_snoc_Some Hd.
      * destruct (Hown _ _ Ht Hd) as (sq & Hsq & Hp & Hc).
        destruct (String.eqb_spec sid (t_session t)) as [->|Hne]; [|eauto].
        unfold is_session_busy in Eb. rewrite Hsq in Eb. congruence.
      * simpl. rewrite String.eqb_refl, Hb. eauto.
  - intros sid' sq'. rewrite enqueue_tasks, enqueue_lookup, Hb.
    destruct (String.eqb_spec sid sid') as [<-|Hne].
    + destruct (is_session_busy sid st) eqn:Eb.
      * intros [= <-] Hp. simpl in *.
        unfold session_or_new, is_session_busy in *.
        destruct (dict_lookup sid (_queues st)) as [sq|] eqn:Hsq; [|done].
        eauto.
      * intros [= <-] _. exists (length (tasks st)), (fresh_task sid m).
        split; [done|]. split; [|done].
        by rewrite lookup_app_r, Nat.sub_diag.
    + intros Hsq Hp. destruct (Hbusy _ _ Hsq Hp) as (tid & t & Hc & Ht & Hs & Hd).
      exists tid, t. split; [done|]. split; [|done].
      destruct (is_session_busy sid st); [done|].
      rewrite lookup_app_l; [done|]. by eapply lookup_lt_Some.
  - intros sid' sq'. rewrite enqueue_lookup, Hb.
    destruct (String.eqb_spec sid sid') as [<-|Hne]; [|eauto].
    destruct (is_session_busy sid st) eqn:Eb; intros [= <-]; simpl; [|done].
    by rewrite Hb.
  - intros tid t. rewrite enqueue_tasks.
    destruct (is_session_busy sid st); [eauto|].
    intros [[_ Ht]|[_ <-]]%lookup_snoc_Some; eauto.
Qed.

(** *** What resuming a task does to the state *)

Lemma run_task_start (tid : nat) (t : Task) (sq : SessionQueue) (st : State) :
  tasks st !! tid = Some t -> t_phase t = Pending -> t_cancel t = false ->
  dict_lookup (t_session t) (_queues st) = Some sq ->
  run_task tid st
  = {| _queues := dict_set (t_session t)
                    (set_current_message (Some (t_message t)) sq) (_queues st);
       tasks := <[tid := set_phase Running t]> (tasks st) |}.
Proof.
  intros Ht Hp Hc Hsq. unfold run_task, _process_message_start.
  by rewrite Ht, Hp, Hc, Hsq.
Qed.

Lemma run_task_finish_idle (tid : nat) (t : Task) (sq : SessionQueue)
    (st : State) :
  tasks st !! tid = Some t -> t_phase t = Running ->
  dict_lookup (t_session t) (_queues st) = Some sq -> queue sq = [] ->
  run_task tid st
  = {| _queues := dict_set (t_session t)
                    (set_is_processing false (set_current_message None sq))
                    (dict_set (t_session t) (set_current_message None sq)
                       (_queues st));
       tasks := <[tid := set_cancel false (set_phase Done t)]> (tasks st) |}.
Proof.
  intros Ht Hp Hsq Hq. unfold run_task, _process_message_finish, _process_next.
  rewrite Ht, Hp, Hsq. simpl. rewrite dict_lookup_set_eq. simpl.
  by rewrite Hq.
Qed.

Lemma run_task_finish_next (tid : nat) (t : Task) (sq : SessionQueue)
    (next_msg : QueuedMessage) (rest : list QueuedMessage) (st : State) :
  tasks st !! tid = Some t -> t_phase t = Running ->
  dict_lookup (t_session t) (_queues st) = Some sq ->
  queue sq = next_msg :: rest ->
  run_task tid st
  = {| _queues :=
         dict_set (t_session t)
           (set_current_task (Some (length (tasks st)))
              (set_queue rest (set_current_message None sq)))
           (dict_set (t_session t)
              (set_queue rest (set_current_message None sq))
              (dict_set (t_session t) (set_current_message None sq)
                 (_queues st)));
       tasks := <[tid := set_cancel false (set_phase Done t)]>
                  (tasks st ++ [fresh_task (t_session t) next_msg]) |}.
Proof.
  intros Ht Hp Hsq Hq. unfold run_task, _process_message_finish, _process_next.
  rewrite Ht, Hp, Hsq. simpl. rewrite dict_lookup_set_eq. simpl.
  by rewrite Hq.
Qed.

Ltac dict_cases k k' :=
  rewrite ?dict_lookup_set;
  destruct (String.eqb_spec k k') as [?|?]; simplify_eq/=.

Lemma run_task_single_flight (tid : nat) (st : State) :
  single_flight st -> single_flight (run_task tid st).
Proof.
  intros Hsf. pose proof Hsf as [Hown Hbusy Hidle Hcan].
  destruct (tasks st !! tid) as [t|] eqn:Ht;
    [|unfold run_task; by rewrite Ht].
  pose proof (lookup_lt_Some _ _ _ Ht) as Hlt.
  destruct (t_phase t) eqn:Hp.
  - (* first step of the task *)
    assert (done t = false) as Hd by (unfold done; by rewrite Hp).
    destruct (Hown _ _ Ht Hd) as (sq & Hsq & Hproc & Hcur).
    rewrite (run_task_start tid t sq st Ht Hp (Hcan _ _ Ht) Hsq).
    split; simpl.
    + intros tid0 t0 [(<- & <- & _)|(Hne & Ht0)]%list_lookup_insert_Some Hd0.
      * simpl. rewrite dict_lookup_set_eq. eauto.
      * destruct (Hown _ _ Ht0 Hd0) as (sq0 & Hsq0 & Hp0 & Hc0).
        dict_cases (t_session t) (t_session t0); eauto.
        exfalso. match goal with e : t_session t = _ |- _ => rewrite e in Hsq end.
        congruence.
    + intros sid' sq'. dict_cases (t_session t) sid'.
      * intros [= <-] _. exists tid, (set_phase Running t).
        by rewrite list_lookup_insert_eq.
      * intros Hsq' Hp'.
        destruct (Hbusy _ _ Hsq' Hp') as (tid0 & t0 & ? & Ht0 & ? & ?).
        exists tid0, t0. rewrite list_lookup_insert_ne; [done|].
        intros ->. congruence.
    + intros sid' sq'. dict_cases (t_session t) sid'; [|eauto].
      intros [= <-]. simpl. congruence.
    + intros tid0 t0 [(<- & <- & _)|(Hne & Ht0)]%list_lookup_insert_Some;
        simpl; eauto.
  - (* the processor has finished *)
    assert (done t = false) as Hd by (unfold done; by rewrite Hp).
    destruct (Hown _ _ Ht Hd) as (sq & Hsq & Hproc & Hcur).
    assert (forall tid0 t0, tid0 <> tid -> tasks st !! tid0 = Some t0 ->
                            done t0 = false -> t_session t0 <> t_session t)
      as Hother.
    { intros tid0 t0 Hne Ht0 Hd0 Hs.
      destruct (Hown _ _ Ht0 Hd0) as (sq0 & Hsq0 & _ & Hc0). congruence. }
    destruct (queue sq) as [|next_msg rest] eqn:Hq.
    + rewrite (run_task_finish_idle tid t sq st Ht Hp Hsq Hq).
      split; simpl.
      * intros tid0 t0 [(<- & <- & _)|(Hne & Ht0)]%list_lookup_insert_Some Hd0;
          [done|].
        destruct (Hown _ _ Ht0 Hd0) as (sq0 & Hsq0 & Hp0 & Hc0).
        dict_cases (t_session t) (t_session t0); eauto.
        exfalso. eapply Hother; eauto.
      * intros sid' sq'. dict_cases (t_session t) sid'; [by intros [= <-]|].
        intros Hsq' Hp'.
        destruct (Hbusy _ _ Hsq' Hp') as (tid0 & t0 & ? & Ht0 & ? & ?).
        exists tid0, t0. rewrite list_lookup_insert_ne; [done|].
        intros ->. congruence.
      * intros sid' sq'. dict_cases (t_session t) sid'; [|eauto].
        by intros [= <-].
      * intros tid0 t0 [(<- & <- & _)|(Hne & Ht0)]%list_lookup_insert_Some;
          simpl; eauto.
    + rewrite (run_task_finish_next tid t sq next_msg rest st Ht Hp Hsq Hq).
      split; simpl.
      * intros tid0 t0 [(<- & <- & _)|(Hne & Ht0)]%list_lookup_insert_Some Hd0;
          [done|].
        apply lookup_snoc_Some in Ht0 as [[_ Ht0]|[-> <-]].
        -- destruct (Hown _ _ Ht0 Hd0) as (sq0 & Hsq0 & Hp0 & Hc0).
           dict_cases (t_session t) (t_session t0); eauto.
           exfalso. eapply Hother; eauto.
        -- simpl. rewrite dict_lookup_set_eq. eauto.
      * intros sid' sq'. dict_cases (t_session t) sid'.
        -- intros [= <-] _.
           exists (length (tasks st)), (fresh_task (t_session t) next_msg).
           split; [done|]. split; [|done].
           rewrite list_lookup_insert_ne by lia.
           by rewrite lookup_app_r, Nat.sub_diag.
        -- intros Hsq' Hp'.
           destruct (Hbusy _ _ Hsq' Hp') as (tid0 & t0 & ? & Ht0 & ? & ?).
           exists tid0, t0. rewrite list_lookup_insert_ne.
           ++ rewrite lookup_app_l; [done|]. by eapply lookup_lt_Some.
           ++ intros ->. congruence.
      * intros sid' sq'. dict_cases (t_session t) sid'; [|eauto].
        intros [= <-]. simpl. congruence.
      * intros tid0 t0 [(<- & <- & _)|(Hne & Ht0)]%list_lookup_insert_Some;
          simpl; [done|].
        apply lookup_snoc_Some in Ht0 as [[_ Ht0]|[_ <-]]; eauto.
  - unfold run_task. by rewrite Ht, Hp.
Qed.

(** *** First in, first out *)

Lemma started_insert (sid : string) (ts : list Task) (tid : nat) (t t' : Task) :
  ts !! tid = Some t ->
  t_session t' = t_session t -> t_message t' = t_message t ->
  map t_message (List.filter (fun t => String.eqb (t_session t) sid)
                   (<[tid := t']> ts))
  = map t_message (List.filter (fun t => String.eqb (t_session t) sid) ts).
Proof.
  intros Ht Hs Hm. revert tid Ht.
  induction ts as [|t0 ts IH]; intros [|tid] Ht; simpl in *; try done.
  - simplify_eq. rewrite Hs. destruct (String.eqb (t_session t) sid); simpl;
      by rewrite ?Hm.
  - destruct (String.eqb (t_session t0) sid); simpl; by rewrite (IH tid Ht).
Qed.

Lemma step_fifo (sid : string) (st : State) (a : action) :
  single_flight st -> is_cancel a = false ->
  started sid (step st a) ++ queued sid (step st a)
  = (started sid st ++ queued sid st) ++ enqueued sid [a].
Proof.
  intros Hsf Ha. pose proof Hsf as [Hown Hbusy Hidle Hcan].
  destruct a as [sid0 m|tid| |]; simpl in *; try done.
  - (* enqueue *)
    unfold queued at 1, started at 1.
    rewrite enqueue_lookup, enqueue_tasks, is_session_busy_session_or_new.
    unfold session_or_new, is_session_busy, queued, started.
    destruct (String.eqb_spec sid0 sid) as [->|Hne].
    + destruct (dict_lookup sid (_queues st)) as [sq|] eqn:Hsq; simpl.
      * destruct (is_processing sq) eqn:Hp; simpl.
        -- by rewrite !app_assoc.
        -- rewrite List.filter_app, map_app. simpl.
           rewrite String.eqb_refl. simpl.
           rewrite (Hidle _ _ Hsq Hp). by rewrite !app_nil_r.
      * rewrite List.filter_app, map_app. simpl.
        rewrite String.eqb_refl. simpl. by rewrite !app_nil_r.
    + rewrite app_nil_r.
      destruct (match dict_lookup sid0 (_queues st) with
                | Some sq => is_processing sq
                | None => false
                end); [done|].
      rewrite List.filter_app, map_app. simpl.
      destruct (String.eqb_spec sid0 sid); [done|]. by rewrite app_nil_r.
  - (* the event loop resumes a task *)
    rewrite app_nil_r.
    destruct (tasks st !! tid) as [t|] eqn:Ht;
      [|unfold run_task; by rewrite Ht].
    destruct (t_phase t) eqn:Hp; [| |unfold run_task; by rewrite Ht, Hp].
    + assert (done t = false) as Hd by (unfold done; by rewrite Hp).
      destruct (Hown _ _ Ht Hd) as (sq & Hsq & Hproc & Hcur).
      rewrite (run_task_start tid t sq st Ht Hp (Hcan _ _ Ht) Hsq).
      unfold started, queued. simpl.
      rewrite (started_insert sid _ _ t) by done.
      dict_cases (t_session t) sid; [|done]. by rewrite Hsq.
    + assert (done t = false) as Hd by (unfold done; by rewrite Hp).
      destruct (Hown _ _ Ht Hd) as (sq & Hsq & Hproc & Hcur).
      destruct (queue sq) as [|next_msg rest] eqn:Hq.
      * rewrite (run_task_finish_idle tid t sq st Ht Hp Hsq Hq).
        unfold started, queued. simpl.
        rewrite (started_insert sid _ _ t) by done.
        dict_cases (t_session t) sid; [|done]. by rewrite Hsq.
      * rewrite (run_task_finish_next tid t sq next_msg rest st Ht Hp Hsq Hq).
        unfold started, queued. simpl.
        rewrite (started_insert sid _ _ t);
          [|rewrite lookup_app_l; [done|by eapply lookup_lt_Some]|done|done].
        rewrite List.filter_app, map_app. simpl.
        dict_cases (t_session t) sid.
        -- rewrite Hsq, Hq. by rewrite <- app_assoc.
        -- by rewrite app_nil_r.
Qed.

Lemma step_single_flight (st : State) (a : action) :
  single_flight st -> is_cancel a = false -> single_flight (step st a).
Proof.
  intros Hsf Ha. destruct a; simpl in *; try done.
  - by apply enqueue_single_flight.
  - by apply run_task_single_flight.
Qed.

Lemma run_cancel_free (acts : list action) (st : State) :
  single_flight st ->
  forallb (fun a => negb (is_cancel a)) acts = true ->
  single_flight (run acts st)
  /\ forall sid,
      started sid (run acts st) ++ queued sid (run acts st)
      = (started sid st ++ queued sid st) ++ enqueued sid acts.
Proof.
  revert st. induction acts as [|a acts IH]; intros st Hsf Hall; simpl in *.
  - split; [done|]. intros sid. by rewrite app_nil_r.
  - apply andb_prop in Hall as [Ha Hall]. apply negb_true_iff in Ha.
    destruct (IH (step st a) (step_single_flight _ _ Hsf Ha) Hall) as [Hsf' Hfifo].
    split; [done|]. intros sid.
    rewrite Hfifo, (step_fifo sid st a Hsf Ha). simpl.
    by rewrite app_nil_r, <- !app_assoc.
Qed.

(** C1.  Single flight fails once a conversation is cancelled.  After
    [cancel_session] the conversation is marked free while its cancelled
    task is still unfinished; a message enqueued then starts a second
    task; when the cancelled task finishes it marks the conversation
    free under the running second task, and the next message starts a
    third task beside it. *)
Theorem cancel_breaks_single_flight :
  (let st := run (firstn 3 overlap_trace) init in
   is_session_busy "s" st = false
   /\ exists t, tasks st !! 0 = Some t /\ owns "s" t = true)
  /\ (let st := run overlap_trace init in
      is_session_busy "s" st = false
      /\ exists t, tasks st !! 1 = Some t /\ owns "s" t = true
                   /\ t_phase t = Running /\ t_cancel t = false)
  /\ (let st := run (overlap_trace
                       ++ [Enqueue "s" (sample_message "3"); RunTask 2]) init in
      exists t1 t2,
        tasks st !! 1 = Some t1 /\ tasks st !! 2 = Some t2
        /\ owns "s" t1 = true /\ owns "s" t2 = true
        /\ t_phase t1 = Running /\ t_phase t2 = Running
        /\ t_cancel t1 = false /\ t_cancel t2 = false).
Proof.
  split; [|split].
  - split; [reflexivity|]. eexists. split; reflexivity.
  - split; [reflexivity|]. eexists. repeat split; reflexivity.
  - do 2 eexists. repeat split; reflexivity.
Qed.

Lemma single_flight_one_owner (sid : string) (st : State) :
  single_flight st ->
  forall i j ti tj,
    tasks st !! i = Some ti -> tasks st !! j = Some tj ->
    owns sid ti = true -> owns sid tj = true -> i = j.
Proof.
  intros [Hown _ _ _] i j ti tj Hi Hj
    [Hsi Hdi%negb_true_iff]%andb_prop [Hsj Hdj%negb_true_iff]%andb_prop.
  apply String.eqb_eq in Hsi, Hsj.
  destruct (Hown _ _ Hi Hdi) as (sq & Hsq & _ & Hc).
  destruct (Hown _ _ Hj Hdj) as (sq' & Hsq' & _ & Hc').
  congruence.
Qed.

Lemma single_flight_busy_iff (sid : string) (st : State) :
  single_flight st ->
  is_session_busy sid st = true
  <-> exists tid t, tasks st !! tid = Some t /\ owns sid t = true.
Proof.
  intros [Hown Hbusy _ _]. unfold is_session_busy, owns. split.
  - destruct (dict_lookup sid (_queues st)) as [sq|] eqn:Hsq; [|done].
    intros Hp. destruct (Hbusy _ _ Hsq Hp) as (tid & t & _ & Ht & Hs & Hd).
    exists tid, t. rewrite Hs, Hd, String.eqb_refl. done.
  - intros (tid & t & Ht & [Hs Hd%negb_true_iff]%andb_prop).
    apply String.eqb_eq in Hs.
    destruct (Hown _ _ Ht Hd) as (sq & Hsq & Hp & _).
    by rewrite <- Hs, Hsq.
Qed.

(** C2.  [enqueue] decides on the [is_processing] flag, and after a
    cancellation the flag no longer tells whether processing is in
    flight.  At the end of [overlap_trace] the task of message 2 is
    inside the processor, not cancelled, yet the conversation is marked
    free: [enqueue] answers [false] for message 3, queues nothing and
    creates a task for it, and that task enters the processor while
    message 2 is still being processed. *)
Theorem enqueue_not_queued_behind_running_task :
  let st := run overlap_trace init in
  let m3 := sample_message "3" in
  tasks st !! 1 = Some {| t_session := "s"; t_message := sample_message "2";
                          t_phase := Running; t_cancel := false |}
  /\ in_flight_message "s" st = [sample_message "2"]
  /\ is_session_busy "s" st = false
  /\ snd (enqueue "s" m3 st) = false
  /\ queued "s" (fst (enqueue "s" m3 st)) = []
  /\ tasks (fst (enqueue "s" m3 st)) !! 2 = Some (fresh_task "s" m3)
  /\ (let st' := run_task 2 (fst (enqueue "s" m3 st)) in
      tasks st' !! 1 = Some {| t_session := "s"; t_message := sample_message "2";
                               t_phase := Running; t_cancel := false |}
      /\ tasks st' !! 2 = Some {| t_session := "s"; t_message := m3;
                                  t_phase := Running; t_cancel := false |}).
Proof. repeat split; reflexivity. Qed.

(** *** The current message follows the current task *)

Lemma init_tracked : tracked init.
Proof. intros sid sq H. done. Qed.

Lemma enqueue_tracked (sid : string) (m : QueuedMessage) (st : State) :
  single_flight st -> tracked st -> tracked (fst (enqueue sid m st)).
Proof.
  intros [Hown Hbusy Hidle Hcan] Htr sid' sq'.
  rewrite enqueue_lookup, enqueue_tasks, is_session_busy_session_or_new.
  destruct (String.eqb_spec sid sid') as [<-|Hne].
  - unfold session_or_new, is_session_busy.
    destruct (dict_lookup sid (_queues st)) as [sq|] eqn:Hsq.
    + specialize (Htr sid sq Hsq).
      destruct (is_processing sq) eqn:Hp; intros [= <-]; simpl; [done|].
      exists (fresh_task sid m). rewrite lookup_app_r, Nat.sub_diag by done.
      repeat split. simpl.
      destruct (current_task sq) as [tid0|]; [|done].
      destruct Htr as (t0 & Ht0 & Hs0 & Hm0). rewrite Hm0.
      destruct (t_phase t0) eqn:Hph; try done.
      destruct (Hown tid0 t0 Ht0) as (sq0 & Hsq0 & Hp0 & _).
      { unfold done. by rewrite Hph. }
      congruence.
    + intros [= <-]. simpl. exists (fresh_task sid m).
      by rewrite lookup_app_r, Nat.sub_diag.
  - intros Hsq'. specialize (Htr sid' sq' Hsq').
    destruct (current_task sq') as [tid0|]; [|done].
    destruct Htr as (t0 & Ht0 & Hs0 & Hm0). exists t0.
    split; [|done]. destruct (is_session_busy sid st); [done|].
    rewrite lookup_app_l; [done|]. by eapply lookup_lt_Some.
Qed.

Lemma run_task_tracked (tid : nat) (st : State) :
  single_flight st -> tracked st -> tracked (run_task tid st).
Proof.
  intros Hsf Htr. pose proof Hsf as [Hown Hbusy Hidle Hcan].
  destruct (tasks st !! tid) as [t|] eqn:Ht;
    [|unfold run_task; by rewrite Ht].
  pose proof (lookup_lt_Some _ _ _ Ht) as Hlt.
  assert (forall sid' sq' tid0 t0,
             dict_lookup sid' (_queues st) = Some sq' ->
             current_task sq' = Some tid0 -> tasks st !! tid0 = Some t0 ->
             t_session t <> sid' -> tid0 <> tid) as Hother.
  { intros sid' sq' tid0 t0 Hsq' Hc Ht0 Hne ->.
    specialize (Htr sid' sq' Hsq'). rewrite Hc in Htr.
    destruct Htr as (t1 & Ht1 & Hs1 & _). congruence. }
  destruct (t_phase t) eqn:Hp; [| |unfold run_task; by rewrite Ht, Hp].
  - assert (done t = false) as Hd by (unfold done; by rewrite Hp).
    destruct (Hown _ _ Ht Hd) as (sq & Hsq & Hproc & Hcur).
    rewrite (run_task_start tid t sq st Ht Hp (Hcan _ _ Ht) Hsq).
    intros sid' sq'. simpl. dict_cases (t_session t) sid'.
    + intros [= <-]. simpl. rewrite Hcur.
      exists (set_phase Running t). by rewrite list_lookup_insert_eq.
    + intros Hsq'. pose proof (Htr sid' sq' Hsq') as Htr'.
      destruct (current_task sq') as [tid0|] eqn:Hc; [|done].
      destruct Htr' as (t0 & Ht0 & Hs0 & Hm0). exists t0.
      rewrite list_lookup_insert_ne; [done|].
      intros E. by eapply Hother.
  - assert (done t = false) as Hd by (unfold done; by rewrite Hp).
    destruct (Hown _ _ Ht Hd) as (sq & Hsq & Hproc & Hcur).
    destruct (queue sq) as [|next_msg rest] eqn:Hq.
    + rewrite (run_task_finish_idle tid t sq st Ht Hp Hsq Hq).
      intros sid' sq'. simpl. dict_cases (t_session t) sid'.
      * intros [= <-]. simpl. rewrite Hcur.
        exists (set_cancel false (set_phase Done t)).
        by rewrite list_lookup_insert_eq.
      * intros Hsq'. pose proof (Htr sid' sq' Hsq') as Htr'.
        destruct (current_task sq') as [tid0|] eqn:Hc; [|done].
        destruct Htr' as (t0 & Ht0 & Hs0 & Hm0). exists t0.
        rewrite list_lookup_insert_ne; [done|].
        intros E. by eapply Hother.
    + rewrite (run_task_finish_next tid t sq next_msg rest st Ht Hp Hsq Hq).
      intros sid' sq'. simpl. dict_cases (t_session t) sid'.
      * intros [= <-]. simpl.
        exists (fresh_task (t_session t) next_msg).
        rewrite list_lookup_insert_ne by lia.
        by rewrite lookup_app_r, Nat.sub_diag.
      * intros Hsq'. pose proof (Htr sid' sq' Hsq') as Htr'.
        destruct (current_task sq') as [tid0|] eqn:Hc; [|done].
        destruct Htr' as (t0 & Ht0 & Hs0 & Hm0). exists t0.
        rewrite list_lookup_insert_ne.
        -- rewrite lookup_app_l; [done|]. by eapply lookup_lt_Some.
        -- intros E. by eapply Hother.
Qed.

Lemma run_tracked (acts : list action) (st : State) :
  single_flight st -> tracked st ->
  forallb (fun a => negb (is_cancel a)) acts = true ->
  single_flight (run acts st) /\ tracked (run acts st).
Proof.
  revert st. induction acts as [|a acts IH]; intros st Hsf Htr Hall; simpl in *;
    [done|].
  apply andb_prop in Hall as [Ha Hall]. apply negb_true_iff in Ha.
  apply IH; [by apply step_single_flight| |done].
  destruct a; simpl in *; try done.
  - by apply enqueue_tracked.
  - by apply run_task_tracked.
Qed.

(** *** Cancellation *)

Lemma cancel_session_lookup (sid sid' : string) (st : State) :
  dict_lookup sid' (_queues (fst (cancel_session sid st)))
  = if String.eqb sid sid'
    then match dict_lookup sid (_queues st) with
         | Some sq => Some (set_is_processing false (set_queue [] sq))
         | None => None
         end
    else dict_lookup sid' (_queues st).
Proof.
  unfold cancel_session.
  destruct (dict_lookup sid (_queues st)) as [sq|] eqn:Hsq; simpl.
  - assert (forall p : State * list QueuedMessage,
               _queues (fst p) = _queues st ->
               dict_lookup sid'
                 (_queues (fst (let '(st1, cancelled1) := p in
                    (store sid (set_is_processing false (set_queue [] sq)) st1,
                     cancelled1 ++ queue sq))))
               = if String.eqb sid sid'
                 then Some (set_is_processing false (set_queue [] sq))
                 else dict_lookup sid' (_queues st)) as Hp.
    { intros [st1 c1] E. simpl in *. by rewrite dict_lookup_set, E. }
    apply Hp. destruct (current_task sq) as [tid|]; [|done].
    destruct (negb (task_done tid st)); [|done].
    unfold cancel_task. by destruct (tasks st !! tid).
  - destruct (String.eqb_spec sid sid') as [<-|]; done.
Qed.

Lemma cancel_session_tasks (sid : string) (st : State) :
  tasks (fst (cancel_session sid st))
  = match dict_lookup sid (_queues st) with
    | Some sq =>
        match current_task sq with
        | Some tid => if task_done tid st then tasks st
                      else tasks (cancel_task tid st)
        | None => tasks st
        end
    | None => tasks st
    end.
Proof.
  unfold cancel_session.
  destruct (dict_lookup sid (_queues st)) as [sq|]; [|done].
  destruct (current_task sq) as [tid|]; [|done].
  by destruct (task_done tid st).
Qed.

Lemma cancel_session_result (sid : string) (st : State) :
  snd (cancel_session sid st) = reported_message sid st ++ queued sid st.
Proof.
  unfold cancel_session, reported_message, queued.
  destruct (dict_lookup sid (_queues st)) as [sq|]; [|done].
  destruct (current_task sq) as [tid|]; [|done].
  by destruct (task_done tid st).
Qed.

Lemma cancel_task_done (tid tid' : nat) (st : State) :
  task_done tid' (cancel_task tid st) = task_done tid' st.
Proof.
  unfold cancel_task, task_done.
  destruct (tasks st !! tid) as [t|] eqn:Ht; [|done]. simpl.
  destruct (decide (tid = tid')) as [<-|Hne].
  - rewrite list_lookup_insert_eq by (by eapply lookup_lt_Some).
    by rewrite Ht.
  - by rewrite list_lookup_insert_ne.
Qed.

Lemma cancel_session_task_done (sid : string) (tid : nat) (st : State) :
  task_done tid (fst (cancel_session sid st)) = task_done tid st.
Proof.
  unfold task_done at 1. rewrite cancel_session_tasks.
  destruct (dict_lookup sid (_queues st)) as [sq|]; [|done].
  destruct (current_task sq) as [tid0|]; [|done].
  destruct (task_done tid0 st); [done|].
  apply cancel_task_done.
Qed.

Lemma cancel_session_keys (sid : string) (st : State) :
  keys (_queues (fst (cancel_session sid st))) = keys (_queues st).
Proof.
  unfold cancel_session.
  destruct (dict_lookup sid (_queues st)) as [sq|] eqn:Hsq; [|done].
  assert (forall p : State * list QueuedMessage,
             _queues (fst p) = _queues st ->
             keys (_queues (fst (let '(st1, cancelled1) := p in
                (store sid (set_is_processing false (set_queue [] sq)) st1,
                 cancelled1 ++ queue sq))))
             = keys (_queues st)) as Hp.
  { intros [st1 c1] E. simpl in *. rewrite E. by eapply keys_set_present. }
  apply Hp. destruct (current_task sq) as [tid|]; [|done].
  destruct (negb (task_done tid st)); [|done].
  unfold cancel_task. by destruct (tasks st !! tid).
Qed.

Lemma cancel_session_frame (sid sid' : string) (st : State) :
  sid <> sid' ->
  reported_message sid' (fst (cancel_session sid st)) = reported_message sid' st
  /\ queued sid' (fst (cancel_session sid st)) = queued sid' st
  /\ is_session_busy sid' (fst (cancel_session sid st)) = is_session_busy sid' st.
Proof.
  intros Hne. unfold reported_message, queued, is_session_busy.
  rewrite cancel_session_lookup.
  destruct (String.eqb_spec sid sid'); [done|].
  repeat split.
  destruct (dict_lookup sid' (_queues st)) as [sq|]; [|done].
  destruct (current_task sq); [|done].
  by rewrite cancel_session_task_done.
Qed.

Lemma cancel_session_free (sid : string) (st : State) :
  queued sid (fst (cancel_session sid st)) = []
  /\ is_session_busy sid (fst (cancel_session sid st)) = false.
Proof.
  unfold queued, is_session_busy. rewrite cancel_session_lookup.
  rewrite String.eqb_refl. by destruct (dict_lookup sid (_queues st)).
Qed.

Lemma cancel_each_spec (l : list string) (st : State) :
  List.NoDup l ->
  snd (cancel_each l st)
  = flat_map (fun sid => reported_message sid st ++ queued sid st) l
  /\ (forall sid, In sid l ->
        queued sid (fst (cancel_each l st)) = []
        /\ is_session_busy sid (fst (cancel_each l st)) = false)
  /\ (forall sid, ~ In sid l ->
        queued sid (fst (cancel_each l st)) = queued sid st
        /\ is_session_busy sid (fst (cancel_each l st)) = is_session_busy sid st
        /\ reported_message sid (fst (cancel_each l st))
           = reported_message sid st).
Proof.
  revert st. induction l as [|sid l IH]; intros st Hnd; simpl.
  - repeat split; tauto.
  - apply List.NoDup_cons_iff in Hnd as [Hnin Hnd].
    pose proof (cancel_session_result sid st) as Hres.
    pose proof (cancel_session_free sid st) as Hfree.
    pose proof (fun sid' => cancel_session_frame sid sid' st) as Hframe.
    destruct (cancel_session sid st) as [st1 c1]; simpl in *.
    destruct (IH st1 Hnd) as (Hr & Hin & Hout).
    destruct (cancel_each l st1) as [st2 c2]; simpl in *.
    split; [|split].
    + rewrite Hres, Hr. f_equal.
      rewrite !flat_map_concat_map. f_equal. apply map_ext_in.
      intros sid' Hin'. destruct (Hframe sid') as (-> & -> & _); [|done].
      intros ->. done.
    + intros sid' [<-|Hin'].
      * destruct (Hout sid Hnin) as (-> & -> & _). done.
      * by apply Hin.
    + intros sid' Hnin'.
      destruct (Hout sid') as (-> & -> & ->); [tauto|].
      destruct (Hframe sid') as (-> & -> & ->); [tauto|done].
Qed.

Lemma cancel_each_keys (l : list string) (st : State) :
  keys (_queues (fst (cancel_each l st))) = keys (_queues st).
Proof.
  revert st. induction l as [|sid l IH]; intros st; simpl; [done|].
  pose proof (cancel_session_keys sid st) as Hk.
  destruct (cancel_session sid st) as [st1 c1]; simpl in *.
  specialize (IH st1). destruct (cancel_each l st1) as [st2 c2]; simpl in *.
  congruence.
Qed.

Lemma dict_set_nodup {V : Type} (k : string) (v : V) (d : list (string * V)) :
  List.NoDup (keys d) -> List.NoDup (keys (dict_set k v d)).
Proof.
  intros Hnd. destruct (dict_lookup k d) as [v0|] eqn:Hk.
  - by rewrite (keys_set_present d k v v0 Hk).
  - rewrite (keys_set_absent d k v Hk).
    apply dict_lookup_keys in Hk.
    apply List.NoDup_app; [done|repeat constructor; by intros []|].
    intros x Hx [<-|[]]. done.
Qed.

(** The keys of [_queues] stay distinct, as those of a [dict] are. *)
Lemma step_keys_nodup (st : State) (a : action) :
  List.NoDup (keys (_queues st)) -> List.NoDup (keys (_queues (step st a))).
Proof.
  intros Hnd. destruct a as [sid m|tid|sid|]; simpl.
  - unfold enqueue, _get_or_create_queue.
    destruct (dict_lookup sid (_queues st)) as [sq|]; simpl.
    + destruct (is_processing sq); simpl; repeat apply dict_set_nodup; done.
    + repeat apply dict_set_nodup; done.
  - unfold run_task. destruct (tasks st !! tid) as [t|]; [|done].
    destruct (t_phase t); [| |done].
    + destruct (t_cancel t); [done|]. unfold _process_message_start.
      destruct (dict_lookup (t_session t) (_queues st)); simpl;
        repeat apply dict_set_nodup; done.
    + unfold _process_message_finish, _process_next.
      destruct (dict_lookup (t_session t) (_queues st)) as [sq|] eqn:Hsq; simpl.
      * rewrite dict_lookup_set_eq. simpl.
        destruct (queue sq); simpl; repeat apply dict_set_nodup; done.
      * by rewrite Hsq.
  - by rewrite cancel_session_keys.
  - unfold cancel_all. by rewrite cancel_each_keys.
Qed.

Lemma run_keys_nodup (acts : list action) :
  List.NoDup (keys (_queues (run acts init))).
Proof.
  unfold run. induction acts as [|a acts IH] using rev_ind; simpl.
  - constructor.
  - rewrite fold_left_app. simpl. by apply step_keys_nodup.
Qed.

(** *** What a cancellation reports and whom it cancels *)

Lemma reported_in_flight (sid : string) (st : State) :
  tracked st -> reported_message sid st = in_flight_message sid st.
Proof.
  intros Htr. unfold reported_message, in_flight_message, task_done.
  destruct (dict_lookup sid (_queues st)) as [sq|] eqn:Hsq; [|done].
  specialize (Htr sid sq Hsq).
  destruct (current_task sq) as [tid|]; [|done].
  destruct Htr as (t & -> & _ & ->). unfold done.
  by destruct (t_phase t).
Qed.

Lemma cancel_session_task (sid : string) (st : State) (tid : nat) (t : Task) :
  single_flight st -> tracked st ->
  tasks st !! tid = Some t ->
  tasks (fst (cancel_session sid st)) !! tid
  = Some (if owns sid t then set_cancel true t else t).
Proof.
  intros [Hown _ _ _] Htr Ht. rewrite cancel_session_tasks. unfold owns.
  destruct (dict_lookup sid (_queues st)) as [sq|] eqn:Hsq.
  - specialize (Htr sid sq Hsq).
    destruct (current_task sq) as [tid0|] eqn:Hc.
    + destruct Htr as (t0 & Ht0 & Hs0 & _). unfold task_done. rewrite Ht0.
      destruct (decide (tid0 = tid)) as [->|Hne].
      * assert (t0 = t) as -> by congruence.
        rewrite Hs0, String.eqb_refl. simpl.
        destruct (done t) eqn:Hd; simpl; [done|].
        unfold cancel_task. rewrite Ht. simpl.
        apply list_lookup_insert_eq. by eapply lookup_lt_Some.
      * assert (String.eqb (t_session t) sid && negb (done t) = false) as ->.
        { destruct (String.eqb_spec (t_session t) sid) as [Hs|]; [|done].
          destruct (done t) eqn:Hd; [done|].
          destruct (Hown _ _ Ht Hd) as (sq' & Hsq' & _ & Hc').
          rewrite Hs in Hsq'. congruence. }
        destruct (done t0); [done|].
        unfold cancel_task. rewrite Ht0. simpl.
        by rewrite list_lookup_insert_ne.
    + assert (String.eqb (t_session t) sid && negb (done t) = false) as ->;
        [|done].
      destruct (String.eqb_spec (t_session t) sid) as [Hs|]; [|done].
      destruct (done t) eqn:Hd; [done|].
      destruct (Hown _ _ Ht Hd) as (sq' & Hsq' & _ & Hc').
      rewrite Hs in Hsq'. congruence.
  - assert (String.eqb (t_session t) sid && negb (done t) = false) as ->;
      [|done].
    destruct (String.eqb_spec (t_session t) sid) as [Hs|]; [|done].
    destruct (done t) eqn:Hd; [done|].
    destruct (Hown _ _ Ht Hd) as (sq' & Hsq' & _ & Hc').
    rewrite Hs in Hsq'. congruence.
Qed.

Lemma cancel_session_step (sid : string) (st : State) (tid : nat) (t' : Task) :
  tasks (fst (cancel_session sid st)) !! tid = Some t' ->
  exists t, tasks st !! tid = Some t /\ (t' = t \/ t' = set_cancel true t).
Proof.
  rewrite cancel_session_tasks.
  destruct (dict_lookup sid (_queues st)) as [sq|]; [|eauto].
  destruct (current_task sq) as [tid0|]; [|eauto].
  destruct (task_done tid0 st); [eauto|].
  unfold cancel_task. destruct (tasks st !! tid0) as [t0|] eqn:Ht0; [|eauto].
  simpl. intros [(<- & <- & _)|(Hne & Ht)]%list_lookup_insert_Some; eauto.
Qed.

Lemma cancel_session_owned (sid : string) (st : State) :
  owned st -> owned (fst (cancel_session sid st)).
Proof.
  intros Hown tid t' Ht' Hd Hc.
  destruct (cancel_session_step sid st tid t' Ht') as (t & Ht & [->| ->]);
    [|done].
  destruct (Hown tid t Ht Hd Hc) as (sq & Hsq & Hcur).
  rewrite cancel_session_lookup.
  destruct (String.eqb_spec sid (t_session t)) as [->|]; [|eauto].
  rewrite Hsq. eauto.
Qed.

Lemma cancel_session_cancels (sid : string) (st : State) (tid : nat) (t' : Task) :
  owned st ->
  tasks (fst (cancel_session sid st)) !! tid = Some t' ->
  done t' = false -> t_session t' = sid -> t_cancel t' = true.
Proof.
  intros Hown Ht' Hd Hs.
  destruct (cancel_session_step sid st tid t' Ht') as (t & Ht & [->| ->]);
    [|done].
  destruct (t_cancel t) eqn:Hc; [done|].
  destruct (Hown tid t Ht Hd Hc) as (sq & Hsq & Hcur).
  rewrite cancel_session_tasks, <- Hs, Hsq, Hcur in Ht'.
  unfold task_done in Ht'. rewrite Ht in Ht'. rewrite Hd in Ht'.
  unfold cancel_task in Ht'. rewrite Ht in Ht'. simpl in Ht'.
  rewrite list_lookup_insert_eq in Ht' by (by eapply lookup_lt_Some).
  injection Ht' as E. rewrite <- E in Hc. done.
Qed.

Lemma cancel_each_owned (l : list string) (st : State) :
  owned st ->
  owned (fst (cancel_each l st))
  /\ forall tid t', tasks (fst (cancel_each l st)) !! tid = Some t' ->
       done t' = false -> In (t_session t') l -> t_cancel t' = true.
Proof.
  revert st. induction l as [|sid l IH]; intros st Hown; simpl; [by split|].
  pose proof (cancel_session_owned sid st Hown) as Hown1.
  pose proof (cancel_session_cancels sid st) as Hcan1.
  destruct (cancel_session sid st) as [st1 c1]; simpl in *.
  destruct (IH st1 Hown1) as [Hown2 Hcan2].
  assert (forall l' st' tid t', tasks (fst (cancel_each l' st')) !! tid = Some t' ->
            exists t, tasks st' !! tid = Some t
                      /\ (t' = t \/ t' = set_cancel true t)) as Hstep.
  { clear. induction l' as [|sid' l' IH']; intros st' tid t' Ht'; simpl in *;
      [eauto|].
    pose proof (cancel_session_step sid' st' tid) as H1.
    destruct (cancel_session sid' st') as [st1 c1]; simpl in *.
    specialize (IH' st1 tid t').
    destruct (cancel_each l' st1) as [st2 c2]; simpl in *.
    destruct (IH' Ht') as (t1 & Ht1 & Hor).
    destruct (H1 t1 Ht1) as (t & Ht & Hor').
    exists t. split; [done|].
    destruct Hor as [->| ->], Hor' as [->| ->]; auto. }
  specialize (Hstep l st1).
  destruct (cancel_each l st1) as [st2 c2]; simpl in *.
  split; [done|].
  intros tid t' Ht' Hd [Hs|Hin]; [|by eapply Hcan2].
  destruct (Hstep tid t' Ht') as (t1 & Ht1 & [->| ->]); [|done].
  by eapply Hcan1.
Qed.

Lemma cancel_each_tasks (l : list string) (st : State) (tid : nat) (t : Task) :
  tasks st !! tid = Some t ->
  tasks (fst (cancel_each l st)) !! tid = Some t
  \/ tasks (fst (cancel_each l st)) !! tid = Some (set_cancel true t).
Proof.
  revert st t. induction l as [|sid l IH]; intros st t Ht; simpl; [by left|].
  assert (tasks (fst (cancel_session sid st)) !! tid = Some t
          \/ tasks (fst (cancel_session sid st)) !! tid = Some (set_cancel true t))
    as H1.
  { rewrite cancel_session_tasks.
    destruct (dict_lookup sid (_queues st)) as [sq|]; [|by left].
    destruct (current_task sq) as [tid0|]; [|by left].
    destruct (task_done tid0 st); [by left|].
    unfold cancel_task. destruct (tasks st !! tid0) as [t0|] eqn:Ht0; [|by left].
    simpl. destruct (decide (tid0 = tid)) as [->|Hne].
    - right. rewrite list_lookup_insert_eq by (by eapply lookup_lt_Some).
      congruence.
    - left. by rewrite list_lookup_insert_ne. }
  destruct (cancel_session sid st) as [st1 c1]; simpl in *.
  pose proof (IH st1) as IH'.
  destruct (cancel_each l st1) as [st2 c2]; simpl in *.
  destruct H1 as [H1|H1]; destruct (IH' _ H1) as [H2|H2]; auto.
Qed.

(** C5, as the code has it.  In every state [cancel_session] requests
    the cancellation of the unfinished current task, returns the queued
    messages in order behind at most one more message, and leaves the
    conversation with an empty queue and marked free; [cancel_all]
    returns every queued message and leaves no conversation busy or
    with anything queued.  In a state reached by enqueueing and running
    tasks the message in front is the one the conversation's task is
    working on inside the processor, [cancel_session] requests the
    cancellation of exactly the unfinished task of the conversation,
    [cancel_all] returns these lists for every known conversation in
    the order the conversations were created, and afterwards every
    unfinished task has been asked to cancel. *)
Theorem cancel_returns_in_flight_and_queued :
  (forall (st : State) (sid : string),
     (exists front, snd (cancel_session sid st) = front ++ queued sid st
                    /\ length front <= 1)
     /\ queued sid (fst (cancel_session sid st)) = []
     /\ is_session_busy sid (fst (cancel_session sid st)) = false
     /\ (forall sq tid,
           dict_lookup sid (_queues st) = Some sq ->
           current_task sq = Some tid -> task_done tid st = false ->
           exists t, tasks (fst (cancel_session sid st)) !! tid = Some t
                     /\ t_cancel t = true))
  /\ (forall st : State, List.NoDup (keys (_queues st)) ->
      (forall sid m, In m (queued sid st) -> In m (snd (cancel_all st)))
      /\ (forall sid,
            is_session_busy sid (fst (cancel_all st)) = false
            /\ queued sid (fst (cancel_all st)) = []))
  /\ (forall acts : list action,
      forallb (fun a => negb (is_cancel a)) acts = true ->
      (forall sid,
          snd (cancel_session sid (run acts init))
          = in_flight_message sid (run acts init) ++ queued sid (run acts init)
          /\ forall tid t,
              tasks (run acts init) !! tid = Some t ->
              tasks (fst (cancel_session sid (run acts init))) !! tid
              = Some (if owns sid t then set_cancel true t else t))
      /\ snd (cancel_all (run acts init))
         = flat_map (fun sid => in_flight_message sid (run acts init)
                                ++ queued sid (run acts init))
             (keys (_queues (run acts init)))
      /\ (forall tid t,
            tasks (fst (cancel_all (run acts init))) !! tid = Some t ->
            done t = false -> t_cancel t = true)).
Proof.
  split; [|split].
  - intros st sid. split.
    { rewrite cancel_session_result. exists (reported_message sid st).
      split; [done|]. unfold reported_message.
      destruct (dict_lookup sid (_queues st)) as [sq|]; simpl; [|lia].
      destruct (current_task sq); simpl; [|lia].
      destruct (negb _); simpl; [|lia].
      destruct (current_message sq); simpl; lia. }
    destruct (cancel_session_free sid st) as [Hq Hb].
    split; [done|]. split; [done|].
    intros sq tid Hsq Hc Hd. rewrite cancel_session_tasks, Hsq, Hc, Hd.
    unfold task_done in Hd. unfold cancel_task.
    destruct (tasks st !! tid) as [t|] eqn:Ht; [|done]. simpl.
    exists (set_cancel true t). split; [|done].
    apply list_lookup_insert_eq. by eapply lookup_lt_Some.
  - intros st Hnd. unfold cancel_all.
    destruct (cancel_each_spec (keys (_queues st)) st Hnd) as (Hr & Hin & Hout).
    split.
    + intros sid m Hm. rewrite Hr. apply in_flat_map. exists sid. split.
      * destruct (in_dec string_dec sid (keys (_queues st))) as [|Hn]; [done|].
        apply dict_lookup_keys in Hn. unfold queued in Hm. by rewrite Hn in Hm.
      * apply in_or_app. by right.
    + intros sid.
      destruct (in_dec string_dec sid (keys (_queues st))) as [Hi|Hn].
      * destruct (Hin sid Hi). done.
      * destruct (Hout sid Hn) as (-> & -> & _).
        apply dict_lookup_keys in Hn. unfold is_session_busy, queued.
        by rewrite Hn.
  - intros acts Hall.
    destruct (run_tracked acts init init_single_flight init_tracked Hall)
      as [Hsf Htr].
    pose proof (run_keys_nodup acts) as Hnd.
    set (st := run acts init) in *.
    split; [|split].
    + intros sid. split.
      * by rewrite cancel_session_result, reported_in_flight.
      * intros tid t Ht. by apply cancel_session_task.
    + unfold cancel_all.
      destruct (cancel_each_spec (keys (_queues st)) st Hnd) as (-> & _ & _).
      rewrite !flat_map_concat_map. f_equal. apply map_ext.
      intros sid. by rewrite reported_in_flight.
    + assert (owned st) as Hown.
      { intros tid t Ht Hd _. destruct Hsf as [Hown _ _ _].
        destruct (Hown tid t Ht Hd) as (sq & ? & _ & ?). eauto. }
      unfold cancel_all.
      destruct (cancel_each_owned (keys (_queues st)) st Hown) as [Hown' Hcan].
      intros tid t Ht Hd. destruct (t_cancel t) eqn:Hc; [done|].
      destruct (Hown' tid t Ht Hd Hc) as (sq & Hsq & _).
      rewrite <- Hc. apply (Hcan tid t Ht Hd).
      rewrite <- (cancel_each_keys (keys (_queues st)) st).
      destruct (in_dec string_dec (t_session t)
                  (keys (_queues (fst (cancel_each (keys (_queues st)) st)))))
        as [|Hn]; [done|].
      apply dict_lookup_keys in Hn. congruence.
Qed.

Lemma cancel_returns_in_flight_and_queued_witness :
  snd (cancel_session "a" two_sessions)
  = [sample_message "1"; sample_message "3"]
  /\ snd (cancel_all two_sessions)
     = [sample_message "1"; sample_message "3";
        sample_message "2"; sample_message "4"]
  /\ (forall sid,
        is_session_busy sid (fst (cancel_all two_sessions)) = false
        /\ queued sid (fst (cancel_all two_sessions)) = [])
  /\ (forall tid t,
        tasks (fst (cancel_all two_sessions)) !! tid = Some t ->
        done t = false -> t_cancel t = true).
Proof.
  pose proof cancel_returns_in_flight_and_queued as (_ & Hany & Hrun).
  destruct (Hrun [Enqueue "a" (sample_message "1"); RunTask 0;
                  Enqueue "b" (sample_message "2");
                  Enqueue "a" (sample_message "3");
                  RunTask 1; Enqueue "b" (sample_message "4")] eq_refl)
    as (Hone & Hall & Hcan).
  split; [exact (proj1 (Hone "a"))|].
  split; [exact Hall|].
  split; [|exact Hcan].
  apply (Hany two_sessions).
  repeat constructor; simpl; intuition discriminate.
Defined.

(** C5, as stated: with a message in flight, [cancel_session] returns
    it in front of the queued message, so the result is not the queue. *)
Lemma cancel_session_not_only_queued :
  queued "s" busy_state = [sample_message "2"]
  /\ snd (cancel_session "s" busy_state)
     = [sample_message "1"; sample_message "2"]
  /\ snd (cancel_session "s" busy_state) <> queued "s" busy_state.
Proof. split; [reflexivity|split; [reflexivity|discriminate]]. Qed.

End QueueFacts.

(** ** The global rate limiter *)

Module LimiterFacts.
Import Limiter.
Local Open Scope list_scope.

Section Worker.
Context {Bucket : Type} (acquire : Bucket -> Z -> Bucket * nat).

Local Abbreviation step := (worker_step Bucket acquire).
Local Abbreviation run := (worker Bucket acquire).

Lemma after_pause_bounds (st : GlobalRateLimiter Bucket) :
  (now st <= after_pause Bucket st /\ _paused_until st <= after_pause Bucket st)%Z.
Proof.
  unfold after_pause. destruct (Z.gtb_spec (_paused_until st) (now st)); lia.
Qed.

Lemma call_time_bounds (st : GlobalRateLimiter Bucket) :
  (now st <= call_time Bucket acquire st
   /\ _paused_until st <= call_time Bucket acquire st)%Z.
Proof.
  pose proof (after_pause_bounds st). unfold call_time. lia.
Qed.

Lemma step_flood (st : GlobalRateLimiter Bucket) (e : Entry) (rest : list Entry)
    (err : Error) :
  queue st = e :: rest ->
  result (func e (calls e)) = Raises err -> is_flood_wait err = true ->
  step st
  = {| now := (return_time Bucket acquire st e + Z.max 0 (flood_seconds err))%Z;
       _paused_until := (return_time Bucket acquire st e + flood_seconds err)%Z;
       queue := rest ++ [called e];
       futures := futures st;
       limiter := fst (acquire (limiter st) (after_pause Bucket st));
       dispatched := dispatched st ++ [(call_time Bucket acquire st, future e)] |}.
Proof.
  intros Hq Hr Hf. unfold worker_step, return_time. by rewrite Hq, Hr, Hf.
Qed.

Lemma step_failure (st : GlobalRateLimiter Bucket) (e : Entry) (rest : list Entry)
    (err : Error) :
  queue st = e :: rest ->
  result (func e (calls e)) = Raises err -> is_flood_wait err = false ->
  step st
  = {| now := return_time Bucket acquire st e;
       _paused_until := _paused_until st;
       queue := rest;
       futures := settle (future e) (Exception err) (futures st);
       limiter := fst (acquire (limiter st) (after_pause Bucket st));
       dispatched := dispatched st ++ [(call_time Bucket acquire st, future e)] |}.
Proof.
  intros Hq Hr Hf. unfold worker_step, return_time. by rewrite Hq, Hr, Hf.
Qed.

Lemma step_success (st : GlobalRateLimiter Bucket) (e : Entry) (rest : list Entry)
    (v : Py.value) :
  queue st = e :: rest ->
  result (func e (calls e)) = Returns v ->
  step st
  = {| now := return_time Bucket acquire st e;
       _paused_until := _paused_until st;
       queue := rest;
       futures := settle (future e) (Result v) (futures st);
       limiter := fst (acquire (limiter st) (after_pause Bucket st));
       dispatched := dispatched st ++ [(call_time Bucket acquire st, future e)] |}.
Proof.
  intros Hq Hr. unfold worker_step, return_time. by rewrite Hq, Hr.
Qed.

(** The clock never runs backwards. *)
Lemma step_now (st : GlobalRateLimiter Bucket) : (now st <= now (step st))%Z.
Proof.
  pose proof (call_time_bounds st) as [Hn _]. unfold worker_step.
  destruct (queue st) as [|e rest]; [lia|].
  destruct (result (func e (calls e))) as [v|err]; simpl; [lia|].
  destruct (is_flood_wait err); simpl; lia.
Qed.

(** Calls are started in the order of the log, none before the clock
    of the state they are started from. *)
Lemma run_dispatched (n : nat) (st : GlobalRateLimiter Bucket) :
  exists new,
    dispatched (run n st) = dispatched st ++ new
    /\ Forall (fun d => (now st <= fst d)%Z) new.
Proof.
  revert st. induction n as [|n IH]; intros st; simpl.
  - exists []. by rewrite app_nil_r.
  - destruct (IH (step st)) as (new & Hd & Hall).
    pose proof (step_now st) as Hnow.
    pose proof (call_time_bounds st) as [Hct _].
    assert (exists new0, dispatched (step st) = dispatched st ++ new0
                         /\ Forall (fun d => (now st <= fst d)%Z) new0)
      as (new0 & Hd0 & Hall0).
    { unfold worker_step. destruct (queue st) as [|e rest].
      - exists []. by rewrite app_nil_r.
      - exists [(call_time Bucket acquire st, future e)].
        split; [|by repeat constructor].
        destruct (result (func e (calls e))) as [v|err]; [done|].
        by destruct (is_flood_wait err). }
    exists (new0 ++ new). rewrite Hd, Hd0, app_assoc. split; [done|].
    apply Forall_app. split; [done|].
    eapply Forall_impl; [exact Hall|]. simpl. intros d Hdn. lia.
Qed.

(** A completed future keeps its value. *)
Lemma settle_done (fid fid' : nat) (s s' : settled)
    (futs : list (option settled)) :
  futs !! fid' = Some (Some s') -> settle fid s futs !! fid' = Some (Some s').
Proof.
  intros H. unfold settle. destruct (futs !! fid) as [[s0|]|] eqn:E; try done.
  destruct (decide (fid = fid')) as [->|Hne]; [congruence|].
  by rewrite list_lookup_insert_ne.
Qed.

Lemma settle_other (fid fid' : nat) (s : settled)
    (futs : list (option settled)) :
  fid <> fid' -> settle fid s futs !! fid' = futs !! fid'.
Proof.
  intros Hne. unfold settle. destruct (futs !! fid) as [[s0|]|]; try done.
  by rewrite list_lookup_insert_ne.
Qed.

Lemma settle_pending (fid : nat) (s : settled) (futs : list (option settled)) :
  futs !! fid = Some None -> settle fid s futs !! fid = Some (Some s).
Proof.
  intros H. unfold settle. rewrite H.
  apply list_lookup_insert_eq. by eapply lookup_lt_Some.
Qed.

Lemma step_done (st : GlobalRateLimiter Bucket) (fid : nat) (s : settled) :
  futures st !! fid = Some (Some s) -> futures (step st) !! fid = Some (Some s).
Proof.
  intros H. unfold worker_step. destruct (queue st) as [|e rest]; [done|].
  destruct (result (func e (calls e))) as [v|err]; simpl.
  - by apply settle_done.
  - destruct (is_flood_wait err); simpl; [done|]. by apply settle_done.
Qed.

Lemma run_done (n : nat) (st : GlobalRateLimiter Bucket) (fid : nat) (s : settled) :
  futures st !! fid = Some (Some s) -> futures (run n st) !! fid = Some (Some s).
Proof.
  revert st. induction n as [|n IH]; intros st H; simpl; [done|].
  apply IH. by apply step_done.
Qed.

(** A task in front of [e] is handled and [e] moves one place up. *)
Lemma step_advances (st : GlobalRateLimiter Bucket) (p : nat) (e : Entry) :
  queue st !! S p = Some e ->
  futures st !! future e = Some None ->
  alone (S p) e (queue st) ->
  queue (step st) !! p = Some e
  /\ futures (step st) !! future e = Some None
  /\ alone p e (queue (step st)).
Proof.
  intros Hq Hf Hal. unfold worker_step.
  destruct (queue st) as [|h rest] eqn:E; [done|]. simpl in Hq.
  assert (future h <> future e) as Hne by (by apply (Hal 0 h)).
  assert (alone p e rest) as Hal'.
  { intros i x Hi Hip. apply (Hal (S i) x); [done|lia]. }
  assert (alone p e (rest ++ [called h])) as Hal''.
  { intros i x [Hi|[_ Hi]]%lookup_app_Some Hip; [by eapply Hal'|].
    destruct (i - length rest); simpl in Hi; [|done]. by simplify_eq. }
  destruct (result (func h (calls h))) as [v|err]; simpl.
  - by rewrite settle_other.
  - destruct (is_flood_wait err); simpl.
    + split; [|done]. apply lookup_app_l_Some. done.
    + by rewrite settle_other.
Qed.

(** The retried task is completed with the value it finally returns. *)
Lemma retried_until_success (k p : nat) (st : GlobalRateLimiter Bucket) (e : Entry)
    (v : Py.value) :
  queue st !! p = Some e ->
  futures st !! future e = Some None ->
  alone p e (queue st) ->
  floods_then_returns e k v ->
  exists n, forall m, n <= m ->
    futures (run m st) !! future e = Some (Some (Result v)).
Proof.
  revert p st e. induction k as [|k IHk]; intros p; induction p as [|p IHp];
    intros st e Hq Hf Hal [Hfl Hret].
  - (* at the head, and this call returns *)
    destruct (queue st) as [|h rest] eqn:E; [done|]. simpl in Hq. simplify_eq.
    rewrite Nat.add_0_r in Hret.
    exists 1. intros m Hm. destruct m as [|m]; [lia|]. simpl.
    apply run_done. rewrite (step_success st e rest v E Hret). simpl.
    by apply settle_pending.
  - destruct (step_advances st p e Hq Hf Hal) as (Hq' & Hf' & Hal').
    destruct (IHp (step st) e Hq' Hf' Hal' (conj Hfl Hret)) as [n Hn].
    exists (S n). intros m Hm. destruct m as [|m]; [lia|]. simpl.
    apply Hn. lia.
  - (* at the head, and this call hits flood control *)
    destruct (queue st) as [|h rest] eqn:E; [done|]. simpl in Hq. simplify_eq.
    destruct (Hfl 0) as (err & Herr & Hflood); [lia|].
    rewrite Nat.add_0_r in Herr.
    pose proof (step_flood st e rest err E Herr Hflood) as Hstep.
    destruct (IHk (length rest) (step st) (called e)) as [n Hn].
    + rewrite Hstep. simpl. by rewrite lookup_app_r, Nat.sub_diag.
    + rewrite Hstep. done.
    + rewrite Hstep. simpl.
      intros i x [Hi|[Hge Hi]]%lookup_app_Some Hip.
      * apply (Hal (S i) x); [done|lia].
      * destruct (i - length rest) eqn:Ei; simpl in Hi; [lia|done].
    + split; simpl.
      * intros i Hi. destruct (Hfl (S i)) as (err' & He' & Hf'); [lia|].
        exists err'. by rewrite <- Nat.add_succ_r.
      * by rewrite <- Nat.add_succ_r.
    + exists (S n). intros m Hm. destruct m as [|m]; [lia|]. simpl.
      apply Hn. lia.
  - destruct (step_advances st p e Hq Hf Hal) as (Hq' & Hf' & Hal').
    destruct (IHp (step st) e Hq' Hf' Hal' (conj Hfl Hret)) as [n Hn].
    exists (S n). intros m Hm. destruct m as [|m]; [lia|]. simpl.
    apply Hn. lia.
Qed.

(** C3.  When the task at the head of the queue fails with an error
    whose text names [flood] or [wait], the worker sets the pause to the
    failure time plus the signalled seconds (30 without a hint), sleeps
    it out so that no later call starts before the pause ends, leaves
    the future untouched and puts the task back at the end of the queue;
    a task that keeps hitting flood control and then returns completes
    its caller's future with the returned value.  Any other failure
    completes the future with that exception, for good, and leaves the
    pause as it was. *)
Theorem flood_wait_pauses_and_retries :
  (forall (st : GlobalRateLimiter Bucket) (e : Entry) (rest : list Entry) (err : Error),
      queue st = e :: rest ->
      result (func e (calls e)) = Raises err ->
      is_flood_wait err = true ->
      _paused_until (step st)
      = (return_time Bucket acquire st e
         + match seconds_attr err with Some s => s | None => 30 end)%Z
      /\ (_paused_until (step st) <= now (step st))%Z
      /\ (forall n d,
            In d (skipn (length (dispatched (step st)))
                    (dispatched (run n (step st)))) ->
            (_paused_until (step st) <= fst d)%Z)
      /\ queue (step st) = rest ++ [called e]
      /\ futures (step st) = futures st)
  /\ (forall (st : GlobalRateLimiter Bucket) (e : Entry) (rest : list Entry) (err : Error),
      queue st = e :: rest ->
      result (func e (calls e)) = Raises err ->
      is_flood_wait err = false ->
      futures (step st) = settle (future e) (Exception err) (futures st)
      /\ (futures st !! future e = Some None ->
          forall n, futures (run n (step st)) !! future e
                    = Some (Some (Exception err)))
      /\ _paused_until (step st) = _paused_until st
      /\ now (step st) = return_time Bucket acquire st e
      /\ queue (step st) = rest)
  /\ (forall (st : GlobalRateLimiter Bucket) (f : nat -> attempt) (k : nat) (v : Py.value),
      Forall (fun h => future h < length (futures st)) (queue st) ->
      floods_then_returns {| func := f; calls := 0; future := length (futures st) |}
        k v ->
      exists n, forall m, n <= m ->
        futures (run m (fst (enqueue f st))) !! snd (enqueue f st)
        = Some (Some (Result v))).
Proof.
  split; [|split].
  - intros st e rest err Hq Hr Hf.
    pose proof (step_flood st e rest err Hq Hr Hf) as Hs.
    assert (_paused_until (step st) <= now (step st))%Z as Hle
      by (rewrite Hs; simpl; lia).
    split; [by rewrite Hs|]. split; [done|].
    split; [|by rewrite Hs].
    intros n d Hd.
    destruct (run_dispatched n (step st)) as (new & Hnew & Hall).
    rewrite Hnew, skipn_app, skipn_all, Nat.sub_diag, drop_0 in Hd.
    simpl in Hd. rewrite List.Forall_forall in Hall.
    specialize (Hall d Hd). simpl in Hall. lia.
  - intros st e rest err Hq Hr Hf.
    rewrite (step_failure st e rest err Hq Hr Hf). simpl.
    split; [done|]. split; [|done].
    intros Hp n. apply run_done. simpl. by apply settle_pending.
  - intros st f k v Hwf Hfl. simpl.
    apply (retried_until_success k (length (queue st)) _
             {| func := f; calls := 0; future := length (futures st) |} v);
      simpl.
    + by rewrite lookup_app_r, Nat.sub_diag.
    + by rewrite lookup_app_r, Nat.sub_diag.
    + intros i h [Hi|[Hge Hi]]%lookup_app_Some Hip.
      * rewrite Forall_forall in Hwf. simpl.
        assert (future h < length (futures st)); [|lia].
        apply Hwf. by eapply list_elem_of_lookup_2.
      * destruct (i - length (queue st)) eqn:Ei; simpl in Hi; [lia|done].
    + done.
Qed.

End Worker.

Lemma flood_wait_pauses_and_retries_witness :
  let st := fst (enqueue task_that_fails_once idle) in
  let st2 := fst (enqueue task_that_fails idle) in
  (_paused_until (worker_step Z one_per_two st) = 5%Z
   /\ queue (worker_step Z one_per_two st)
      = [called {| func := task_that_fails_once; calls := 0; future := 0 |}]
   /\ futures (worker_step Z one_per_two st) = [None])
  /\ (futures (worker_step Z one_per_two st2) = [Some (Exception plain_error)]
      /\ _paused_until (worker_step Z one_per_two st2) = 0%Z)
  /\ exists n, forall m, n <= m ->
       futures (worker Z one_per_two m st) !! 0
       = Some (Some (Result (Py.VStr "success"))).
Proof.
  intros st st2.
  destruct (flood_wait_pauses_and_retries one_per_two) as (Hflood & Hfail & Hretry).
  split; [|split].
  - destruct (Hflood st {| func := task_that_fails_once; calls := 0; future := 0 |}
                [] flood_error eq_refl eq_refl eq_refl)
      as (Hp & _ & _ & Hq & Hf).
    split; [exact Hp|]. split; [exact Hq|exact Hf].
  - destruct (Hfail st2 {| func := task_that_fails; calls := 0; future := 0 |}
                [] plain_error eq_refl eq_refl eq_refl)
      as (Hf & _ & Hp & _ & _).
    split; [exact Hf|exact Hp].
  - apply (Hretry idle task_that_fails_once 1 (Py.VStr "success")).
    + constructor.
    + split.
      * intros i Hi. exists flood_error.
        destruct i as [|i]; [split; reflexivity|lia].
      * reflexivity.
Defined.

End LimiterFacts.

(** ** The message handler *)

Module HandlerFacts.
Import Handler.
Local Open Scope list_scope.

Lemma starts_with_fence_length (s : pystr) :
  starts_with fence s = true -> 3 <= length s.
Proof.
  destruct s as [|a [|b [|c s]]]; simpl; try done.
  - by rewrite andb_false_r.
  - by rewrite !andb_false_r.
  - lia.
Qed.

(** A newline in front of the closing fence keeps it apart from what
    the message ends with. *)
Lemma starts_with_fence_closing (s : pystr) :
  s <> [] -> starts_with fence (s ++ nl ++ fence) = starts_with fence s.
Proof.
  destruct s as [|a [|b [|c s]]]; simpl; intros H; try done;
    by rewrite ?andb_false_r.
Qed.

Lemma count_skip_closing (s : pystr) (skip : nat) :
  skip <= length s ->
  count_skip fence skip (s ++ nl ++ fence) = count_skip fence skip s + 1.
Proof.
  revert skip. induction s as [|c s IH]; intros skip Hskip.
  - simpl in Hskip. assert (skip = 0) as -> by lia. reflexivity.
  - destruct skip as [|k].
    + change (count_skip fence 0 ((c :: s) ++ nl ++ fence))
        with (if starts_with fence ((c :: s) ++ nl ++ fence)
              then S (count_skip fence 2 (s ++ nl ++ fence))
              else count_skip fence 0 (s ++ nl ++ fence)).
      change (count_skip fence 0 (c :: s))
        with (if starts_with fence (c :: s)
              then S (count_skip fence 2 s)
              else count_skip fence 0 s).
      rewrite starts_with_fence_closing by done.
      destruct (starts_with fence (c :: s)) eqn:Hsw.
      * apply starts_with_fence_length in Hsw. simpl in Hsw.
        rewrite IH by lia. done.
      * apply IH. lia.
    + simpl in *. apply IH. lia.
Qed.

Lemma count_closing (s : pystr) :
  count fence (s ++ nl ++ fence) = count fence s + 1.
Proof. apply count_skip_closing. lia. Qed.

Lemma last_n_length (n : nat) (s : pystr) :
  n <= length s -> length (last_n n s) = n.
Proof. intros H. unfold last_n. rewrite length_skipn. lia. Qed.

Lemma last_n_suffix (n : nat) (s : pystr) :
  s = firstn (length s - n) s ++ last_n n s.
Proof. unfold last_n. by rewrite firstn_skipn. Qed.

(** C8.  A rendered message of at most 3800 characters is sent as it
    is.  A longer one is cut from the front: it becomes an ellipsis, the
    last 3795 characters, and a closing fence exactly when the cut text
    holds an odd number of fence markers; the result always holds an
    even number of them. *)
Theorem build_message_truncates (parts : list (string * pystr))
    (status : option pystr) :
  (length (joined parts status) <= 3800 ->
   _build_message parts status = joined parts status)
  /\ (3800 < length (joined parts status) ->
      exists front closing,
        joined parts status = front ++ last_n 3795 (joined parts status)
        /\ length (last_n 3795 (joined parts status)) = 3795
        /\ _build_message parts status
           = ellipsis ++ last_n 3795 (joined parts status) ++ closing
        /\ (closing = nl ++ fence
            /\ Nat.Odd (count fence
                          (ellipsis ++ last_n 3795 (joined parts status)))
            \/ closing = []
               /\ Nat.Even (count fence
                              (ellipsis ++ last_n 3795 (joined parts status))))
        /\ Nat.Even (count fence (_build_message parts status))).
Proof.
  unfold _build_message. set (full := joined parts status). split.
  - intros Hle. destruct (Nat.ltb_spec 3800 (length full)); [lia|done].
  - intros Hlt. destruct (Nat.ltb_spec 3800 (length full)); [|lia].
    set (cut := ellipsis ++ last_n 3795 full).
    exists (firstn (length full - 3795) full).
    destruct (Nat.eqb_spec (count fence cut mod 2) 0) as [Hev|Hodd];
      cbn [negb].
    + exists []. split; [apply last_n_suffix|].
      split; [apply last_n_length; lia|].
      rewrite app_nil_r. split; [done|].
      assert (Nat.Even (count fence cut)) as He.
      { apply Nat.Div0.mod_divides in Hev as [k Hk]. exists k. lia. }
      split; [right; done|done].
    + exists (nl ++ fence). split; [apply last_n_suffix|].
      split; [apply last_n_length; lia|].
      split; [unfold cut; by rewrite <- app_assoc|].
      assert (Nat.Odd (count fence cut)) as Ho.
      { destruct (Nat.Even_or_Odd (count fence cut)) as [[k Hk]|Ho]; [|done].
        exfalso. apply Hodd. rewrite Hk.
        by rewrite Nat.mul_comm, Nat.Div0.mod_mul. }
      split; [left; done|].
      rewrite count_closing. destruct Ho as [k Hk]. exists (k + 1). lia.
Qed.

Lemma build_message_truncates_witness :
  _build_message [("content"%string, u "Hi")] (Some (u "done"))
  = u "done" ++ nl ++ nl ++ u "Hi"
  /\ exists front closing,
      joined long_parts None = front ++ last_n 3795 (joined long_parts None)
      /\ length (last_n 3795 (joined long_parts None)) = 3795
      /\ _build_message long_parts None
         = ellipsis ++ last_n 3795 (joined long_parts None) ++ closing
      /\ (closing = nl ++ fence
          /\ Nat.Odd (count fence
                        (ellipsis ++ last_n 3795 (joined long_parts None)))
          \/ closing = []
             /\ Nat.Even (count fence
                            (ellipsis ++ last_n 3795 (joined long_parts None))))
      /\ Nat.Even (count fence (_build_message long_parts None)).
Proof.
  split.
  - apply (proj1 (build_message_truncates [("content"%string, u "Hi")]
                    (Some (u "done")))).
    apply Nat.leb_le. vm_compute. reflexivity.
  - apply (proj2 (build_message_truncates long_parts None)).
    apply Nat.ltb_lt. vm_compute. reflexivity.
Defined.

(** *** Outbound sends *)

Section Outbound.
Context {Bucket : Type} (acquire : Bucket -> Z -> Bucket * nat).

(** The worker serves the tasks that are waiting in the order of the
    queue, whatever they do; those that run into flood control wait
    again behind everything else. *)
Lemma worker_serves_queue (q extra : list Limiter.Entry)
    (lim : Limiter.GlobalRateLimiter Bucket) :
  Limiter.queue lim = q ++ extra ->
  map snd (Limiter.dispatched (Limiter.worker Bucket acquire (length q) lim))
  = map snd (Limiter.dispatched lim) ++ map Limiter.future q
  /\ Limiter.queue (Limiter.worker Bucket acquire (length q) lim)
     = extra ++ map Limiter.called (List.filter Flooding.floods_now q).
Proof.
  revert extra lim. induction q as [|e q IH]; intros extra lim Hq; simpl.
  - by rewrite !app_nil_r.
  - assert (Limiter.dispatched (Limiter.worker_step Bucket acquire lim)
            = Limiter.dispatched lim
              ++ [(Limiter.call_time Bucket acquire lim, Limiter.future e)]
            /\ Limiter.queue (Limiter.worker_step Bucket acquire lim)
               = q ++ (extra ++ if Flooding.floods_now e
                                then [Limiter.called e] else []))
      as [Hd' Hq'].
    { unfold Limiter.worker_step, Flooding.floods_now. rewrite Hq. simpl.
      destruct (Limiter.result (Limiter.func e (Limiter.calls e)))
        as [v|err]; simpl; [by rewrite app_nil_r|].
      destruct (Limiter.is_flood_wait err); simpl.
      - by rewrite <- app_assoc.
      - by rewrite app_nil_r. }
    destruct (IH _ _ Hq') as [Hd Hk]. split.
    + rewrite Hd, Hd', map_app, <- app_assoc. done.
    + rewrite Hk.
      destruct (Flooding.floods_now e); simpl; by rewrite <- ?app_assoc, ?app_nil_r.
Qed.

Lemma send_direct (site : send_site) (w : World Bucket) :
  send direct site w
  = {| sent := sent w ++ outbound site; rate_limiter := rate_limiter w |}.
Proof.
  unfold send. generalize (outbound site). intros calls. revert w.
  induction calls as [|c calls IH]; intros w; simpl.
  - rewrite app_nil_r. by destruct w.
  - rewrite IH. simpl. by rewrite <- app_assoc.
Qed.

Lemma handle_message_call (incoming : Queue.IncomingMessage)
    (found : option string) (stats : Stats) (mq : Queue.State)
    (c : platform_call) :
  snd (handle_message incoming found stats mq) = Some c ->
  exists text reply_to,
    c = SendMessage (Queue.chat_id incoming) text reply_to
    /\ (reply_to = None \/ reply_to = Some (Queue.message_id incoming)).
Proof.
  unfold handle_message, _handle_stop_command, _handle_stats_command.
  destruct (String.eqb (Queue.text incoming) "/stop").
  { destruct (Queue.cancel_all mq). simpl. intros [= <-]. eauto. }
  destruct (String.eqb (Queue.text incoming) "/stats").
  { simpl. intros [= <-]. eauto. }
  destruct (existsb _ own_prefixes); [done|].
  simpl. intros [= <-]. eauto.
Qed.

Lemma update_ui_call (fw now : Q) (turn : Turn) (status : option pystr)
    (force : bool) (c : platform_call) :
  snd (update_ui fw now turn status force) = Some c ->
  c = EditMessage (chat turn) (status_msg turn)
        (_build_message (message_parts turn) status) (Some "markdown"%string).
Proof.
  unfold update_ui.
  destruct (negb (Qle_bool fw now)); [done|].
  destruct (negb force && negb (Qle_bool 1 (now - last_ui_update turn)));
    [done|].
  destruct (_build_message (message_parts turn) status); [done|].
  simpl. by intros [= <-].
Qed.


End Outbound.



End HandlerFacts.

(** ** Feeding the tag-segment extractor in pieces *)

Module ThinkParserFacts.
Import ThinkParser.
Local Open Scope list_scope.

Lemma scan_app (p : Parser) (a b : list ascii) :
  scan p (a ++ b)
  = (fst (scan (fst (scan p a)) b), snd (scan p a) ++ snd (scan (fst (scan p a)) b)).
Proof.
  revert p. induction a as [|c a IH]; intros p; simpl.
  - by destruct (scan p b).
  - destruct (scan_char p c) as [p1 e1]. rewrite IH.
    destruct (scan p1 a) as [p2 e2]. simpl.
    destruct (scan p2 b) as [p3 e3]. simpl. by rewrite app_assoc.
Qed.

Lemma typed_app (a b : list ContentChunk) : typed (a ++ b) = typed a ++ typed b.
Proof. apply flat_map_app. Qed.

Lemma emitted_app (a b : list event) : emitted (a ++ b) = emitted a ++ emitted b.
Proof. apply flat_map_app. Qed.

Lemma typed_chunks_of (evs : list event) (cur : option ContentChunk) :
  typed (chunks_of evs cur) = typed (close cur) ++ emitted evs.
Proof.
  revert cur. induction evs as [|ev evs IH]; intros cur; simpl.
  - by rewrite app_nil_r.
  - destruct ev as [ty c|].
    + destruct cur as [ch|]; simpl.
      * destruct (type_eqb (type ch) ty) eqn:Hty.
        -- rewrite IH. simpl. rewrite !app_nil_r, map_app. simpl.
           assert (type ch = ty) as -> by (by destruct (type ch), ty).
           by rewrite <- app_assoc.
        -- unfold typed at 1. simpl. fold (typed (chunks_of evs
             (Some {| type := ty; content := [c] |}))).
           rewrite IH. simpl. by rewrite app_nil_r.
      * rewrite IH. simpl. done.
    + rewrite typed_app, IH. done.
Qed.

Lemma typed_feed (p : Parser) (text : list ascii) :
  typed (snd (feed p text)) = emitted (snd (scan p text)).
Proof.
  unfold feed. destruct (scan p text) as [p' evs]. simpl.
  by rewrite typed_chunks_of.
Qed.

Lemma fst_feed (p : Parser) (text : list ascii) :
  fst (feed p text) = fst (scan p text).
Proof. unfold feed. by destruct (scan p text). Qed.

Lemma feed_all_scan (p : Parser) (pieces : list (list ascii)) :
  fst (feed_all p pieces) = fst (scan p (concat pieces))
  /\ typed (snd (feed_all p pieces)) = emitted (snd (scan p (concat pieces))).
Proof.
  revert p. induction pieces as [|piece rest IH]; intros p; simpl; [done|].
  pose proof (fst_feed p piece) as Hf. pose proof (typed_feed p piece) as Ht.
  destruct (feed p piece) as [p1 out1]. simpl in *.
  destruct (IH p1) as [IH1 IH2].
  destruct (feed_all p1 rest) as [p2 out2]. simpl in *.
  rewrite scan_app. simpl. rewrite <- Hf. split; [done|].
  by rewrite typed_app, emitted_app, Ht, IH2.
Qed.

Lemma contents_typed (out : list ContentChunk) :
  contents out = map snd (typed out).
Proof.
  unfold contents, typed. induction out as [|ch out IH]; simpl; [done|].
  rewrite map_app, <- IH. f_equal.
  rewrite map_map. simpl. by rewrite map_id.
Qed.

(** *** What the buffer holds *)

Lemma scan_char_undecided (p : Parser) (c : ascii) :
  undecided (fst (scan_char p c)).
Proof.
  unfold scan_char, undecided.
  destruct (bool_decide (buffer p ++ [c] = awaited (in_think p))) eqn:Hfull;
    [cbn [fst buffer in_think]; by destruct (in_think p)|].
  destruct (is_prefix (buffer p ++ [c]) (awaited (in_think p))) eqn:Hpre.
  { cbn [fst buffer in_think]. split; [done|].
    by apply bool_decide_eq_false in Hfull. }
  destruct (is_prefix [c] (awaited (in_think p))) eqn:Hc;
    cbn [fst buffer in_think].
  - split; [done|]. intros E. destruct (in_think p); discriminate E.
  - by destruct (in_think p).
Qed.

Lemma scan_undecided (p : Parser) (text : list ascii) :
  undecided p -> undecided (fst (scan p text)).
Proof.
  revert p. induction text as [|c text IH]; intros p Hp; simpl; [done|].
  pose proof (scan_char_undecided p c) as H1.
  destruct (scan_char p c) as [p1 e1]. simpl in *.
  specialize (IH p1 H1). by destruct (scan p1 text).
Qed.

Lemma scan_char_suffix (p : Parser) (c : ascii) :
  exists front, buffer p ++ [c] = front ++ buffer (fst (scan_char p c)).
Proof.
  unfold scan_char.
  destruct (bool_decide _); cbn [fst buffer].
  { exists (buffer p ++ [c]). by rewrite app_nil_r. }
  destruct (is_prefix (buffer p ++ [c]) _); cbn [fst buffer].
  { by exists []. }
  destruct (is_prefix [c] _); cbn [fst buffer].
  - by exists (buffer p).
  - exists (buffer p ++ [c]). by rewrite app_nil_r.
Qed.

Lemma scan_suffix (p : Parser) (text : list ascii) :
  exists front, buffer p ++ text = front ++ buffer (fst (scan p text)).
Proof.
  revert p. induction text as [|c text IH]; intros p; simpl.
  - exists []. by rewrite app_nil_r.
  - destruct (scan_char_suffix p c) as [f1 H1].
    destruct (scan_char p c) as [p1 e1]. simpl in *.
    destruct (IH p1) as [f2 H2].
    destruct (scan p1 text) as [p2 e2]. simpl in *.
    exists (f1 ++ f2).
    change (c :: text) with ([c] ++ text).
    by rewrite app_assoc, H1, <- !app_assoc, H2.
Qed.

(** *** The delimiters *)

Lemma awaited_shape (inside : bool) :
  exists tail, awaited inside = "<"%char :: tail /\ plain tail = true.
Proof. destruct inside; eexists; split; reflexivity. Qed.

Lemma is_prefix_app (x y : list ascii) : is_prefix x (x ++ y) = true.
Proof.
  induction x as [|a x IH]; simpl; [done|]. by rewrite Ascii.eqb_refl.
Qed.

Lemma is_prefix_app_l (x y t : list ascii) :
  is_prefix (x ++ y) t = true -> is_prefix x t = true.
Proof.
  revert t. induction x as [|a x IH]; intros t; simpl; [done|].
  destruct t as [|b t]; [done|].
  intros [-> H]%andb_prop. simpl. by apply IH.
Qed.

Lemma is_prefix_length (a b : list ascii) :
  is_prefix a b = true -> length a <= length b.
Proof.
  revert b. induction a as [|x a IH]; intros b; simpl; [lia|].
  destruct b as [|y b]; [done|].
  intros [_ H]%andb_prop. specialize (IH b H). simpl. lia.
Qed.

Lemma is_prefix_same_length (a b : list ascii) :
  is_prefix a b = true -> length b <= length a -> a = b.
Proof.
  revert b. induction a as [|x a IH]; intros b; simpl.
  - destruct b; simpl; [done|lia].
  - destruct b as [|y b]; [done|].
    intros [Hx H]%andb_prop Hl. apply Ascii.eqb_eq in Hx as ->.
    simpl in Hl. f_equal. apply IH; [done|lia].
Qed.

Lemma is_prefix_of_app (t x y : list ascii) :
  is_prefix t (x ++ y) = true -> length x <= length t -> is_prefix x t = true.
Proof.
  revert x. induction t as [|b t IH]; intros x; simpl.
  - intros _ Hl. destruct x; simpl in *; [done|lia].
  - destruct x as [|a x]; [done|]. simpl.
    intros [Hb H]%andb_prop Hl. apply Ascii.eqb_eq in Hb as ->.
    rewrite Ascii.eqb_refl. simpl. apply IH; [done|lia].
Qed.

Lemma proper_prefix_shorter (b t : list ascii) :
  is_prefix b t = true -> b <> t -> length b < length t.
Proof.
  intros Hp Hne. pose proof (is_prefix_length _ _ Hp) as Hl.
  destruct (decide (length b = length t)) as [E|]; [|lia].
  destruct Hne. apply is_prefix_same_length; [done|lia].
Qed.

Lemma plain_prefix (b t : list ascii) :
  is_prefix b t = true -> plain t = true -> plain b = true.
Proof.
  revert t. induction b as [|x b IH]; intros t; simpl; [done|].
  destruct t as [|y t]; [done|].
  intros [Hx H]%andb_prop [Hy Ht]%andb_prop. apply Ascii.eqb_eq in Hx as ->.
  rewrite Hy. simpl. by eapply IH.
Qed.

(** *** The partition of a whole text *)

Lemma partition_skip (x rest : list ascii) (inside : bool) :
  partition (length x) inside (x ++ rest) = partition 0 inside rest.
Proof. induction x as [|a x IH]; simpl; done. Qed.

Lemma partition_delimiter (inside : bool) (rest : list ascii) :
  partition 0 inside (awaited inside ++ rest) = partition 0 (negb inside) rest.
Proof. destruct inside; reflexivity. Qed.

Lemma partition_plain_char (inside : bool) (a : ascii) (rest : list ascii) :
  Ascii.eqb a "<"%char = false ->
  partition 0 inside (a :: rest)
  = prepend [(reading inside, a)] (partition 0 inside rest).
Proof.
  intros Ha. destruct (awaited_shape inside) as (tail & E & _).
  cbn [partition]. rewrite E. cbn [is_prefix].
  rewrite Ha, (Ascii.eqb_sym "<"%char a), Ha. done.
Qed.

Lemma partition_plain (inside : bool) (b rest : list ascii) :
  plain b = true ->
  partition 0 inside (b ++ rest)
  = prepend (map (pair (reading inside)) b) (partition 0 inside rest).
Proof.
  induction b as [|a b IH]; intros Hb.
  - unfold prepend. simpl. by destruct (partition 0 inside rest).
  - simpl in Hb. apply andb_prop in Hb as [Ha Hb]. apply negb_true_iff in Ha.
    change ((a :: b) ++ rest) with (a :: (b ++ rest)).
    rewrite (partition_plain_char inside a (b ++ rest) Ha), (IH Hb). done.
Qed.

Lemma partition_undecided (inside : bool) (b : list ascii) :
  is_prefix b (awaited inside) = true -> b <> awaited inside ->
  partition 0 inside b = ([], {| in_think := inside; buffer := b |}).
Proof.
  intros Hp Hne. destruct b as [|a b]; [done|]. cbn [partition].
  destruct (is_prefix (awaited inside) (a :: b)) eqn:Hq.
  - destruct Hne. symmetry. apply is_prefix_same_length; [done|].
    by apply is_prefix_length.
  - by rewrite Hp.
Qed.

Lemma partition_failed_prefix (inside : bool) (b : list ascii) (c : ascii)
    (rest : list ascii) :
  is_prefix b (awaited inside) = true -> b <> awaited inside ->
  is_prefix (b ++ [c]) (awaited inside) = false ->
  partition 0 inside (b ++ c :: rest)
  = prepend (map (pair (reading inside)) b) (partition 0 inside (c :: rest)).
Proof.
  intros Hp Hne Hc. destruct b as [|a b].
  { unfold prepend. cbn [app map]. by destruct (partition 0 inside (c :: rest)). }
  pose proof (proper_prefix_shorter _ _ Hp Hne) as Hlt.
  destruct (awaited_shape inside) as (tail & E & Htail).
  assert (a = "<"%char /\ is_prefix b tail = true) as [-> Hb].
  { rewrite E in Hp. simpl in Hp. apply andb_prop in Hp as [Ha Hb].
    by apply Ascii.eqb_eq in Ha. }
  change (("<"%char :: b) ++ c :: rest) with ("<"%char :: (b ++ c :: rest)).
  cbn [partition].
  assert (is_prefix (awaited inside) ("<"%char :: b ++ c :: rest) = false) as ->.
  { destruct (is_prefix (awaited inside) ("<"%char :: b ++ c :: rest)) eqn:Hq;
      [|done].
    rewrite <- Hc. symmetry.
    apply (is_prefix_of_app _ (("<"%char :: b) ++ [c]) rest).
    - by rewrite <- app_assoc.
    - rewrite length_app. simpl in *. lia. }
  assert (is_prefix ("<"%char :: b ++ c :: rest) (awaited inside) = false) as ->.
  { destruct (is_prefix ("<"%char :: b ++ c :: rest) (awaited inside)) eqn:Hq;
      [|done].
    rewrite <- Hc. symmetry.
    apply (is_prefix_app_l _ rest). by rewrite <- app_assoc. }
  rewrite (partition_plain inside b (c :: rest) (plain_prefix _ _ Hb Htail)).
  done.
Qed.

(** *** The scan against the partition *)

Lemma scan_cons (p : Parser) (c : ascii) (text : list ascii) :
  scan p (c :: text)
  = (fst (scan (fst (scan_char p c)) text),
     snd (scan_char p c) ++ snd (scan (fst (scan_char p c)) text)).
Proof.
  simpl. destruct (scan_char p c) as [p1 e1]. simpl.
  destruct (scan p1 text) as [p2 e2]. reflexivity.
Qed.

Lemma emitted_held (ty : ContentType) (b : list ascii) :
  emitted (map (Emit ty) b) = map (pair ty) b.
Proof. induction b as [|a b IH]; simpl; [done|]. by rewrite IH. Qed.

Lemma scan_partition (text : list ascii) (p : Parser) :
  undecided p ->
  (emitted (snd (scan p text)), fst (scan p text))
  = partition 0 (in_think p) (buffer p ++ text).
Proof.
  revert p. induction text as [|c text IH]; intros p [Hp Hne].
  - cbn [scan fst snd emitted flat_map].
    rewrite app_nil_r, (partition_undecided _ _ Hp Hne). by destruct p.
  - pose proof (IH (fst (scan_char p c)) (scan_char_undecided p c)) as IH'.
    clear IH. rewrite scan_cons. cbn [fst snd]. rewrite emitted_app.
    revert IH'. unfold scan_char.
    destruct (bool_decide (buffer p ++ [c] = awaited (in_think p))) eqn:Hfull.
    { apply bool_decide_eq_true in Hfull. cbn [fst snd in_think buffer].
      intros IH'.
      change (buffer p ++ c :: text) with (buffer p ++ [c] ++ text).
      rewrite app_assoc, Hfull, partition_delimiter.
      cbn [app] in IH'. by rewrite <- IH'. }
    destruct (is_prefix (buffer p ++ [c]) (awaited (in_think p))) eqn:Hpre.
    { cbn [fst snd in_think buffer]. intros IH'.
      change (buffer p ++ c :: text) with (buffer p ++ [c] ++ text).
      rewrite app_assoc. by rewrite <- IH'. }
    rewrite (partition_failed_prefix _ _ _ _ Hp Hne Hpre).
    destruct (is_prefix [c] (awaited (in_think p))) eqn:Hc;
      cbn [fst snd in_think buffer]; intros IH'.
    + rewrite emitted_held. change ([c] ++ text) with (c :: text) in IH'.
      by rewrite <- IH'.
    + rewrite emitted_app, emitted_held.
      assert (Ascii.eqb c "<"%char = false) as Hlt.
      { destruct (awaited_shape (in_think p)) as (tail & E & _).
        rewrite E in Hc. cbn [is_prefix] in Hc.
        by destruct (Ascii.eqb c "<"%char). }
      rewrite (partition_plain_char _ _ _ Hlt). cbn [app] in IH'.
      rewrite <- IH'. unfold prepend. cbn [fst snd emitted flat_map app].
      by rewrite <- app_assoc.
Qed.

(** *** A feed that ends inside a delimiter *)

Lemma scan_plain (inside : bool) (body : list ascii) :
  plain body = true ->
  scan {| in_think := inside; buffer := [] |} body
  = ({| in_think := inside; buffer := [] |}, map (Emit (reading inside)) body).
Proof.
  induction body as [|a body IH]; simpl; [done|].
  intros [Ha Hb]%andb_prop. apply negb_true_iff in Ha.
  destruct (awaited_shape inside) as (tail & E & _).
  assert (scan_char {| in_think := inside; buffer := [] |} a
          = ({| in_think := inside; buffer := [] |}, [Emit (reading inside) a]))
    as ->.
  { unfold scan_char. cbn [buffer in_think app map].
    rewrite bool_decide_eq_false_2.
    - rewrite E. cbn [is_prefix]. by rewrite Ha.
    - rewrite E. intros [= -> _]. done. }
  by rewrite (IH Hb).
Qed.

Lemma scan_held (inside : bool) (b d : list ascii) :
  is_prefix (b ++ d) (awaited inside) = true -> b ++ d <> awaited inside ->
  scan {| in_think := inside; buffer := b |} d
  = ({| in_think := inside; buffer := b ++ d |}, []).
Proof.
  revert b. induction d as [|c d IH]; intros b Hp Hne; simpl.
  - by rewrite app_nil_r.
  - change (b ++ c :: d) with (b ++ [c] ++ d) in *. rewrite app_assoc in *.
    assert (scan_char {| in_think := inside; buffer := b |} c
            = ({| in_think := inside; buffer := b ++ [c] |}, [])) as ->.
    { unfold scan_char. cbn [buffer in_think].
      rewrite bool_decide_eq_false_2.
      - by rewrite (is_prefix_app_l _ _ _ Hp).
      - intros E. pose proof (proper_prefix_shorter _ _ Hp Hne) as Hl.
        rewrite <- E, length_app in Hl. lia. }
    by rewrite (IH _ Hp Hne).
Qed.

Lemma scan_completed (inside : bool) (b r : list ascii) :
  b ++ r = awaited inside -> r <> [] ->
  scan {| in_think := inside; buffer := b |} r
  = ({| in_think := negb inside; buffer := [] |}, [Boundary]).
Proof.
  revert b. induction r as [|c r IH]; intros b E Hne; [done|]. simpl.
  change (b ++ c :: r) with (b ++ [c] ++ r) in E. rewrite app_assoc in E.
  destruct r as [|c' r].
  - rewrite app_nil_r in E. unfold scan_char. cbn [buffer in_think].
    by rewrite bool_decide_eq_true_2.
  - assert (scan_char {| in_think := inside; buffer := b |} c
            = ({| in_think := inside; buffer := b ++ [c] |}, [])) as ->.
    { unfold scan_char. cbn [buffer in_think].
      rewrite bool_decide_eq_false_2.
      - rewrite <- E. by rewrite is_prefix_app.
      - intros E'. rewrite <- E' in E.
        apply (f_equal length) in E. rewrite length_app in E. simpl in E. lia. }
    by rewrite (IH _ E).
Qed.

Lemma chunks_of_emits (ty : ContentType) (body : list ascii) (ch : ContentChunk) :
  type ch = ty ->
  chunks_of (map (Emit ty) body) (Some ch)
  = [{| type := ty; content := content ch ++ body |}].
Proof.
  revert ch. induction body as [|a body IH]; intros ch <-; simpl.
  - rewrite app_nil_r. by destruct ch.
  - assert (type_eqb (type ch) (type ch) = true) as -> by (by destruct (type ch)).
    rewrite IH by done. simpl. by rewrite <- app_assoc.
Qed.

Lemma empty_undecided (inside : bool) :
  undecided {| in_think := inside; buffer := [] |}.
Proof. split; [done|]. by destruct inside. Qed.

Lemma feed_partition (p : Parser) (text : list ascii) :
  undecided p ->
  (typed (snd (feed p text)), fst (feed p text))
  = partition 0 (in_think p) (buffer p ++ text).
Proof.
  intros Hp. rewrite typed_feed, fst_feed. by apply scan_partition.
Qed.

(** C9.  Feeding a text in consecutive pieces leaves the parser in the
    state a single feed of the whole text leaves it in, and emits the
    same characters with the same types: the concatenated contents are
    equal and so are the segments between changes of type.  Both are
    what the partition of the whole text by its delimiters gives: the
    characters outside and inside the delimiter pairs, without the
    delimiters, and as buffer the rest of the text that is a proper
    prefix of the awaited delimiter.  A feed that ends inside a
    delimiter emits what stands before it and keeps the begun
    delimiter in the buffer; when the next feed completes the
    delimiter the mode changes and nothing of the delimiter is
    emitted, and when the next feed does not continue it the kept
    characters are emitted as content of the segment being read. *)
Theorem feeds_agree_with_single_feed (p : Parser) (pieces : list (list ascii)) :
  (fst (feed_all p pieces) = fst (feed p (concat pieces))
   /\ contents (snd (feed_all p pieces)) = contents (snd (feed p (concat pieces)))
   /\ typed (snd (feed_all p pieces)) = typed (snd (feed p (concat pieces)))
   /\ by_type (snd (feed_all p pieces)) = by_type (snd (feed p (concat pieces))))
  /\ (undecided p ->
      (typed (snd (feed_all p pieces)), fst (feed_all p pieces))
      = partition 0 (in_think p) (buffer p ++ concat pieces)
      /\ undecided (fst (feed_all p pieces)))
  /\ (forall inside body d,
        plain body = true ->
        is_prefix d (awaited inside) = true -> d <> awaited inside ->
        feed {| in_think := inside; buffer := [] |} (body ++ d)
        = ({| in_think := inside; buffer := d |},
           match body with
           | [] => []
           | _ => [{| type := reading inside; content := body |}]
           end))
  /\ (forall inside d r more,
        d ++ r = awaited inside -> r <> [] ->
        feed {| in_think := inside; buffer := d |} (r ++ more)
        = feed {| in_think := negb inside; buffer := [] |} more)
  /\ (forall inside d c more,
        is_prefix d (awaited inside) = true -> d <> awaited inside ->
        is_prefix (d ++ [c]) (awaited inside) = false ->
        typed (snd (feed {| in_think := inside; buffer := d |} (c :: more)))
        = map (pair (reading inside)) d
          ++ typed (snd (feed {| in_think := inside; buffer := [] |} (c :: more)))
        /\ fst (feed {| in_think := inside; buffer := d |} (c :: more))
           = fst (feed {| in_think := inside; buffer := [] |} (c :: more))).
Proof.
  destruct (feed_all_scan p pieces) as [Hst Hty].
  assert (typed (snd (feed_all p pieces)) = typed (snd (feed p (concat pieces))))
    as Htyped by (by rewrite Hty, typed_feed).
  split; [|split; [|split; [|split]]].
  - split; [by rewrite Hst, fst_feed|].
    split; [by rewrite !contents_typed, Htyped|].
    split; [done|]. unfold by_type. by rewrite Htyped.
  - intros Hp. split.
    + rewrite Hty, Hst. by apply scan_partition.
    + rewrite Hst. by apply scan_undecided.
  - intros inside body d Hbody Hd Hne. unfold feed.
    rewrite scan_app, (scan_plain inside body Hbody). cbn [fst snd].
    rewrite (scan_held inside [] d) by done. cbn [fst snd app].
    rewrite app_nil_r. destruct body as [|a body]; [done|].
    cbn [map chunks_of].
    by rewrite (chunks_of_emits (reading inside) body).
  - intros inside d r more E Hr. unfold feed.
    rewrite scan_app, (scan_completed inside d r E Hr). cbn [fst snd].
    destruct (scan {| in_think := negb inside; buffer := [] |} more) as [p2 e2].
    done.
  - intros inside d c more Hd Hne Hc.
    pose proof (feed_partition {| in_think := inside; buffer := d |} (c :: more)
                  (conj Hd Hne)) as H1.
    pose proof (feed_partition {| in_think := inside; buffer := [] |} (c :: more)
                  (empty_undecided inside)) as H2.
    cbn [in_think buffer app] in H1, H2.
    rewrite (partition_failed_prefix _ _ _ _ Hd Hne Hc), <- H2 in H1.
    unfold prepend in H1. cbn [fst snd] in H1. by injection H1.
Qed.

(** The streaming case of the tests: [Hello <thi] is fed first, and
    [<thi] waits in the buffer for [nk>reasoning</think>]. *)
Lemma feeds_agree_with_single_feed_witness :
  let pieces := [s "Hello <thi"; s "nk>reasoning</think>"] in
  feed new_parser (s "Hello " ++ s "<thi")
  = ({| in_think := false; buffer := s "<thi" |},
     [{| type := TEXT; content := s "Hello " |}])
  /\ feed {| in_think := false; buffer := s "<thi" |}
       (s "nk>" ++ s "reasoning</think>")
     = feed {| in_think := true; buffer := [] |} (s "reasoning</think>")
  /\ (typed (snd (feed_all new_parser pieces)), fst (feed_all new_parser pieces))
     = (map (pair TEXT) (s "Hello ") ++ map (pair THINKING) (s "reasoning"),
        new_parser)
  /\ by_type (snd (feed_all new_parser pieces))
     = [{| type := TEXT; content := s "Hello " |};
        {| type := THINKING; content := s "reasoning" |}].
Proof.
  intros pieces.
  destruct (feeds_agree_with_single_feed new_parser pieces)
    as ((_ & _ & _ & Hby) & Hpart & Hmid & Hdone & _).
  split; [|split; [|split]].
  - apply (Hmid false (s "Hello ") (s "<thi")); [reflexivity|reflexivity|].
    discriminate.
  - apply (Hdone false (s "<thi") (s "nk>") (s "reasoning</think>"));
      [reflexivity|discriminate].
  - rewrite (proj1 (Hpart (empty_undecided false))). reflexivity.
  - rewrite Hby. reflexivity.
Defined.

(** The tests of [test_parsers.py] for the extractor. *)
Lemma test_think_tag_parser_basic :
  snd (feed new_parser (s "Hello <think>reasoning</think> world"))
  = [{| type := TEXT; content := s "Hello " |};
     {| type := THINKING; content := s "reasoning" |};
     {| type := TEXT; content := s " world" |}].
Proof. reflexivity. Qed.

Lemma test_partial_interleaved_streaming :
  feed new_parser (s "<think>Part 1")
  = ({| in_think := true; buffer := [] |},
     [{| type := THINKING; content := s "Part 1" |}])
  /\ snd (feed {| in_think := true; buffer := [] |} (s " ends</think> ● <func"))
     = [{| type := THINKING; content := s " ends" |};
        {| type := TEXT; content := s " ● <func" |}].
Proof. split; reflexivity. Qed.

End ThinkParserFacts.

(** ** The event classifier: deltas, block starts, errors, chunk shape *)

Module CLIParserMore.
Import Py CLIParser Chunk CLIParserFacts.

Lemma resolve_message_other (ev : dict) :
  eq_str (get ev "type") "assistant" = false ->
  eq_str (get ev "type") "result" = false ->
  resolve_message ev = VNone.
Proof. intros H1 H2. unfold resolve_message. by rewrite H1, H2. Qed.

Lemma parse_event_rest (py_str : value -> string) (ev : dict) :
  eq_str (get ev "type") "assistant" = false ->
  eq_str (get ev "type") "result" = false ->
  parse_event py_str (VDict ev) = parse_rest py_str ev.
Proof.
  intros H1 H2. unfold parse_event. rewrite resolve_message_other by done.
  simpl. by destruct (parse_rest py_str ev).
Qed.

(** X1.  A streaming delta event yields the chunk of its delta alone:
    a text delta gives a [content] chunk and a thinking delta a
    [thinking] chunk, each with the delta's payload ([""] when it has
    none); a delta of another type, or one that is not a dict, gives
    no chunk.  A [message] the event may carry is not looked at. *)
Theorem parse_event_delta (py_str : value -> string) (ev : dict) :
  get ev "type" = VStr "content_block_delta" ->
  (forall delta, get_default ev "delta" (VDict []) = VDict delta ->
     (get delta "type" = VStr "text_delta" ->
      parse_event py_str (VDict ev)
      = Return (Some (VDict [("type", VStr "content");
                             ("text", get_default delta "text" (VStr ""))])))
     /\ (get delta "type" = VStr "thinking_delta" ->
         parse_event py_str (VDict ev)
         = Return (Some (VDict [("type", VStr "thinking");
                                ("text", get_default delta "thinking" (VStr ""))])))
     /\ (eq_str (get delta "type") "text_delta" = false ->
         eq_str (get delta "type") "thinking_delta" = false ->
         parse_event py_str (VDict ev) = Return None))
  /\ (isinstance_dict (get_default ev "delta" (VDict [])) = false ->
      parse_event py_str (VDict ev) = Return None).
Proof.
  intros Ht. rewrite parse_event_rest by (by rewrite Ht).
  unfold parse_rest. rewrite Ht. simpl. split.
  - intros delta ->. split; [|split].
    + by intros ->.
    + by intros ->.
    + by intros -> ->.
  - by destruct (get_default ev "delta" (VDict [])).
Qed.

Lemma parse_event_delta_witness :
  parse_event (fun _ => "") (VDict ev_text_delta)
  = Return (Some (VDict [("type", VStr "content"); ("text", VStr "Hi")])).
Proof.
  apply (proj1 (parse_event_delta (fun _ => "") ev_text_delta eq_refl)
           [("type", VStr "text_delta"); ("text", VStr "Hi")] eq_refl).
  reflexivity.
Defined.

(** X2.  A block-start event yields a chunk only for a tool-use block:
    for the [Task] tool a [subagent_start] with the one description the
    block's input carries ([Subagent] when it carries none), for any
    other tool a [tool_start] with the block itself; any other block,
    or one that is not a dict, gives no chunk. *)
Theorem parse_event_block_start (py_str : value -> string) (ev : dict) :
  get ev "type" = VStr "content_block_start" ->
  (forall block, get_default ev "content_block" (VDict []) = VDict block ->
     (get block "type" = VStr "tool_use" -> get block "name" = VStr "Task" ->
      forall inp, get_default block "input" (VDict []) = VDict inp ->
      parse_event py_str (VDict ev)
      = Return (Some (VDict [("type", VStr "subagent_start");
                             ("tasks",
                              VList [get_default inp "description"
                                       (VStr "Subagent")])])))
     /\ (get block "type" = VStr "tool_use" ->
         eq_str (get block "name") "Task" = false ->
         parse_event py_str (VDict ev)
         = Return (Some (VDict [("type", VStr "tool_start");
                                ("tools", VList [VDict block])])))
     /\ (eq_str (get block "type") "tool_use" = false ->
         parse_event py_str (VDict ev) = Return None))
  /\ (isinstance_dict (get_default ev "content_block" (VDict [])) = false ->
      parse_event py_str (VDict ev) = Return None).
Proof.
  intros Ht. rewrite parse_event_rest by (by rewrite Ht).
  unfold parse_rest. rewrite Ht. simpl. split.
  - intros block ->. split; [|split].
    + by intros -> -> inp ->.
    + by intros -> ->.
    + by intros ->.
  - by destruct (get_default ev "content_block" (VDict [])).
Qed.

Lemma parse_event_block_start_witness :
  parse_event (fun _ => "") (VDict ev_block_task)
  = Return (Some (VDict [("type", VStr "subagent_start");
                         ("tasks", VList [VStr "explore the repo"])])).
Proof.
  apply (proj1 (proj1 (parse_event_block_start (fun _ => "") ev_block_task eq_refl)
                  [("type", VStr "tool_use"); ("name", VStr "Task");
                   ("input", VDict [("description", VStr "explore the repo")])]
                  eq_refl)
           eq_refl eq_refl [("description", VStr "explore the repo")] eq_refl).
Defined.

(** X3.  An error event always yields an [error] chunk.  Its message is
    the [message] entry of the error when the error is a dict ([None]
    when the dict has no such entry), and [str] of the error otherwise,
    also when the event has no error at all. *)
Theorem parse_event_error (py_str : value -> string) (ev : dict) :
  get ev "type" = VStr "error" ->
  (forall err, get ev "error" = VDict err ->
     parse_event py_str (VDict ev)
     = Return (Some (VDict [("type", VStr "error");
                            ("message", get err "message")])))
  /\ (isinstance_dict (get ev "error") = false ->
      parse_event py_str (VDict ev)
      = Return (Some (VDict [("type", VStr "error");
                             ("message", VStr (py_str (get ev "error")))])))
  /\ (lookup_key "error" ev = None ->
      parse_event py_str (VDict ev)
      = Return (Some (VDict [("type", VStr "error");
                             ("message", VStr (py_str VNone))]))).
Proof.
  intros Ht. rewrite parse_event_rest by (by rewrite Ht).
  unfold parse_rest. rewrite Ht. simpl. split; [|split].
  - by intros err ->.
  - by destruct (get ev "error").
  - intros Hn. unfold get. by rewrite Hn.
Qed.

Lemma parse_event_error_witness :
  parse_event (fun _ => "") (VDict ev_error)
  = Return (Some (VDict [("type", VStr "error");
                         ("message", VStr "backend crashed")])).
Proof.
  apply (proj1 (parse_event_error (fun _ => "") ev_error eq_refl)
           [("message", VStr "backend crashed")] eq_refl).
Defined.

Lemma tool_uses_dicts (content : list value) :
  Forall (fun t => isinstance_dict t = true) (tool_uses content).
Proof.
  apply List.Forall_forall. intros t [_ Ht]%List.filter_In.
  by destruct t.
Qed.

Lemma parse_content_shape (content : list value) (chunk : value) :
  parse_content content = Return (Some chunk) -> well_formed chunk.
Proof.
  unfold parse_content. rewrite scan_content_spec.
  pose proof (tool_uses_dicts content) as Hd.
  destruct (tool_uses content) as [|t tools].
  - destruct (thinking_values content) as [|th ths].
    + destruct (text_values content) as [|tx txs]; cbn [bind]; [done|].
      destruct (join "" (tx :: txs)) as [s|e]; cbn [bind]; [|done].
      intros [= <-]. eexists. split; [done|]. do 2 right. by left.
    + destruct (join (String "010" "") (th :: ths)) as [s|e];
        cbn [bind]; [|done].
      destruct (text_values content) as [|tx txs]; cbn [bind].
      * intros [= <-]. eexists. split; [done|]. do 2 right. by left.
      * destruct (join "" (tx :: txs)) as [s'|e]; cbn [bind]; [|done].
        intros [= <-]. eexists. split; [done|]. do 2 right. by left.
  - destruct (subagents_of (t :: tools)) as [[|d ds]|e]; cbn [bind]; [| |done].
    + intros [= <-]. eexists. split; [done|]. right. left.
      split; [done|]. exists (t :: tools). by repeat split.
    + intros [= <-]. eexists. split; [done|]. left.
      split; [done|]. exists (d :: ds). by split.
Qed.

Lemma parse_rest_shape (py_str : value -> string) (ev : dict) (chunk : value) :
  parse_rest py_str ev = Return (Some chunk) -> well_formed chunk.
Proof.
  unfold parse_rest.
  destruct (get ev "type") as [| | | |ty| |]; simpl; try done.
  destruct (String.eqb_spec ty "content_block_delta") as [->|_]; simpl.
  { destruct (get_default ev "delta" (VDict [])) as [| | | | | |delta];
      simpl; try done.
    destruct (eq_str (get delta "type") "text_delta"); simpl.
    { intros [= <-]. eexists. split; [done|]. do 2 right. by left. }
    destruct (eq_str (get delta "type") "thinking_delta"); simpl; [|done].
    intros [= <-]. eexists. split; [done|]. do 3 right. by left. }
  destruct (String.eqb_spec ty "content_block_start") as [->|_]; simpl.
  { destruct (get_default ev "content_block" (VDict []))
      as [| | | | | |block]; simpl; try done.
    destruct (eq_str (get block "type") "tool_use"); simpl; [|done].
    destruct (eq_str (get block "name") "Task"); simpl.
    - destruct (get_default block "input" (VDict [])); simpl; try done.
      intros [= <-]. eexists. split; [done|]. left.
      split; [done|]. eexists. by split.
    - intros [= <-]. eexists. split; [done|]. right. left.
      split; [done|]. eexists. split; [done|]. split; [done|].
      by repeat constructor. }
  destruct (String.eqb ty "error"); simpl.
  { intros [= <-]. eexists. split; [done|]. do 4 right. by left. }
  destruct (String.eqb ty "exit"); simpl; [|done].
  intros [= <-]. eexists. split; [done|]. do 5 right.
  split; [done|]. simpl. destruct (eq_zero (get ev "code")); auto.
Qed.

(** X4.  Every chunk [parse_event] returns is a dict that the handler
    can index: its [type] is [subagent_start] (with a non-empty [tasks]
    list), [tool_start] (with a non-empty [tools] list of dicts),
    [content] (with [thinking] or [text]), [thinking] (with [text]),
    [error] (with [message]) or [complete] (with [status] [success] or
    [failed]). *)
Theorem parse_event_chunk_shape (py_str : value -> string) (event chunk : value) :
  parse_event py_str event = Return (Some chunk) -> well_formed chunk.
Proof.
  unfold parse_event. destruct event as [| | | | | |ev]; try done.
  destruct (resolve_message ev) as [| | | | | |m] eqn:Em; cbn [bind];
    try apply parse_rest_shape.
  destruct (truthy (VDict m)); cbn [bind]; [|apply parse_rest_shape].
  destruct (get_default m "content" (VList [])) as [| | | | |content|];
    cbn [bind]; try apply parse_rest_shape.
  destruct (parse_content content) as [[c|]|e] eqn:Ec; cbn [bind]; [| |done].
  - intros [= <-]. by eapply parse_content_shape.
  - apply parse_rest_shape.
Qed.

Lemma parse_event_chunk_shape_witness :
  well_formed (VDict [("type", VStr "subagent_start");
                      ("tasks", VList [VStr "explore the repo";
                                       VStr "Subagent"])]).
Proof.
  apply (parse_event_chunk_shape (fun _ => "") (VDict ev_two_tasks)).
  reflexivity.
Defined.

(** X5.  [parse_event] returns, without raising, on every event in
    which each [Task] tool-use item and block has a dict (or no)
    [input] and each text and thinking item of the message has a string
    payload. *)
Theorem parse_event_total_on_shaped_events (py_str : value -> string)
    (ev : dict) :
  (forall m content,
      resolve_message ev = VDict m ->
      get_default m "content" (VList []) = VList content ->
      Forall input_is_dict (List.filter names_task (tool_uses content))
      /\ (exists ths, thinking_values content = map VStr ths)
      /\ (exists txs, text_values content = map VStr txs)) ->
  (forall block,
      get_default ev "content_block" (VDict []) = VDict block ->
      isinstance_dict (get_default block "input" (VDict [])) = true) ->
  exists r, parse_event py_str (VDict ev) = Return r.
Proof. apply parse_event_returns. Qed.

Lemma parse_event_total_on_shaped_events_witness :
  exists r, parse_event (fun _ => "") (VDict ev_prose) = Return r.
Proof.
  apply (parse_event_total_on_shaped_events (fun _ => "") ev_prose).
  - intros m content Hm Hc. vm_compute in Hm. injection Hm as <-.
    vm_compute in Hc. injection Hc as <-. split; [constructor|]. split.
    + exists ["plan"; "check"]. reflexivity.
    + exists ["Hello, "; "world"]. reflexivity.
  - intros block Hb. vm_compute in Hb. injection Hb as <-. reflexivity.
Defined.

(** X6.  An event that is not a dict, or whose [type] is none of
    [assistant], [result], [content_block_delta], [content_block_start],
    [error] and [exit] (a [session_info] event, say, or one without a
    type), yields no chunk. *)
Theorem parse_event_none_of_the_rules (py_str : value -> string) :
  (forall event, isinstance_dict event = false ->
                 parse_event py_str event = Return None)
  /\ (forall ev,
        (forall ty, In ty ["assistant"; "result"; "content_block_delta";
                           "content_block_start"; "error"; "exit"] ->
                    eq_str (get ev "type") ty = false) ->
        parse_event py_str (VDict ev) = Return None).
Proof.
  split.
  - apply parse_event_not_dict.
  - apply parse_event_unrecognized.
Qed.

Lemma parse_event_none_of_the_rules_witness :
  parse_event (fun _ => "") (VStr "ping") = Return None
  /\ parse_event (fun _ => "") (VDict ev_ping) = Return None.
Proof.
  destruct (parse_event_none_of_the_rules (fun _ => "")) as [Hnd Hun].
  split.
  - apply Hnd. reflexivity.
  - apply Hun. intros ty Hty. simpl in Hty.
    repeat (destruct Hty as [<-|Hty]; [reflexivity|]). destruct Hty.
Defined.

End CLIParserMore.

(** ** The session queue manager: unknown sessions, independence, draining *)

Module QueueMore.
Import Queue Tracking QueueFacts.
Local Open Scope list_scope.

(** X7.  A session the manager has never seen is not busy, has nothing
    queued, and cancelling it returns nothing and changes nothing; its
    first message is started at once and makes the session known. *)
Theorem unknown_session (sid : string) (st : State) :
  dict_lookup sid (_queues st) = None ->
  is_session_busy sid st = false
  /\ get_queue_size sid st = 0
  /\ cancel_session sid st = (st, [])
  /\ forall m, snd (enqueue sid m st) = false
               /\ is_session_busy sid (fst (enqueue sid m st)) = true
               /\ In sid (keys (_queues (fst (enqueue sid m st)))).
Proof.
  intros Hn. unfold is_session_busy, get_queue_size, cancel_session.
  rewrite Hn. repeat split.
  - rewrite enqueue_result. unfold is_session_busy. by rewrite Hn.
  - rewrite enqueue_lookup, String.eqb_refl. unfold session_or_new.
    by rewrite Hn.
  - destruct (in_dec string_dec sid (keys (_queues (fst (enqueue sid m st)))))
      as [|Hnin]; [done|].
    apply dict_lookup_keys in Hnin.
    rewrite enqueue_lookup, String.eqb_refl in Hnin. done.
Qed.

Lemma unknown_session_witness :
  is_session_busy "nonexistent" init = false
  /\ get_queue_size "nonexistent" init = 0
  /\ cancel_session "nonexistent" init = (init, [])
  /\ forall m, snd (enqueue "nonexistent" m init) = false
               /\ is_session_busy "nonexistent"
                    (fst (enqueue "nonexistent" m init)) = true
               /\ In "nonexistent"
                    (keys (_queues (fst (enqueue "nonexistent" m init)))).
Proof. apply (unknown_session "nonexistent" init). reflexivity. Defined.

Lemma run_task_lookup_other (tid : nat) (t : Task) (sid' : string) (st : State) :
  tasks st !! tid = Some t -> t_session t <> sid' ->
  dict_lookup sid' (_queues (run_task tid st)) = dict_lookup sid' (_queues st).
Proof.
  intros Ht Hne. unfold run_task. rewrite Ht.
  destruct (t_phase t); [| |done].
  - destruct (t_cancel t); [done|]. unfold _process_message_start.
    destruct (dict_lookup (t_session t) (_queues st)); simpl; [|done].
    by rewrite dict_lookup_set_ne.
  - unfold _process_message_finish, _process_next.
    destruct (dict_lookup (t_session t) (_queues st)) as [sq|] eqn:Hsq; simpl.
    + rewrite dict_lookup_set_eq. simpl.
      destruct (queue sq); simpl; by rewrite !dict_lookup_set_ne.
    + by rewrite Hsq.
Qed.

Lemma run_task_tasks_other (tid tid' : nat) (t' : Task) (st : State) :
  tid <> tid' -> tasks st !! tid' = Some t' ->
  tasks (run_task tid st) !! tid' = Some t'.
Proof.
  intros Hne Ht'. unfold run_task.
  destruct (tasks st !! tid) as [t|] eqn:Ht; [|done].
  destruct (t_phase t); [| |done].
  - destruct (t_cancel t); simpl.
    + by rewrite list_lookup_insert_ne.
    + unfold _process_message_start.
      destruct (dict_lookup (t_session t) (_queues st)); simpl;
        by rewrite list_lookup_insert_ne.
  - unfold _process_message_finish, _process_next.
    destruct (dict_lookup (t_session t) (_queues st)) as [sq|] eqn:Hsq; simpl.
    + rewrite dict_lookup_set_eq. simpl.
      destruct (queue sq); simpl; rewrite list_lookup_insert_ne by done;
        [done|].
      rewrite lookup_app_l; [done|]. by eapply lookup_lt_Some.
    + rewrite Hsq. simpl. by rewrite list_lookup_insert_ne.
Qed.

(** X8.  Conversations do not interfere.  Enqueueing for a session,
    cancelling it, or running one of its tasks leaves the queue, busy
    flag, current task and current message of every other session as
    they were, and leaves every other task as it was: [enqueue] touches
    no existing task, a task step only the task run, and
    [cancel_session] only the current task of the cancelled session. *)
Theorem sessions_do_not_interfere (sid sid' : string) (st : State) :
  sid <> sid' ->
  (forall m,
      dict_lookup sid' (_queues (fst (enqueue sid m st)))
      = dict_lookup sid' (_queues st)
      /\ forall tid' t', tasks st !! tid' = Some t' ->
                         tasks (fst (enqueue sid m st)) !! tid' = Some t')
  /\ (dict_lookup sid' (_queues (fst (cancel_session sid st)))
      = dict_lookup sid' (_queues st)
      /\ forall tid' t' sq,
          dict_lookup sid (_queues st) = Some sq ->
          current_task sq <> Some tid' ->
          tasks st !! tid' = Some t' ->
          tasks (fst (cancel_session sid st)) !! tid' = Some t')
  /\ (forall tid t,
        tasks st !! tid = Some t -> t_session t = sid ->
        dict_lookup sid' (_queues (run_task tid st))
        = dict_lookup sid' (_queues st)
        /\ forall tid' t', tid' <> tid -> tasks st !! tid' = Some t' ->
                           tasks (run_task tid st) !! tid' = Some t').
Proof.
  intros Hne. split; [|split].
  - intros m. split.
    + rewrite enqueue_lookup. by destruct (String.eqb_spec sid sid').
    + intros tid' t' Ht'. rewrite enqueue_tasks.
      destruct (is_session_busy sid st); [done|].
      rewrite lookup_app_l; [done|]. by eapply lookup_lt_Some.
  - split.
    + rewrite cancel_session_lookup. by destruct (String.eqb_spec sid sid').
    + intros tid' t' sq Hsq Hcur Ht'. rewrite cancel_session_tasks, Hsq.
      destruct (current_task sq) as [tid|]; [|done].
      destruct (task_done tid st); [done|].
      unfold cancel_task. destruct (tasks st !! tid); [|done]. simpl.
      rewrite list_lookup_insert_ne; [done|]. congruence.
  - intros tid t Ht Hs. split.
    + apply (run_task_lookup_other tid t); congruence.
    + intros tid' t' Hn Ht'. by apply run_task_tasks_other.
Qed.

Lemma sessions_do_not_interfere_witness :
  dict_lookup "b" (_queues (fst (cancel_session "a" two_sessions)))
  = dict_lookup "b" (_queues two_sessions)
  /\ dict_lookup "b" (_queues (run_task 0 two_sessions))
     = dict_lookup "b" (_queues two_sessions).
Proof.
  destruct (sessions_do_not_interfere "a" "b" two_sessions) as (_ & Hc & Hr).
  { discriminate. }
  split; [apply Hc|].
  eapply (Hr 0); reflexivity.
Defined.

(** X9.  When the processor of a task ends, the task is done and the
    conversation is drained by one: with nothing queued the
    conversation is marked free and no task is created; otherwise the
    head of the queue is taken off and a new task for it becomes the
    current task, the busy flag staying as it was and the current
    message cleared until that task starts. *)
Theorem finished_task_drains_queue (tid : nat) (t : Task) (sq : SessionQueue)
    (st : State) :
  tasks st !! tid = Some t -> t_phase t = Running ->
  dict_lookup (t_session t) (_queues st) = Some sq ->
  (exists t', tasks (run_task tid st) !! tid = Some t' /\ done t' = true)
  /\ (queue sq = [] ->
      is_session_busy (t_session t) (run_task tid st) = false
      /\ queued (t_session t) (run_task tid st) = []
      /\ length (tasks (run_task tid st)) = length (tasks st))
  /\ (forall m rest, queue sq = m :: rest ->
      is_session_busy (t_session t) (run_task tid st) = is_processing sq
      /\ queued (t_session t) (run_task tid st) = rest
      /\ tasks (run_task tid st) !! length (tasks st)
         = Some (fresh_task (t_session t) m)
      /\ exists sq', dict_lookup (t_session t) (_queues (run_task tid st))
                     = Some sq'
                     /\ current_task sq' = Some (length (tasks st))
                     /\ current_message sq' = None).
Proof.
  intros Ht Hp Hsq. pose proof (lookup_lt_Some _ _ _ Ht) as Hlt.
  split; [|split].
  - destruct (queue sq) as [|m rest] eqn:Hq.
    + rewrite (run_task_finish_idle tid t sq st Ht Hp Hsq Hq). simpl.
      eexists. by rewrite list_lookup_insert_eq.
    + rewrite (run_task_finish_next tid t sq m rest st Ht Hp Hsq Hq). simpl.
      eexists. rewrite list_lookup_insert_eq; [done|].
      rewrite length_app. lia.
  - intros Hq. rewrite (run_task_finish_idle tid t sq st Ht Hp Hsq Hq).
    unfold is_session_busy, queued. simpl.
    rewrite dict_lookup_set_eq, length_insert. simpl. by rewrite Hq.
  - intros m rest Hq.
    rewrite (run_task_finish_next tid t sq m rest st Ht Hp Hsq Hq).
    unfold is_session_busy, queued. simpl. rewrite dict_lookup_set_eq. simpl.
    repeat split.
    + rewrite list_lookup_insert_ne by lia.
      by rewrite lookup_app_r, Nat.sub_diag.
    + eexists. by repeat split.
Qed.

Lemma finished_task_drains_queue_witness :
  is_session_busy "s" (run_task 0 busy_state) = true
  /\ queued "s" (run_task 0 busy_state) = []
  /\ tasks (run_task 0 busy_state) !! 1
     = Some (fresh_task "s" (sample_message "2")).
Proof.
  destruct (finished_task_drains_queue 0
              {| t_session := "s"; t_message := sample_message "1";
                 t_phase := Running; t_cancel := false |}
              {| session_id := "s"; queue := [sample_message "2"];
                 is_processing := true; current_task := Some 0;
                 current_message := Some (sample_message "1") |}
              busy_state eq_refl eq_refl eq_refl) as (_ & _ & Hnext).
  destruct (Hnext (sample_message "2") [] eq_refl) as (Hb & Hq & Ht & _).
  split; [exact Hb|]. split; [exact Hq|exact Ht].
Defined.

Lemma dict_set_keys_incl {V : Type} (k x : string) (v : V)
    (d : list (string * V)) :
  In x (keys d) -> In x (keys (dict_set k v d)).
Proof.
  intros Hx. destruct (dict_lookup k d) as [v0|] eqn:Hk.
  - by rewrite (keys_set_present d k v v0 Hk).
  - rewrite (keys_set_absent d k v Hk). apply in_or_app. by left.
Qed.

Lemma step_keys_incl (st : State) (a : action) (x : string) :
  In x (keys (_queues st)) -> In x (keys (_queues (step st a))).
Proof.
  intros Hx. destruct a as [sid m|tid|sid|]; simpl.
  - unfold enqueue, _get_or_create_queue.
    destruct (dict_lookup sid (_queues st)) as [sq|]; simpl.
    + destruct (is_processing sq); simpl; repeat apply dict_set_keys_incl; done.
    + repeat apply dict_set_keys_incl; done.
  - unfold run_task. destruct (tasks st !! tid) as [t|]; [|done].
    destruct (t_phase t); [| |done].
    + destruct (t_cancel t); [done|]. unfold _process_message_start.
      destruct (dict_lookup (t_session t) (_queues st)); simpl;
        repeat apply dict_set_keys_incl; done.
    + unfold _process_message_finish, _process_next.
      destruct (dict_lookup (t_session t) (_queues st)) as [sq|] eqn:Hsq; simpl.
      * rewrite dict_lookup_set_eq. simpl.
        destruct (queue sq); simpl; repeat apply dict_set_keys_incl; done.
      * by rewrite Hsq.
  - by rewrite cancel_session_keys.
  - unfold cancel_all. by rewrite cancel_each_keys.
Qed.

Lemma run_keys_incl (acts : list action) (st : State) (x : string) :
  In x (keys (_queues st)) -> In x (keys (_queues (run acts st))).
Proof.
  revert st. induction acts as [|a acts IH]; intros st Hx; simpl; [done|].
  apply IH. by apply step_keys_incl.
Qed.

(** X10.  Sessions are never reaped: whatever is enqueued, run or
    cancelled afterwards, a session the manager knows stays in
    [_queues], and so does every session a message was enqueued for. *)
Theorem sessions_are_never_reaped (acts : list action) (st : State)
    (sid : string) :
  (In sid (keys (_queues st)) -> In sid (keys (_queues (run acts st))))
  /\ ((exists m, In (Enqueue sid m) acts) ->
      In sid (keys (_queues (run acts st)))).
Proof.
  split; [apply run_keys_incl|].
  revert st. induction acts as [|a acts IH]; intros st [m Hm]; simpl in *;
    [done|].
  destruct Hm as [->|Hm]; [|apply IH; eauto].
  apply run_keys_incl. simpl.
  destruct (in_dec string_dec sid (keys (_queues (fst (enqueue sid m st)))))
    as [|Hnin]; [done|].
  apply dict_lookup_keys in Hnin.
  rewrite enqueue_lookup, String.eqb_refl in Hnin. done.
Qed.

Lemma sessions_are_never_reaped_witness :
  In "a" (keys (_queues (run [CancelAll; RunTask 0; RunTask 1] two_sessions))).
Proof.
  apply (proj1 (sessions_are_never_reaped [CancelAll; RunTask 0; RunTask 1]
                  two_sessions "a")).
  left. reflexivity.
Defined.

(** X11.  A message whose task has been created but has not started
    when the conversation is cancelled is dropped silently: the
    cancellation does not report it, and when the event loop gets to
    the task it ends without entering the processor (the queues are
    untouched and the task is done). *)
Theorem cancel_before_start_drops_message (sid : string) (m : QueuedMessage)
    (st : State) :
  is_session_busy sid st = false ->
  queued sid st = [] ->
  current_message (session_or_new sid st) = None ->
  snd (cancel_session sid (fst (enqueue sid m st))) = []
  /\ run_task (length (tasks st)) (fst (cancel_session sid (fst (enqueue sid m st))))
     = {| _queues := _queues (fst (cancel_session sid (fst (enqueue sid m st))));
          tasks := tasks st
                   ++ [{| t_session := sid; t_message := m; t_phase := Done;
                          t_cancel := false |}] |}.
Proof.
  intros Hb Hq Hm.
  assert (dict_lookup sid (_queues (fst (enqueue sid m st)))
          = Some (set_current_task (Some (length (tasks st)))
                    (set_is_processing true (session_or_new sid st)))) as Hl.
  { rewrite enqueue_lookup, String.eqb_refl.
    by rewrite is_session_busy_session_or_new, Hb. }
  assert (tasks (fst (enqueue sid m st)) = tasks st ++ [fresh_task sid m]) as Ht.
  { by rewrite enqueue_tasks, Hb. }
  assert (queue (session_or_new sid st) = []) as Hq'.
  { unfold session_or_new, queued in *.
    by destruct (dict_lookup sid (_queues st)). }
  assert (task_done (length (tasks st)) (fst (enqueue sid m st)) = false) as Hd.
  { unfold task_done. by rewrite Ht, lookup_app_r, Nat.sub_diag. }
  assert (tasks (fst (cancel_session sid (fst (enqueue sid m st))))
          = tasks st ++ [set_cancel true (fresh_task sid m)]) as Ht'.
  { rewrite cancel_session_tasks, Hl. simpl. rewrite Hd.
    unfold cancel_task. rewrite Ht, lookup_app_r, Nat.sub_diag by done. simpl.
    apply list_eq. intros i.
    destruct (decide (i = length (tasks st))) as [->|Hne].
    - rewrite list_lookup_insert_eq by (rewrite length_app; simpl; lia).
      by rewrite lookup_app_r, Nat.sub_diag.
    - rewrite list_lookup_insert_ne by done.
      destruct (decide (i < length (tasks st))).
      + by rewrite !lookup_app_l.
      + rewrite !lookup_app_r by lia.
        destruct (i - length (tasks st)) eqn:E; [lia|done]. }
  split.
  - rewrite cancel_session_result. unfold reported_message, queued.
    rewrite Hl. simpl. by rewrite Hd, Hm, Hq'.
  - unfold run_task. rewrite Ht', lookup_app_r, Nat.sub_diag by done. simpl.
    unfold with_tasks. simpl. f_equal.
    apply list_eq. intros i.
    destruct (decide (i = length (tasks st))) as [->|Hne].
    + rewrite list_lookup_insert_eq by (rewrite length_app; simpl; lia).
      by rewrite lookup_app_r, Nat.sub_diag.
    + rewrite list_lookup_insert_ne by done.
      destruct (decide (i < length (tasks st))).
      * by rewrite !lookup_app_l.
      * rewrite !lookup_app_r by lia.
        destruct (i - length (tasks st)) eqn:E; [lia|done].
Qed.

Lemma cancel_before_start_drops_message_witness :
  snd (cancel_session "s" (fst (enqueue "s" (sample_message "1") init))) = [].
Proof.
  apply (cancel_before_start_drops_message "s" (sample_message "1") init);
    reflexivity.
Defined.

(** X12.  In a state reached by enqueueing and running tasks,
    [cancel_session] reports exactly what is lost: the message of the
    conversation's unfinished task when that task is inside the
    processor, followed by the queued messages; for an idle
    conversation it reports nothing. *)
Theorem cancel_reports_running_message (acts : list action) (sid : string) :
  forallb (fun a => negb (is_cancel a)) acts = true ->
  (forall tid t,
      tasks (run acts init) !! tid = Some t -> owns sid t = true ->
      snd (cancel_session sid (run acts init))
      = match t_phase t with
        | Running => [t_message t]
        | _ => []
        end ++ queued sid (run acts init))
  /\ (is_session_busy sid (run acts init) = false ->
      snd (cancel_session sid (run acts init)) = []).
Proof.
  intros Hall.
  destruct (run_tracked acts init init_single_flight init_tracked Hall)
    as [[Hown Hbusy Hidle Hcan] Htr].
  set (st := run acts init) in *. split.
  - intros tid t Ht [Hs Hd%negb_true_iff]%andb_prop.
    apply String.eqb_eq in Hs.
    destruct (Hown _ _ Ht Hd) as (sq & Hsq & Hp & Hc). rewrite Hs in Hsq.
    rewrite cancel_session_result. f_equal.
    unfold reported_message, task_done. rewrite Hsq, Hc, Ht, Hd. simpl.
    specialize (Htr sid sq Hsq). rewrite Hc in Htr.
    destruct Htr as (t' & Ht' & _ & Hm). rewrite Hm.
    assert (t' = t) as -> by congruence.
    by destruct (t_phase t).
  - intros Hb. rewrite cancel_session_result.
    unfold reported_message, queued, is_session_busy, task_done in *.
    destruct (dict_lookup sid (_queues st)) as [sq|] eqn:Hsq; [|done].
    rewrite (Hidle _ _ Hsq Hb), app_nil_r.
    specialize (Htr sid sq Hsq).
    destruct (current_task sq) as [tid0|]; [|done].
    destruct Htr as (t0 & Ht0 & Hs0 & Hm0). rewrite Ht0.
    destruct (done t0) eqn:Hd0; [done|].
    destruct (Hown _ _ Ht0 Hd0) as (sq0 & Hsq0 & Hp0 & _).
    rewrite Hs0 in Hsq0. congruence.
Qed.

Lemma cancel_reports_running_message_witness :
  snd (cancel_session "s" busy_state)
  = [sample_message "1"] ++ queued "s" busy_state.
Proof.
  apply (proj1 (cancel_reports_running_message
                  [Enqueue "s" (sample_message "1"); RunTask 0;
                   Enqueue "s" (sample_message "2")] "s" eq_refl) 0
           {| t_session := "s"; t_message := sample_message "1";
              t_phase := Running; t_cancel := false |});
    reflexivity.
Defined.

End QueueMore.

(** ** The global rate limiter: completion, endless floods, order *)

Module LimiterMore.
Import Limiter Flooding LimiterFacts.
Local Open Scope list_scope.

Section Worker.
Context {Bucket : Type} (acquire : Bucket -> Z -> Bucket * nat).

Local Abbreviation step := (worker_step Bucket acquire).
Local Abbreviation run := (worker Bucket acquire).

Lemma step_futures_length (st : GlobalRateLimiter Bucket) :
  length (futures (step st)) = length (futures st).
Proof.
  unfold worker_step. destruct (queue st) as [|e rest]; [done|].
  assert (forall s, length (settle (future e) s (futures st))
                    = length (futures st)) as Hs.
  { intros s. unfold settle.
    destruct (futures st !! future e) as [[?|]|]; try done.
    apply length_insert. }
  destruct (result (func e (calls e))) as [v|err]; simpl; [apply Hs|].
  destruct (is_flood_wait err); simpl; [done|apply Hs].
Qed.

(** X13.  The worker completes a future at most once: a future that
    holds a result or an exception keeps it through everything the
    worker does later, and the worker neither adds nor removes
    futures. *)
Theorem completed_future_is_final (n : nat) (st : GlobalRateLimiter Bucket) :
  (forall fid s, futures st !! fid = Some (Some s) ->
                 futures (run n st) !! fid = Some (Some s))
  /\ length (futures (run n st)) = length (futures st).
Proof.
  split.
  - intros fid s. apply run_done.
  - revert st. induction n as [|n IH]; intros st; simpl; [done|].
    by rewrite IH, step_futures_length.
Qed.

(** X14.  There is no limit on retries: a task whose every call hits
    flood control is put back again and again, it is in the queue after
    any number of worker turns and its caller's future is never
    completed. *)
Theorem endless_flood_never_completes (n : nat) (p : nat)
    (st : GlobalRateLimiter Bucket) (e : Entry) :
  queue st !! p = Some e ->
  futures st !! future e = Some None ->
  alone p e (queue st) ->
  always_floods e ->
  futures (run n st) !! future e = Some None
  /\ exists p' e', queue (run n st) !! p' = Some e' /\ future e' = future e
                   /\ func e' = func e.
Proof.
  revert p st e. induction n as [|n IH]; intros p st e Hq Hf Hal Hfl; simpl.
  { split; [done|]. by exists p, e. }
  destruct p as [|p].
  - destruct (queue st) as [|h rest] eqn:E; [done|]. simpl in Hq. simplify_eq.
    destruct (Hfl 0) as (err & Herr & Hflood). rewrite Nat.add_0_r in Herr.
    pose proof (step_flood acquire st e rest err E Herr Hflood) as Hstep.
    destruct (IH (length rest) (step st) (called e)) as (Hn & p' & e' & H1 & H2 & H3).
    + rewrite Hstep. simpl. by rewrite lookup_app_r, Nat.sub_diag.
    + by rewrite Hstep.
    + rewrite Hstep. simpl.
      intros i x [Hi|[Hge Hi]]%lookup_app_Some Hip.
      * apply (Hal (S i) x); [done|lia].
      * destruct (i - length rest) eqn:Ei; simpl in Hi; [lia|done].
    + intros i. destruct (Hfl (S i)) as (err' & He' & Hf').
      exists err'. simpl. by rewrite <- Nat.add_succ_r.
    + split; [done|]. by exists p', e'.
  - destruct (step_advances acquire st p e Hq Hf Hal) as (Hq' & Hf' & Hal').
    by apply (IH p).
Qed.

Lemma ascending_cons (d : Z * nat) (log : list (Z * nat)) :
  Forall (fun x => (fst d <= fst x)%Z) log -> ascending log ->
  ascending (d :: log).
Proof.
  intros Hall Hlog i j a b Hij Ha Hb.
  destruct i as [|i], j as [|j]; simpl in *; try lia.
  - simplify_eq. lia.
  - simplify_eq. rewrite List.Forall_forall in Hall. apply Hall.
    apply list_elem_of_In. by eapply list_elem_of_lookup_2.
  - apply (Hlog i j); [lia|done|done].
Qed.

Lemma run_dispatched_ascending (n : nat) (st : GlobalRateLimiter Bucket) :
  exists new,
    dispatched (run n st) = dispatched st ++ new
    /\ ascending new
    /\ Forall (fun d => (now st <= fst d)%Z /\ (_paused_until st <= fst d)%Z) new.
Proof.
  revert st. induction n as [|n IH]; intros st; simpl.
  - exists []. rewrite app_nil_r. split; [done|]. split; [|constructor].
    intros i j a b _ Ha. done.
  - destruct (IH (step st)) as (new & Hd & Hasc & Hall).
    pose proof (step_now acquire st) as Hnow.
    pose proof (call_time_bounds acquire st) as [Hct Hcp].
    destruct (queue st) as [|e rest] eqn:Hq.
    + assert (step st = st) as Hs by (unfold worker_step; by rewrite Hq).
      rewrite Hs in *. by exists new.
    + assert (dispatched (step st)
              = dispatched st ++ [(call_time Bucket acquire st, future e)]
              /\ (call_time Bucket acquire st <= now (step st))%Z) as [Hd0 Hle].
      { unfold worker_step. rewrite Hq.
        destruct (result (func e (calls e))) as [v|err]; simpl; [split; [done|lia]|].
        destruct (is_flood_wait err); simpl; split; try done; lia. }
      exists ((call_time Bucket acquire st, future e) :: new).
      rewrite Hd, Hd0, <- app_assoc. split; [done|]. split.
      * apply ascending_cons; [|done].
        eapply Forall_impl; [exact Hall|]. simpl. intros d [H1 _]. lia.
      * constructor; [simpl; lia|].
        eapply Forall_impl; [exact Hall|]. simpl. intros d [H1 _]. lia.
Qed.

(** X16.  The worker runs one call at a time: the next call is started
    no earlier than the call before it ended, and never before the
    pause is over; so the calls of any number of turns are logged in
    ascending order of time, none of them inside the pause the worker
    started with. *)
Theorem calls_run_one_at_a_time (n : nat) (st : GlobalRateLimiter Bucket) :
  (forall e rest, queue st = e :: rest ->
     (return_time Bucket acquire st e <= call_time Bucket acquire (step st))%Z
     /\ (_paused_until (step st) <= call_time Bucket acquire (step st))%Z)
  /\ exists new,
      dispatched (run n st) = dispatched st ++ new
      /\ ascending new
      /\ Forall (fun d => (now st <= fst d)%Z
                          /\ (_paused_until st <= fst d)%Z) new.
Proof.
  split; [|apply run_dispatched_ascending].
  intros e rest Hq.
  pose proof (call_time_bounds acquire (step st)) as [Hn Hp]. split; [|done].
  assert (return_time Bucket acquire st e <= now (step st))%Z; [|lia].
  unfold worker_step, return_time. rewrite Hq.
  destruct (result (func e (calls e))) as [v|err]; simpl; [lia|].
  destruct (is_flood_wait err); simpl; lia.
Qed.

Lemma dispatch_order_from_here (q : list Entry) (st : GlobalRateLimiter Bucket) :
  queue st = q -> Forall floods_no_more q ->
  map snd (dispatched (run (length q) st))
  = map snd (dispatched st) ++ map future q
  /\ queue (run (length q) st) = [].
Proof.
  revert st. induction q as [|e q IH]; intros st Hq Hnf; simpl.
  - by rewrite app_nil_r.
  - apply Forall_cons_1 in Hnf as [He Hnf].
    assert (queue (step st) = q
            /\ dispatched (step st)
               = dispatched st ++ [(call_time Bucket acquire st, future e)])
      as [Hq' Hd'].
    { unfold worker_step. rewrite Hq.
      destruct (result (func e (calls e))) as [v|err] eqn:Hr; [done|].
      specialize (He 0 err). rewrite Nat.add_0_r in He. by rewrite (He Hr). }
    destruct (IH _ Hq' Hnf) as [Hd Hk]. split; [|done].
    rewrite Hd, Hd', map_app, <- app_assoc. done.
Qed.

(** X15.  A task that runs into flood control loses its place: when the
    task at the head fails with a flood-control error and nothing
    floods afterwards, the tasks that were behind it are all called
    before its retry, in their order, and the queue is then empty. *)
Theorem flooded_task_loses_its_place (st : GlobalRateLimiter Bucket)
    (e : Entry) (rest : list Entry) (err : Error) :
  queue st = e :: rest ->
  result (func e (calls e)) = Raises err -> is_flood_wait err = true ->
  floods_no_more (called e) -> Forall floods_no_more rest ->
  map snd (dispatched (run (length rest + 2) st))
  = map snd (dispatched st) ++ [future e] ++ map future rest ++ [future e]
  /\ queue (run (length rest + 2) st) = [].
Proof.
  intros Hq Hr Hf He Hrest.
  replace (length rest + 2) with (S (length (rest ++ [called e])))
    by (rewrite length_app; simpl; lia).
  simpl.
  destruct (dispatch_order_from_here (rest ++ [called e]) (step st))
    as [Hd Hk].
  - by rewrite (step_flood acquire st e rest err Hq Hr Hf).
  - apply Forall_app. split; [done|]. by repeat constructor.
  - split; [|done]. rewrite Hd.
    rewrite (step_flood acquire st e rest err Hq Hr Hf). simpl.
    rewrite !map_app. simpl. by rewrite <- !app_assoc.
Qed.

End Worker.

Lemma completed_future_is_final_witness :
  futures (worker Z one_per_two 7
             (worker Z one_per_two 2 (fst (enqueue task_that_fails_once idle))))
    !! 0 = Some (Some (Result (Py.VStr "success"))).
Proof.
  apply (proj1 (completed_future_is_final one_per_two 7
                  (worker Z one_per_two 2
                     (fst (enqueue task_that_fails_once idle))))).
  reflexivity.
Defined.

Lemma endless_flood_never_completes_witness :
  futures (worker Z one_per_two 50 (fst (enqueue task_that_always_floods idle)))
    !! 0 = Some None.
Proof.
  refine (proj1 (endless_flood_never_completes one_per_two 50 0
                   (fst (enqueue task_that_always_floods idle))
                   {| func := task_that_always_floods; calls := 0; future := 0 |}
                   eq_refl eq_refl _ _)).
  - intros i h Hi Hne. destruct i as [|i]; [by destruct Hne|discriminate Hi].
  - intros i. exists flood_error. split; reflexivity.
Defined.

Lemma calls_run_one_at_a_time_witness :
  exists new,
    dispatched (worker Z one_per_two 3 two_tasks) = dispatched two_tasks ++ new
    /\ ascending new
    /\ Forall (fun d => (now two_tasks <= fst d)%Z
                        /\ (_paused_until two_tasks <= fst d)%Z) new.
Proof. apply (proj2 (calls_run_one_at_a_time one_per_two 3 two_tasks)). Defined.

Lemma flooded_task_loses_its_place_witness :
  map snd (dispatched (worker Z one_per_two 3 two_tasks)) = [0; 1; 0]
  /\ queue (worker Z one_per_two 3 two_tasks) = [].
Proof.
  refine (flooded_task_loses_its_place one_per_two two_tasks
            {| func := task_that_fails_once; calls := 0; future := 0 |}
            [{| func := task_that_succeeds; calls := 0; future := 1 |}]
            flood_error eq_refl eq_refl eq_refl _ _).
  - intros i err H. discriminate H.
  - repeat constructor. intros i err H. discriminate H.
Defined.

End LimiterMore.

(** ** The message handler: length, [/stop], throttling *)

Module HandlerMore.
Import Handler HandlerFacts.
Local Open Scope list_scope.

(** X17.  A rendered message is never longer than 3802 characters: one
    of at most 3800 characters is kept, and a longer one is cut to 3798
    characters, or to 3802 when the closing fence is added. *)
Theorem build_message_length (parts : list (string * pystr))
    (status : option pystr) :
  length (_build_message parts status) <= 3802
  /\ (length (joined parts status) <= 3800 ->
      length (_build_message parts status) = length (joined parts status))
  /\ (3800 < length (joined parts status) ->
      length (_build_message parts status) = 3798
      \/ length (_build_message parts status) = 3802).
Proof.
  unfold _build_message. set (full := joined parts status).
  destruct (Nat.ltb_spec 3800 (length full)) as [Hlt|Hle].
  - assert (length (ellipsis ++ last_n 3795 full) = 3798) as Hcut.
    { rewrite length_app, last_n_length by lia. reflexivity. }
    destruct (negb _).
    + rewrite !length_app in *. simpl in *. split; [lia|]. split; [lia|].
      intros _. right. lia.
    + rewrite Hcut. split; [lia|]. split; [lia|]. intros _. by left.
  - split; [lia|]. split; [done|]. lia.
Qed.

Lemma build_message_length_witness :
  length (_build_message long_parts None) = 3798
  \/ length (_build_message long_parts None) = 3802.
Proof.
  apply (proj2 (proj2 (build_message_length long_parts None))).
  apply Nat.ltb_lt. vm_compute. reflexivity.
Defined.

(** X18.  [/stop] in a manager reached by enqueueing and running
    tasks: afterwards no conversation is busy or has anything queued
    and every unfinished task has been asked to cancel, and the one
    reply sent counts the messages that are inside the processor and
    the queued ones, over all conversations.  A message whose task has
    not started yet is cancelled too, and is not in the count. *)
Theorem stop_cancels_everything (incoming : Queue.IncomingMessage)
    (found : option string) (stats : Stats) (acts : list Queue.action) :
  Queue.text incoming = "/stop"%string ->
  forallb (fun a => negb (Queue.is_cancel a)) acts = true ->
  let mq := Queue.run acts Queue.init in
  let after := fst (handle_message incoming found stats mq) in
  (forall sid,
      Queue.is_session_busy sid after = false /\ Queue.queued sid after = [])
  /\ (forall tid t,
        Queue.tasks mq !! tid = Some t -> Queue.done t = false ->
        Queue.tasks after !! tid = Some (Queue.set_cancel true t))
  /\ snd (handle_message incoming found stats mq)
     = Some (SendMessage (Queue.chat_id incoming)
               ([9209%N] ++ u " **Stopped.** Cancelled "
                  ++ dec (length
                            (flat_map
                               (fun sid => Queue.in_flight_message sid mq
                                           ++ Queue.queued sid mq)
                               (Queue.keys (Queue._queues mq))))
                  ++ u " pending messages.")
               None).
Proof.
  intros Htext Hall mq after.
  destruct (QueueFacts.run_tracked acts Queue.init QueueFacts.init_single_flight
              QueueFacts.init_tracked Hall) as [Hsf Htr].
  pose proof (QueueFacts.run_keys_nodup acts) as Hnd. fold mq in Hsf, Htr, Hnd.
  assert (Tracking.owned mq) as Hown.
  { intros tid t Ht Hd _. destruct Hsf as [Hown _ _ _].
    destruct (Hown tid t Ht Hd) as (sq & ? & _ & ?). eauto. }
  assert (handle_message incoming found stats mq
          = (fst (Queue.cancel_all mq),
             Some (SendMessage (Queue.chat_id incoming)
                     ([9209%N] ++ u " **Stopped.** Cancelled "
                        ++ dec (length (snd (Queue.cancel_all mq)))
                        ++ u " pending messages.") None))) as Hh.
  { unfold handle_message, _handle_stop_command. rewrite Htext. simpl.
    by destruct (Queue.cancel_all mq). }
  unfold after. rewrite Hh. simpl. unfold Queue.cancel_all.
  destruct (QueueFacts.cancel_each_spec (Queue.keys (Queue._queues mq)) mq Hnd)
    as (Hr & Hin & Hout).
  destruct (QueueFacts.cancel_each_owned (Queue.keys (Queue._queues mq)) mq Hown)
    as [_ Hcan].
  split; [|split].
  - intros sid.
    destruct (in_dec string_dec sid (Queue.keys (Queue._queues mq))) as [Hi|Hn].
    + destruct (Hin sid Hi). done.
    + destruct (Hout sid Hn) as (-> & -> & _).
      apply QueueFacts.dict_lookup_keys in Hn.
      unfold Queue.is_session_busy, Queue.queued. by rewrite Hn.
  - intros tid t Ht Hd.
    destruct (QueueFacts.cancel_each_tasks (Queue.keys (Queue._queues mq)) mq
                tid t Ht) as [Hsame|Hset]; [|done].
    exfalso.
    assert (Queue.t_cancel t = true) as Hc.
    { apply (Hcan tid t Hsame Hd).
      destruct Hsf as [Hown' _ _ _].
      destruct (Hown' tid t Ht Hd) as (sq & Hsq & _).
      destruct (in_dec string_dec (Queue.t_session t)
                  (Queue.keys (Queue._queues mq))) as [|Hn]; [done|].
      apply QueueFacts.dict_lookup_keys in Hn. congruence. }
    destruct Hsf as [_ _ _ Hnc]. rewrite (Hnc tid t Ht) in Hc. done.
  - rewrite Hr.
    assert (forall l,
               flat_map (fun sid => Queue.reported_message sid mq
                                    ++ Queue.queued sid mq) l
               = flat_map (fun sid => Queue.in_flight_message sid mq
                                      ++ Queue.queued sid mq) l) as ->; [|done].
    intros l. rewrite !flat_map_concat_map. f_equal. apply map_ext.
    intros sid. by rewrite QueueFacts.reported_in_flight.
Qed.

Lemma stop_cancels_everything_witness :
  snd (handle_message
         {| Queue.text := "/stop"; Queue.chat_id := "123"; Queue.user_id := "456";
            Queue.message_id := "791"; Queue.platform := "telegram";
            Queue.reply_to_message_id := None |}
         None {| active_sessions := 2; max_sessions := 5 |} Queue.two_sessions)
  = Some (SendMessage "123"
            ([9209%N] ++ u " **Stopped.** Cancelled " ++ dec 4
               ++ u " pending messages.") None).
Proof.
  exact (proj2 (proj2 (stop_cancels_everything
                   {| Queue.text := "/stop"; Queue.chat_id := "123";
                      Queue.user_id := "456"; Queue.message_id := "791";
                      Queue.platform := "telegram";
                      Queue.reply_to_message_id := None |}
                   None {| active_sessions := 2; max_sessions := 5 |}
                   [Queue.Enqueue "a" (Queue.sample_message "1"); Queue.RunTask 0;
                    Queue.Enqueue "b" (Queue.sample_message "2");
                    Queue.Enqueue "a" (Queue.sample_message "3");
                    Queue.RunTask 1; Queue.Enqueue "b" (Queue.sample_message "4")]
                   eq_refl eq_refl))).
Defined.

Lemma joined_with_status (parts : list (string * pystr)) (c : N) (st : pystr) :
  exists rest, joined parts (Some (c :: st)) = c :: rest.
Proof.
  unfold joined, status_lines. simpl.
  destruct (flat_map render_part parts); simpl; eauto.
Qed.

Lemma build_message_with_status (parts : list (string * pystr)) (c : N)
    (st : pystr) :
  _build_message parts (Some (c :: st)) <> [].
Proof.
  unfold _build_message.
  destruct (joined_with_status parts c st) as [rest ->].
  destruct (3800 <? length (c :: rest))%nat; [|done].
  by destruct (negb _).
Qed.

(** X19.  UI updates are throttled.  When a flush has edited the status
    message at some time, the edit carried the rendered buffer, and
    from then on an unforced flush less than one time unit later sends
    nothing and changes nothing, whereas a forced flush with a status
    line edits again whenever the handler is not in a flood wait.
    During a flood wait no flush sends anything, forced or not. *)
Theorem flush_is_throttled (fw t : Q) (turn turn' : Turn)
    (status : option pystr) (force : bool) (c : platform_call) :
  update_ui fw t turn status force = (turn', Some c) ->
  c = EditMessage (chat turn) (status_msg turn)
        (_build_message (message_parts turn) status) (Some "markdown"%string)
  /\ last_ui_update turn' = t
  /\ message_parts turn' = message_parts turn
  /\ (forall t2 status2, (t2 - t < 1)%Q ->
        update_ui fw t2 turn' status2 false = (turn', None))
  /\ (forall t2 c2 st2, (fw <= t2)%Q ->
        exists call,
          snd (update_ui fw t2 turn' (Some (c2 :: st2)) true) = Some call)
  /\ (forall fw2 t2 status2 force2, (t2 < fw2)%Q ->
        update_ui fw2 t2 turn' status2 force2 = (turn', None)).
Proof.
  unfold update_ui at 1.
  destruct (negb (Qle_bool fw t)); [done|].
  destruct (negb force && negb (Qle_bool 1 (t - last_ui_update turn)));
    [done|].
  destruct (_build_message (message_parts turn) status) as [|d display] eqn:Hb;
    [done|].
  intros [= <- <-]. simpl. repeat split.
  - intros t2 status2 Hlt. unfold update_ui. simpl.
    destruct (negb (Qle_bool fw t2)); [done|].
    assert (Qle_bool 1 (t2 - t) = false) as ->; [|done].
    destruct (Qle_bool 1 (t2 - t)) eqn:E; [|done].
    apply Qle_bool_iff in E. exfalso. by apply (Qlt_not_le _ _ Hlt).
  - intros t2 c2 st2 Hle. unfold update_ui. simpl.
    apply Qle_bool_iff in Hle. rewrite Hle. simpl.
    pose proof (build_message_with_status (message_parts turn) c2 st2) as Hne.
    destruct (_build_message (message_parts turn) (Some (c2 :: st2)));
      [done|]. simpl. eauto.
  - intros fw2 t2 status2 force2 Hlt. unfold update_ui.
    assert (Qle_bool fw2 t2 = false) as ->; [|done].
    destruct (Qle_bool fw2 t2) eqn:E; [|done].
    apply Qle_bool_iff in E. exfalso. by apply (Qlt_not_le _ _ Hlt).
Qed.

Lemma flush_is_throttled_witness :
  update_ui 0 (7 # 2)
    (fst (update_ui 0 3 sample_turn (Some (u "done")) true)) None false
  = (fst (update_ui 0 3 sample_turn (Some (u "done")) true), None).
Proof.
  refine (proj1 (proj2 (proj2 (proj2
            (flush_is_throttled 0 3 sample_turn
               (fst (update_ui 0 3 sample_turn (Some (u "done")) true))
               (Some (u "done")) true
               (EditMessage "123" "s1" (u "done" ++ nl ++ nl ++ u "Hi")
                  (Some "markdown"%string)) eq_refl))))
            (7 # 2) None _).
  reflexivity.
Defined.

Lemma present_again (found : option string) (sid : string) :
  present found = Some sid -> present (Some sid) = Some sid.
Proof.
  unfold present. destruct found as [s|]; [|done].
  destruct (String.eqb s "") eqn:E; [done|]. intros [= <-]. by rewrite E.
Qed.

Lemma resumed_is_present (incoming : Queue.IncomingMessage)
    (found : option string) (sid : string) :
  session_id_to_resume incoming found = Some sid ->
  present (Some sid) = Some sid.
Proof.
  unfold session_id_to_resume.
  destruct (Queue.reply_to_message_id incoming); [|done].
  apply present_again.
Qed.

(** X25.  A reply to a conversation is told what then happens to it.
    When the conversation is busy the status announces a position, and
    handing the message on, with no other activity in between, queues
    it (the manager answers [True]) as the last of exactly that many
    waiting messages.  When the conversation is idle the status says
    that the conversation continues, and the message is started at
    once, nothing being queued. *)
Theorem announced_position_is_queue_position
    (incoming : Queue.IncomingMessage) (found : option string) (stats : Stats)
    (mq : Queue.State) (sid status_msg_id : string) :
  Queue.text incoming <> "/stop"%string ->
  Queue.text incoming <> "/stats"%string ->
  existsb (fun p => String.prefix p (Queue.text incoming)) own_prefixes = false ->
  session_id_to_resume incoming found = Some sid ->
  let queued := {| Queue.incoming := incoming;
                   Queue.status_message_id := status_msg_id;
                   Queue.context := Py.VNone |} in
  let after := handle_message_enqueue incoming found status_msg_id mq in
  (Queue.is_session_busy sid mq = true ->
   handle_message incoming found stats mq
   = (mq, Some (SendMessage (Queue.chat_id incoming)
                  ([128203%N] ++ u " **Queued** (position "
                     ++ dec (Queue.get_queue_size sid mq + 1)
                     ++ u ") - waiting...")
                  (Some (Queue.message_id incoming))))
   /\ snd after = true
   /\ Queue.get_queue_size sid (fst after) = (Queue.get_queue_size sid mq + 1)%nat
   /\ Queue.queued sid (fst after) = (Queue.queued sid mq ++ [queued])%list
   /\ Queue.tasks (fst after) = Queue.tasks mq)
  /\ (Queue.is_session_busy sid mq = false ->
      handle_message incoming found stats mq
      = (mq, Some (SendMessage (Queue.chat_id incoming)
                     ([128260%N] ++ u " **Continuing conversation...**")
                     (Some (Queue.message_id incoming))))
      /\ snd after = false
      /\ Queue.is_session_busy sid (fst after) = true
      /\ Queue.get_queue_size sid (fst after) = Queue.get_queue_size sid mq
      /\ Queue.tasks (fst after)
         = (Queue.tasks mq ++ [Queue.fresh_task sid queued])%list).
Proof.
  intros Hstop Hstats Hown Hsid queued after.
  pose proof (resumed_is_present incoming found sid Hsid) as Hp.
  assert (forall b, Queue.is_session_busy sid mq = b ->
            handle_message incoming found stats mq
            = (mq, Some (SendMessage (Queue.chat_id incoming)
                           (if b then
                              [128203%N] ++ u " **Queued** (position "
                                ++ dec (Queue.get_queue_size sid mq + 1)
                                ++ u ") - waiting..."
                            else [128260%N] ++ u " **Continuing conversation...**")
                           (Some (Queue.message_id incoming))))) as Hsend.
  { intros b Hb. unfold handle_message.
    apply String.eqb_neq in Hstop, Hstats. rewrite Hstop, Hstats, Hown, Hsid.
    unfold _get_initial_status. rewrite Hp, Hb. by destruct b. }
  assert (after = Queue.enqueue sid queued mq) as Hafter.
  { unfold after, handle_message_enqueue. by rewrite Hsid. }
  pose proof (QueueFacts.enqueue_result sid queued mq) as Hres.
  pose proof (QueueFacts.enqueue_tasks sid queued mq) as Htasks.
  pose proof (QueueFacts.enqueue_lookup sid queued mq sid) as Hlook.
  pose proof (QueueFacts.is_session_busy_session_or_new sid mq) as Hb.
  rewrite String.eqb_refl, Hb in Hlook. rewrite <- Hafter in *.
  assert (Queue.queue (Queue.session_or_new sid mq) = Queue.queued sid mq
          /\ length (Queue.queue (Queue.session_or_new sid mq))
             = Queue.get_queue_size sid mq) as [Hq Hlen].
  { unfold Queue.session_or_new, Queue.queued, Queue.get_queue_size.
    by destruct (Queue.dict_lookup sid (Queue._queues mq)). }
  split; intros Hbusy; pose proof (Hsend _ Hbusy) as Hs;
    rewrite Hbusy in Hres, Htasks, Hlook, Hb.
  - split; [done|]. split; [done|].
    unfold Queue.get_queue_size, Queue.queued. rewrite Hlook. simpl.
    rewrite length_app, Hlen, Hq. simpl. done.
  - split; [done|]. split; [done|].
    unfold Queue.is_session_busy, Queue.get_queue_size. rewrite Hlook. simpl.
    by rewrite Hlen.
Qed.

Lemma announced_position_is_queue_position_witness :
  Queue.get_queue_size "s"
    (fst (handle_message_enqueue
            {| Queue.text := "and then?"; Queue.chat_id := "123";
               Queue.user_id := "456"; Queue.message_id := "792";
               Queue.platform := "telegram";
               Queue.reply_to_message_id := Some "status_1"%string |}
            (Some "s"%string) "status_792" Queue.busy_state))
  = 2%nat.
Proof.
  refine (proj1 (proj2 (proj2 (proj1
            (announced_position_is_queue_position
               {| Queue.text := "and then?"; Queue.chat_id := "123";
                  Queue.user_id := "456"; Queue.message_id := "792";
                  Queue.platform := "telegram";
                  Queue.reply_to_message_id := Some "status_1"%string |}
               (Some "s"%string) {| active_sessions := 1; max_sessions := 5 |}
               Queue.busy_state "s" "status_792" _ _ eq_refl eq_refl)
            eq_refl)))); discriminate.
Defined.

End HandlerMore.

(** ** The message handler: folding the events of a turn *)

Module TurnFacts.
Import Py Turn CLIParser Chunk CLIParserFacts CLIParserMore.
Local Open Scope list_scope.

Lemma append_nil_r (x : string) : (x ++ "")%string = x.
Proof.
  induction x as [|a x IH]; [done|].
  change (String a (x ++ "")%string = String a x). by rewrite IH.
Qed.

Lemma append_assoc (x y z : string) :
  ((x ++ y) ++ z)%string = (x ++ (y ++ z))%string.
Proof.
  induction x as [|a x IH]; [done|].
  change (String a ((x ++ y) ++ z)%string = String a (x ++ (y ++ z))%string).
  by rewrite IH.
Qed.

Lemma concat_cons (t : string) (ts : list string) :
  String.concat "" (t :: ts) = (t ++ String.concat "" ts)%string.
Proof. destruct ts; simpl; [by rewrite append_nil_r|done]. Qed.

Section Fold.
Context (add : value -> value -> res value).
Hypothesis add_strings_concat :
  forall x y, add (VStr x) (VStr y) = Ok (VStr (x ++ y)).

Lemma fold_text_new (t : string) (message_parts : parts) :
  t <> ""%string -> ends_in_content message_parts = false ->
  fold_parsed add (text_chunk t) message_parts
  = Ok (message_parts ++ [("content"%string, VStr t)],
        Some ("🧠 **Claude is working...**"%string, false)).
Proof.
  intros Ht Hend. unfold fold_parsed, ends_in_content in *. simpl.
  destruct (String.eqb_spec t ""); [done|]. simpl.
  destruct (last message_parts) as [[kind content]|]; [|done].
  by rewrite Hend.
Qed.

Lemma fold_text_merge (t c : string) (front : parts) :
  t <> ""%string ->
  fold_parsed add (text_chunk t) (front ++ [("content"%string, VStr c)])
  = Ok (front ++ [("content"%string, VStr (c ++ t))],
        Some ("🧠 **Claude is working...**"%string, false)).
Proof.
  intros Ht. unfold fold_parsed. simpl.
  destruct (String.eqb_spec t ""); [done|]. simpl.
  rewrite last_snoc. simpl.
  by rewrite add_strings_concat, removelast_last.
Qed.

Lemma fold_chunks_merge (ts : list string) (c : string) (front : parts) :
  Forall (fun t => t <> ""%string) ts ->
  fold_chunks add (map text_chunk ts) (front ++ [("content"%string, VStr c)])
  = Ok (front ++ [("content"%string, VStr (c ++ String.concat "" ts))]).
Proof.
  revert c. induction ts as [|t ts IH]; intros c Hall.
  - simpl. by rewrite append_nil_r.
  - apply Forall_cons_1 in Hall as [Ht Hall].
    cbn [map fold_chunks]. rewrite fold_text_merge by done. cbn [and_then fst].
    rewrite IH by done. by rewrite concat_cons, append_assoc.
Qed.

(** X20.  Consecutive text chunks are folded into one part of the
    display buffer: after a run of content chunks with non-empty texts
    the buffer holds one more [content] part, carrying the texts
    concatenated, when it did not end in one, and has the texts added
    to its last part when it did. *)
Theorem content_chunks_fold_into_one_part (ts : list string)
    (message_parts : parts) :
  ts <> [] -> Forall (fun t => t <> ""%string) ts ->
  (ends_in_content message_parts = false ->
   fold_chunks add (map text_chunk ts) message_parts
   = Ok (message_parts ++ [("content"%string, VStr (String.concat "" ts))]))
  /\ (forall front c,
        message_parts = front ++ [("content"%string, VStr c)] ->
        fold_chunks add (map text_chunk ts) message_parts
        = Ok (front ++ [("content"%string,
                         VStr (c ++ String.concat "" ts))])).
Proof.
  intros Hne Hall. split.
  - intros Hend. destruct ts as [|t ts]; [done|].
    apply Forall_cons_1 in Hall as [Ht Hall].
    cbn [map fold_chunks]. rewrite fold_text_new by done. cbn [and_then fst].
    rewrite fold_chunks_merge by done. by rewrite concat_cons.
  - intros front c ->. by apply fold_chunks_merge.
Qed.

End Fold.

Lemma item_of_get (d : dict) (k : string) (v : value) :
  get d k = v -> v <> VNone -> item d k = Ok v.
Proof.
  unfold get, item. destruct (lookup_key k d); [by intros ->|].
  by intros <-.
Qed.

Lemma item_type (d : dict) (ty : string) :
  get d "type" = VStr ty -> item d "type" = Ok (VStr ty).
Proof. intros H. by apply item_of_get. Qed.

Lemma full_message_not_session_info (ev m : dict) :
  full_message ev m -> eq_str (get ev "type") "session_info" = false.
Proof. intros H. by destruct (full_message_type ev m H) as [-> | ->]. Qed.

Lemma names_in_dicts (tools : list value) :
  Forall (fun t => isinstance_dict t = true) tools ->
  names_in tools = Ok (map tool_name tools).
Proof.
  induction tools as [|t tools IH]; intros Hall; [done|].
  apply Forall_cons_1 in Hall as [Ht Hall].
  destruct t; try done. simpl. by rewrite IH.
Qed.

Lemma join_raises (sep : string) (items : list value) :
  existsb (fun v => negb (is_string v)) items = true ->
  join sep items = Raise TypeError.
Proof.
  induction items as [|v items IH]; [done|].
  destruct v as [| | | |x| |]; try done. simpl. intros H.
  destruct items as [|w items]; [done|]. by rewrite IH.
Qed.

Lemma join_returns_or_type_error (sep : string) (items : list value) :
  (exists r, join sep items = Return r) \/ join sep items = Raise TypeError.
Proof.
  induction items as [|v items IH]; [left; by eexists|].
  destruct v as [| | | |x| |]; try (by right). simpl.
  destruct items as [|w items]; [left; by eexists|].
  destruct IH as [[r ->]| ->]; [left; by eexists|by right].
Qed.

Section Events.
Context (add : value -> value -> res value) (py_str : value -> string).

(** X21.  Some chunks never reach the display.  A [subagent_start]
    chunk and a [content] chunk without a non-empty [text] change
    neither the buffer nor the UI; so a full message that launches
    sub-agents, and the thinking a full message carries when it has no
    text, are not shown.  Events that are no dicts and [session_info]
    events are passed over as well. *)
Theorem chunks_that_show_nothing (message_parts : parts) :
  (forall parsed,
      get parsed "type" = VStr "subagent_start" ->
      fold_parsed add parsed message_parts = Ok (message_parts, None))
  /\ (forall parsed,
        get parsed "type" = VStr "content" ->
        truthy (get parsed "text") = false ->
        fold_parsed add parsed message_parts = Ok (message_parts, None))
  /\ (forall ev m content,
        full_message ev m ->
        get_default m "content" (VList []) = VList content ->
        List.filter names_task (tool_uses content) <> [] ->
        Forall input_is_dict (List.filter names_task (tool_uses content)) ->
        process_event add py_str (VDict ev) message_parts
        = Ok (message_parts, None))
  /\ (forall ev m content ths,
        full_message ev m ->
        get_default m "content" (VList []) = VList content ->
        tool_uses content = [] -> text_values content = [] ->
        thinking_values content = map VStr ths ->
        process_event add py_str (VDict ev) message_parts
        = Ok (message_parts, None))
  /\ (forall event,
        isinstance_dict event = false ->
        process_event add py_str event message_parts = Ok (message_parts, None))
  /\ (forall ev,
        get ev "type" = VStr "session_info" ->
        process_event add py_str (VDict ev) message_parts
        = Ok (message_parts, None)).
Proof.
  assert (forall parsed,
             get parsed "type" = VStr "subagent_start" ->
             fold_parsed add parsed message_parts = Ok (message_parts, None))
    as Hsub.
  { intros parsed Ht. unfold fold_parsed. by rewrite (item_type _ _ Ht). }
  assert (forall parsed,
             get parsed "type" = VStr "content" ->
             truthy (get parsed "text") = false ->
             fold_parsed add parsed message_parts = Ok (message_parts, None))
    as Hcontent.
  { intros parsed Ht Hf. unfold fold_parsed.
    rewrite (item_type _ _ Ht). simpl. by rewrite Hf. }
  split; [done|]. split; [done|]. split; [|split; [|split]].
  - intros ev m content Hfm Hc Hne Hall. unfold process_event.
    rewrite (full_message_not_session_info ev m Hfm).
    rewrite (parse_event_content py_str ev m content Hfm Hc).
    unfold parse_content. rewrite scan_content_spec.
    destruct (tool_uses content) as [|t tools] eqn:Et; [done|].
    rewrite (subagents_of_spec _ Hall).
    destruct (List.filter names_task (t :: tools)) as [|d ds]; [done|].
    cbn [map bind of_outcome and_then]. by apply Hsub.
  - intros ev m content ths Hfm Hc Htools Htext Hth. unfold process_event.
    rewrite (full_message_not_session_info ev m Hfm).
    rewrite (parse_event_content py_str ev m content Hfm Hc).
    unfold parse_content. rewrite scan_content_spec, Htools, Htext, Hth.
    rewrite join_strings.
    destruct ths as [|th ths]; cbn [map bind of_outcome and_then app];
      [done|].
    by apply Hcontent.
  - intros event Hnd. by destruct event.
  - intros ev Ht. unfold process_event. by rewrite Ht.
Qed.

(** X22.  An exit event always ends the turn as complete, whatever its
    exit code: the buffer gets the line [Done.] when nothing was
    produced and is kept otherwise, and the final status [Complete] is
    flushed by force. *)
Theorem exit_is_shown_as_complete (ev : dict) (message_parts : parts) :
  get ev "type" = VStr "exit" ->
  process_event add py_str (VDict ev) message_parts
  = Ok (match message_parts with
        | [] => [("content"%string, VStr "Done.")]
        | _ => message_parts
        end,
        Some ("✅ **Complete**"%string, true)).
Proof.
  intros Ht. unfold process_event.
  rewrite parse_event_rest by (by rewrite Ht).
  unfold parse_rest. by rewrite Ht.
Qed.

(** X23.  A [tool_start] chunk adds one line naming its tools, joined
    by commas, when every tool has a string name.  When one of them has
    no name, or a name that is no string, the join fails with a
    [TypeError] and with it the turn. *)
Theorem tool_names_must_be_strings (parsed : dict) (tools : list value)
    (message_parts : parts) :
  get parsed "type" = VStr "tool_start" ->
  lookup_key "tools" parsed = Some (VList tools) ->
  Forall (fun t => isinstance_dict t = true) tools ->
  (forall ns, map tool_name tools = map VStr ns ->
     fold_parsed add parsed message_parts
     = Ok (message_parts ++ [("tool"%string, VStr (String.concat ", " ns))],
           Some ("⏳ **Executing tools...**"%string, false)))
  /\ (existsb (fun t => negb (is_string (tool_name t))) tools = true ->
      fold_parsed add parsed message_parts = Err TypeErr).
Proof.
  intros Ht Htools Hall. unfold fold_parsed.
  rewrite (item_type _ _ Ht). simpl. unfold item. rewrite Htools.
  cbn [and_then names_of]. rewrite (names_in_dicts tools Hall).
  cbn [and_then]. split.
  - intros ns ->. by rewrite join_strings.
  - intros Hex. rewrite join_raises; [done|].
    clear -Hex. induction tools as [|t tools IH]; [done|].
    simpl in *. destruct (negb (is_string (tool_name t))); [done|].
    by apply IH.
Qed.

Lemma parse_event_shape (event chunk : value) :
  parse_event py_str event = Return (Some chunk) -> well_formed chunk.
Proof.
  unfold parse_event. destruct event as [| | | | | |ev]; try done.
  destruct (resolve_message ev) as [| | | | | |m] eqn:Em; cbn [bind];
    try apply parse_rest_shape.
  destruct (truthy (VDict m)); cbn [bind]; [|apply parse_rest_shape].
  destruct (get_default m "content" (VList [])) as [| | | | |content|];
    cbn [bind]; try apply parse_rest_shape.
  destruct (parse_content content) as [[c|]|e] eqn:Ec; cbn [bind]; [| |done].
  - intros [= <-]. by eapply parse_content_shape.
  - apply parse_rest_shape.
Qed.

Lemma fold_well_formed (d : dict) (message_parts : parts) (e : error) :
  (forall a b e, add a b = Err e -> e = TypeErr) ->
  well_formed (VDict d) ->
  fold_parsed add d message_parts = Err e -> e = TypeErr.
Proof.
  intros Hadd (d' & [= <-] & Hshape). unfold fold_parsed.
  destruct Hshape as [[Ht _]|[[Ht (tools & Htools & _ & Hall)]|[[Ht Hk]|
                     [[Ht Hk]|[[Ht Hk]|[Ht Hk]]]]]];
    rewrite (item_type _ _ Ht); simpl.
  - done.
  - unfold item. rewrite Htools. cbn [and_then names_of].
    rewrite (names_in_dicts tools Hall). cbn [and_then].
    destruct (join_returns_or_type_error ", " (map tool_name tools))
      as [[r ->]| ->]; simpl; [done|]. by intros [= <-].
  - destruct (truthy (get d "text")) eqn:Htr; [|done].
    assert (exists v, lookup_key "text" d = Some v) as [v Hv].
    { unfold get in Htr. destruct (lookup_key "text" d); [eauto|done]. }
    unfold item. rewrite Hv. cbn [and_then].
    destruct (last message_parts) as [[kind content]|]; [|done].
    destruct (String.eqb kind "content"); [|done].
    destruct (add content v) as [merged|e0] eqn:Ea; cbn [and_then]; [done|].
    intros [= <-]. by eapply Hadd.
  - unfold has_key in Hk. unfold item.
    by destruct (lookup_key "text" d).
  - done.
  - done.
Qed.

(** X24.  Reading a parsed chunk never fails for a missing entry.
    When the step for an event fails, either [parse_event] itself has
    raised on the event, or the failure is a [TypeError]: from joining
    tool names or from adding a text to the last part. *)
Theorem chunk_indexing_never_fails (event : value) (message_parts : parts)
    (e : error) :
  (forall a b e, add a b = Err e -> e = TypeErr) ->
  process_event add py_str event message_parts = Err e ->
  e = TypeErr
  \/ (e = AttributeErr /\ parse_event py_str event = Raise AttributeError).
Proof.
  intros Hadd. unfold process_event.
  destruct event as [| | | | | |ev]; try done.
  destruct (eq_str (get ev "type") "session_info"); [done|].
  destruct (parse_event py_str (VDict ev)) as [[chunk|]|[|]] eqn:Hp;
    cbn [of_outcome and_then]; try done.
  - pose proof (parse_event_shape _ _ Hp) as Hwf.
    destruct Hwf as (d & -> & Hshape).
    destruct d as [|kv d'] eqn:Ed; [done|]. rewrite <- Ed in *.
    intros Herr. left.
    eapply (fold_well_formed d message_parts e Hadd); [|done].
    by exists d.
  - intros [= <-]. by right.
  - intros [= <-]. by left.
Qed.

End Events.

Lemma content_chunks_fold_into_one_part_witness :
  fold_chunks add_strings (map text_chunk ["Hel"; "lo"]%string)
    [("thinking"%string, VStr "plan")]
  = Ok [("thinking"%string, VStr "plan"); ("content"%string, VStr "Hello")].
Proof.
  refine (proj1 (content_chunks_fold_into_one_part add_strings _
                   ["Hel"; "lo"]%string [("thinking"%string, VStr "plan")] _ _)
            eq_refl).
  - intros x y. reflexivity.
  - discriminate.
  - repeat constructor; discriminate.
Defined.

Lemma chunks_that_show_nothing_witness :
  process_event add_strings (fun _ => ""%string) (VDict ev_two_tasks)
    [("content"%string, VStr "Hi")]
  = Ok ([("content"%string, VStr "Hi")], None).
Proof.
  refine (proj1 (proj2 (proj2 (chunks_that_show_nothing add_strings
                                 (fun _ => ""%string)
                                 [("content"%string, VStr "Hi")])))
            ev_two_tasks [("content", VList content_two_tasks)]
            content_two_tasks _ eq_refl _ _).
  - apply fm_assistant; [reflexivity|reflexivity|discriminate].
  - discriminate.
  - repeat constructor.
    + exists [("type", VStr "tool_use"); ("name", VStr "Task");
              ("input", VDict [("description", VStr "explore the repo")])],
             [("description", VStr "explore the repo")].
      split; reflexivity.
    + exists [("type", VStr "tool_use"); ("name", VStr "Task")], [].
      split; reflexivity.
Defined.

Lemma exit_is_shown_as_complete_witness :
  process_event add_strings (fun _ => ""%string)
    (VDict [("type", VStr "exit"); ("code", VInt 1)]) []
  = Ok ([("content"%string, VStr "Done.")],
        Some ("✅ **Complete**"%string, true)).
Proof.
  apply (exit_is_shown_as_complete add_strings (fun _ => ""%string)
           [("type", VStr "exit"); ("code", VInt 1)] []).
  reflexivity.
Defined.

Lemma tool_names_must_be_strings_witness :
  fold_parsed add_strings
    [("type", VStr "tool_start");
     ("tools", VList [VDict [("type", VStr "tool_use")]])] []
  = Err TypeErr.
Proof.
  refine (proj2 (tool_names_must_be_strings add_strings
                   [("type", VStr "tool_start");
                    ("tools", VList [VDict [("type", VStr "tool_use")]])]
                   [VDict [("type", VStr "tool_use")]] []
                   eq_refl eq_refl _) eq_refl).
  repeat constructor.
Defined.

Lemma chunk_indexing_never_fails_witness :
  TypeErr = TypeErr
  \/ (TypeErr = AttributeErr
      /\ parse_event (fun _ => ""%string) (VDict ev_nameless_tool)
         = Raise AttributeError).
Proof.
  refine (chunk_indexing_never_fails add_strings (fun _ => ""%string)
            (VDict ev_nameless_tool) [] TypeErr _ eq_refl).
  intros a b e H. destruct a, b; simpl in H; congruence.
Defined.

End TurnFacts.
